(** * Bundle generation (src/Bundle.ts)

    A shallow embedding of the bundle-generation orchestrator: manual chunk
    resolution, chunk partitioning, identity assignment, the render pipeline
    with its plugin hooks, and the final validation of the output bundle.

    [Bundle.ts] drives a number of collaborators whose code lives elsewhere
    (Chunk, PluginDriver, Graph, the helpers under utils/).  They are gathered
    in the record [Collaborators]; every theorem below is stated for an
    arbitrary implementation of that record.  A collaborator call that can
    throw returns a sum ([inl] is the thrown value).

    Effects are made explicit:
    - thrown errors: the left injection of a sum;
    - the output bundle, the [id] field of the chunk objects and the sequence
      of observable calls (the trace) are threaded through a state monad [M]
      whose state survives a throw, so that [try]/[catch] can be expressed;
    - [await Promise.all(tasks)] is modelled with the tasks settling in list
      order; timers ([timeStart]/[timeEnd]) are left out;
    - plugins write to the bundle from the hooks [Bundle.ts] runs itself
      ([runHook]); what they may write from inside other collaborators
      (addons, rendering) is left out;
    - strings are sequences of bytes, read as UTF-8 where JavaScript orders
      strings ([compareAlias]);
    - the entries of the bundle are values: an object that a plugin has
      stored under two keys counts as two entries. *)

From Stdlib Require Import List Bool Arith Lia NArith ZArith Permutation Sorted.
From Stdlib Require String.
Import ListNotations String.StringSyntax.
Abbreviation string := String.string.
Local Open Scope string_scope.
Local Open Scope list_scope.

Set Implicit Arguments.

(** ** Insertion-ordered maps

    A JavaScript [Map] and a null-prototype object used as a dictionary both
    remember the order in which keys were first inserted, and collaborators
    such as [getChunkAssignments] iterate in that order.  Keys are strings
    (integer-like property names, which JavaScript objects enumerate first,
    are not treated specially). *)
Module JsMap.

Definition t (V : Type) := list (string * V).

Definition empty {V : Type} : t V := [].

Fixpoint get {V : Type} (k : string) (m : t V) : option V :=
  match m with
  | [] => None
  | (k', v) :: m' => if String.eqb k k' then Some v else get k m'
  end.

(** [m.set(k, v)] / [obj[k] = v]: overwrite in place, or append. *)
Fixpoint set {V : Type} (k : string) (v : V) (m : t V) : t V :=
  match m with
  | [] => [(k, v)]
  | (k', v') :: m' =>
      if String.eqb k k' then (k, v) :: m' else (k', v') :: set k v m'
  end.

End JsMap.

(** ** Data model *)

(** [Module] (src/Module.ts), restricted to what [Bundle.ts] reads.  Module
    objects are identified by their id, as in [graph.modulesById]. *)
Record RollupModule := {
  module_id : string;
  isIncluded : bool;
  info_isEntry : bool;
  isUserDefinedEntryPoint : bool;
  includedDynamicImporters : list string
}.

(** The values of [graph.modulesById]: [Module | ExternalModule]. *)
Inductive GraphNode :=
| InternalModule (m : RollupModule)
| ExternalModule (external_id : string).

Record Graph := {
  modulesById : list (string * GraphNode);
  entryModules : list RollupModule
}.

Inductive ModuleFormat := amd | cjs | es | iife | system | umd.

Definition format_name (f : ModuleFormat) : string :=
  match f with
  | amd => "amd" | cjs => "cjs" | es => "es"
  | iife => "iife" | system => "system" | umd => "umd"
  end.

Record AmdOptions := {
  autoId : bool;
  amd_id : option string
}.

(** [manualChunks] is either an object (alias -> files, in [Object.entries]
    order) or a function [GetManualChunk] whose result is a string, [null] or
    [undefined]. *)
Inductive ManualChunksOption :=
| ManualChunksObject (table : list (string * list string))
| ManualChunksFunction (getManualChunk : string -> option string).

Record NormalizedOutputOptions := {
  manualChunks : ManualChunksOption;
  inlineDynamicImports : bool;
  preserveModules : bool;
  file : option string;
  format : ModuleFormat;
  sourcemapFile : option string;
  amd_options : AmdOptions;
  validate : bool
}.

(** JavaScript truthiness of a [string | undefined]. *)
Definition truthy (s : option string) : bool :=
  match s with
  | Some s => negb (String.eqb s "")
  | None => false
  end.

Inductive FileType := type_placeholder | type_chunk | type_asset.

(** A value stored in the output bundle.  [file_type = None] is an entry
    without (a truthy) [type]; [file_code = Some _] is ['code' in file]. *)
Record OutputFile := {
  file_type : option FileType;
  file_code : option string;
  file_map : option string;
  file_source : option string
}.

Definition FILE_PLACEHOLDER : OutputFile :=
  {| file_type := Some type_placeholder; file_code := None;
     file_map := None; file_source := None |}.

Definition OutputBundle := JsMap.t OutputFile.

(** Thrown values and warnings.  The first four constructors are the error
    builders of utils/error that [Bundle.ts] calls, applied to the arguments
    it passes; [errTypeError] is a runtime [TypeError]; [errThrown] is any
    value thrown by a collaborator. *)
Inductive RollupError :=
| errCannotAssignModuleToChunk (moduleId assignToAlias currentAlias : string)
| errInvalidOption (optionName urlHash explanation : string) (value : option string)
| errChunkInvalid (chunkFile : OutputFile) (cause : RollupError)
| errTypeError (message : string)
| errThrown (message : string).

Definition Result (A : Type) : Type := (RollupError + A)%type.

(** A chunk object: its identity and what [Bundle.ts] hands to the
    constructor.  The fields it reads back later ([facadeModule],
    [entryModules]) are collaborator observations; [id], which [Bundle.ts]
    writes itself, lives in the state. *)
Record Chunk := {
  chunk_key : nat;
  orderedModules : list RollupModule;
  manualChunkAlias : option string
}.

Record Addons := {
  banner : string;
  footer : string;
  intro : string;
  outro : string
}.

Record RenderedChunk := {
  rendered_code : string;
  rendered_map : option string
}.

(** The plugin hooks run from [Bundle.ts]. *)
Inductive Hook :=
| renderStart
| renderError (err : RollupError)
| generateBundle (isWrite : bool).

(** Observable calls, in the order they are made. *)
Inductive Event :=
| EvHook (h : Hook)
| EvNewChunk (c : Chunk)
| EvLink (c : Chunk)
| EvGenerateFacades (c : Chunk)
| EvCreateAddons
| EvGenerateExports (c : Chunk)
| EvPreRender (c : Chunk)
| EvAssignId (c : Chunk) (id : string)
| EvChunkInfo (c : Chunk)
| EvRender (c : Chunk)
| EvWarn (warning : RollupError)
| EvWarnDeprecation (message : string)
| EvFinaliseAssets.

(** The collaborators of [Bundle.ts]. *)
Record Collaborators := {
  (* utils/PluginDriver: a hook may write to the bundle, and may fail *)
  runHook : Hook -> OutputBundle -> Result OutputBundle;
  pluginDriver_finaliseAssets : OutputBundle -> Result unit;
  (* Graph and its module loader *)
  addAdditionalModules : list string -> Result (list RollupModule);
  contextParse : string -> Result unit;
  (* utils *)
  getChunkAssignments :
    list RollupModule -> JsMap.t string -> list (option string * list RollupModule);
  sortByExecutionOrder : list RollupModule -> list RollupModule;
  commondir : list string -> string;
  isAbsolute : string -> bool;
  basename : string -> string;
  createAddons : Result Addons;
  (* Chunk *)
  chunk_entryModules : Chunk -> list RollupModule;
  chunk_facadeModule : Chunk -> option RollupModule;
  chunk_link : Chunk -> Result unit;
  chunk_generateFacades : Chunk -> Result (list Chunk);
  chunk_generateExports : Chunk -> Result unit;
  chunk_preRender : Chunk -> string -> Result unit;
  chunk_generateIdPreserveModules : Chunk -> string -> OutputBundle -> Result string;
  chunk_generateId : Chunk -> Addons -> OutputBundle -> Result string;
  chunk_getChunkInfoWithFileNames : Chunk -> option string -> Result OutputFile;
  chunk_render : Chunk -> Addons -> option OutputFile -> Result RenderedChunk
}.

(** ** The monad of the pipeline *)

Record State := {
  bundle : OutputBundle;
  chunkIds : list (nat * string);
  trace : list Event
}.

Definition initialState : State :=
  {| bundle := JsMap.empty; chunkIds := []; trace := [] |}.

Definition M (A : Type) : Type := State -> Result A * State.

Definition ret {A : Type} (a : A) : M A := fun s => (inr a, s).

Definition throw {A : Type} (e : RollupError) : M A := fun s => (inl e, s).

Definition bind {A B : Type} (c : M A) (k : A -> M B) : M B :=
  fun s =>
    match c s with
    | (inr a, s') => k a s'
    | (inl e, s') => (inl e, s')
    end.

Declare Scope pipeline_scope.
Delimit Scope pipeline_scope with pipeline.
Notation "x <- c ;; k" := (bind c (fun x => k))
  (at level 61, c at next level, right associativity) : pipeline_scope.
Notation "c ;; k" := (bind c (fun _ => k))
  (at level 61, right associativity) : pipeline_scope.
Local Open Scope pipeline_scope.

(** [try { body } catch (err) { handler err }] *)
Definition tryCatch {A : Type} (body : M A) (handler : RollupError -> M A) : M A :=
  fun s =>
    match body s with
    | (inl e, s') => handler e s'
    | (inr a, s') => (inr a, s')
    end.

Definition lift {A : Type} (r : Result A) : M A := fun s => (r, s).

Definition emit (e : Event) : M unit :=
  fun s => (inr tt, {| bundle := bundle s; chunkIds := chunkIds s;
                       trace := trace s ++ [e] |}).

Definition getBundle : M OutputBundle := fun s => (inr (bundle s), s).

Definition putBundle (b : OutputBundle) : M unit :=
  fun s => (inr tt, {| bundle := b; chunkIds := chunkIds s; trace := trace s |}).

(** [bundle[key] = value] *)
Definition setBundle (key : string) (value : OutputFile) : M unit :=
  b <- getBundle ;; putBundle (JsMap.set key value b).

Fixpoint lookupId (k : nat) (ids : list (nat * string)) : option string :=
  match ids with
  | [] => None
  | (k', id) :: r => if Nat.eqb k k' then Some id else lookupId k r
  end.

(** [chunk.id] *)
Definition getChunkId (c : Chunk) : M (option string) :=
  fun s => (inr (lookupId (chunk_key c) (chunkIds s)), s).

(** [chunk.id = id] *)
Definition setChunkId (c : Chunk) (id : string) : M unit :=
  fun s => (inr tt, {| bundle := bundle s;
                       chunkIds := (chunk_key c, id) :: chunkIds s;
                       trace := trace s |}).

(** A property key made from [chunk.id!]. *)
Definition propertyKey (id : option string) : string :=
  match id with
  | Some s => s
  | None => "undefined"
  end.

(** [for (const x of l) body x] *)
Fixpoint forEach {A : Type} (l : list A) (body : A -> M unit) : M unit :=
  match l with
  | [] => ret tt
  | x :: r => body x ;; forEach r body
  end.

(** [await Promise.all(l.map(task))] for tasks without effect on the state,
    settling in list order: the first rejection is the one that is thrown. *)
Fixpoint promiseAll {A B : Type} (task : A -> Result B) (l : list A)
  : Result (list B) :=
  match l with
  | [] => inr []
  | x :: r =>
      match task x with
      | inl e => inl e
      | inr y =>
          match promiseAll task r with
          | inl e => inl e
          | inr ys => inr (y :: ys)
          end
      end
  end.

(** Folding a fallible update over a list (a loop around a local variable). *)
Fixpoint foldResult {A S : Type} (f : A -> S -> Result S) (l : list A) (s : S)
  : Result S :=
  match l with
  | [] => inr s
  | x :: r =>
      match f x s with
      | inl e => inl e
      | inr s' => foldResult f r s'
      end
  end.

(** [Array.prototype.sort(compare)]: the stable sort. *)
Fixpoint sortInsert {A : Type} (compare : A -> A -> Z) (x : A) (l : list A) : list A :=
  match l with
  | [] => [x]
  | y :: r => if (0 <? compare x y)%Z then y :: sortInsert compare x r else x :: l
  end.

Definition arraySort {A : Type} (compare : A -> A -> Z) (l : list A) : list A :=
  fold_right (sortInsert compare) [] l.

(** ** The functions of [Bundle.ts] *)

(** [error(e)] of utils/error throws its argument. *)
Definition error {A : Type} (e : RollupError) : M A := throw e.

(** Modelled from the spec: [inputOptions.onwarn], the warning channel, which
    is missing from the sources; a warning is recorded and nothing is thrown
    (non-fatal issues are reported and do not alter the outcome). *)
Definition onwarn (warning : RollupError) : M unit := emit (EvWarn warning).

(** Modelled from the spec: [warnDeprecation] of utils/error, missing from the
    sources, called with an active deprecation; the notice is reported and
    nothing is thrown. *)
Definition warnDeprecation (message : string) : M unit :=
  emit (EvWarnDeprecation message).

(** The double quote character, and a text between double quotes, for the
    message texts. *)
Definition doubleQuote : string :=
  String.String (Ascii.ascii_of_nat 34) String.EmptyString.

Local Infix "+++" := String.append (at level 60, right associativity).

Definition quoted (text : string) : string :=
  doubleQuote +++ text +++ doubleQuote.

(** A JavaScript string is a sequence of UTF-16 code units, and [<] and [>]
    compare two strings code unit by code unit (a proper prefix comes first).
    The strings of this development are sequences of bytes, read as UTF-8:
    [utf16] gives the code units they stand for.  A character outside the
    basic plane becomes a surrogate pair; a byte that does not start a
    well-formed sequence is taken as a code unit of its own. *)
Definition continuation (b : N) : bool := ((128 <=? b) && (b <? 192))%N.

Definition low6 (b : N) : N := (b mod 64)%N.

Fixpoint utf16 (bytes : list N) : list N :=
  match bytes with
  | [] => []
  | b0 :: rest =>
      let single := b0 :: utf16 rest in
      if (b0 <? 192)%N then single
      else if (b0 <? 224)%N then
        match rest with
        | b1 :: rest1 =>
            if continuation b1
            then ((b0 mod 32) * 64 + low6 b1)%N :: utf16 rest1
            else single
        | _ => single
        end
      else if (b0 <? 240)%N then
        match rest with
        | b1 :: b2 :: rest2 =>
            if continuation b1 && continuation b2
            then ((b0 mod 16) * 4096 + low6 b1 * 64 + low6 b2)%N :: utf16 rest2
            else single
        | _ => single
        end
      else
        match rest with
        | b1 :: b2 :: b3 :: rest3 =>
            let codePoint :=
              ((b0 mod 8) * 262144 + low6 b1 * 4096 + low6 b2 * 64 + low6 b3)%N in
            if (b0 <? 248)%N && continuation b1 && continuation b2
               && continuation b3
               && (65536 <=? codePoint)%N && (codePoint <=? 1114111)%N
            then (55296 + (codePoint - 65536) / 1024)%N
                 :: (56320 + (codePoint - 65536) mod 1024)%N
                 :: utf16 rest3
            else single
        | _ => single
        end
  end.

Definition codeUnits (s : string) : list N :=
  utf16 (map Ascii.N_of_ascii (String.list_ascii_of_string s)).

(** [a < b] on JavaScript strings. *)
Definition jsLt (a b : string) : bool :=
  match list_compare N.compare (codeUnits a) (codeUnits b) with
  | Lt => true
  | _ => false
  end.

(** [aliasA > aliasB ? 1 : aliasA < aliasB ? -1 : 0] *)
Definition compareAlias (aliasA aliasB : string) : Z :=
  if jsLt aliasB aliasA then 1%Z
  else if jsLt aliasA aliasB then (-1)%Z
  else 0%Z.

Definition addModuleToManualChunk (alias : string) (module : RollupModule)
    (manualChunkAliasByEntry : JsMap.t string) : Result (JsMap.t string) :=
  let existingAlias := JsMap.get (module_id module) manualChunkAliasByEntry in
  match existingAlias with
  | Some existing =>
      if negb (String.eqb existing alias)
      then inl (errCannotAssignModuleToChunk (module_id module) alias existing)
      else inr (JsMap.set (module_id module) alias manualChunkAliasByEntry)
  | None => inr (JsMap.set (module_id module) alias manualChunkAliasByEntry)
  end.

(** The loop shared by [addManualChunks] and [assignManualChunks]. *)
Definition addPairs (pairs : list (string * RollupModule))
    (manualChunkAliasByEntry : JsMap.t string) : Result (JsMap.t string) :=
  foldResult (fun '(alias, module) => addModuleToManualChunk alias module)
    pairs manualChunkAliasByEntry.

Definition getIncludedModules (modulesById : list (string * GraphNode))
  : list RollupModule :=
  flat_map
    (fun '(_, node) =>
       match node with
       | InternalModule module =>
           if isIncluded module || info_isEntry module
              || (0 <? length (includedDynamicImporters module))
           then [module] else []
       | ExternalModule _ => []
       end)
    modulesById.

Definition isUserDefinedEntry (facadeModule : option RollupModule) : bool :=
  match facadeModule with
  | Some module => isUserDefinedEntryPoint module
  | None => false
  end.

Section Bundle.

Variable outputOptions : NormalizedOutputOptions.
Variable graph : Graph.
Variable co : Collaborators.

(** [this.pluginDriver.hookParallel(name, args)] and [hookSeq]: how the
    plugins of one hook are scheduled is the plugin driver's business. *)
Definition hookParallel (h : Hook) : M unit :=
  emit (EvHook h) ;;
  b <- getBundle ;;
  b' <- lift (runHook co h b) ;;
  putBundle b'.

Definition hookSeq (h : Hook) : M unit := hookParallel h.

(** [chunkEntries]: the files of every alias resolved to modules. *)
Definition loadChunkEntries (manualChunks : list (string * list string))
  : Result (list (string * list RollupModule)) :=
  promiseAll
    (fun '(alias, files) =>
       match addAdditionalModules co files with
       | inl e => inl e
       | inr entries => inr (alias, entries)
       end)
    manualChunks.

Definition addManualChunks (manualChunks : list (string * list string))
  : Result (JsMap.t string) :=
  match loadChunkEntries manualChunks with
  | inl e => inl e
  | inr chunkEntries =>
      foldResult
        (fun '(alias, entries) =>
           foldResult (addModuleToManualChunk alias) entries)
        chunkEntries JsMap.empty
  end.

Definition collectManualChunkAliases (getManualChunk : string -> option string)
  : list (string * RollupModule) :=
  flat_map
    (fun '(_, node) =>
       match node with
       | InternalModule module =>
           match getManualChunk (module_id module) with
           | Some manualChunkAlias => [(manualChunkAlias, module)]
           | None => []
           end
       | ExternalModule _ => []
       end)
    (modulesById graph).

Definition assignManualChunks (getManualChunk : string -> option string)
  : Result (JsMap.t string) :=
  let manualChunkAliasesWithEntry := collectManualChunkAliases getManualChunk in
  let sorted :=
    arraySort (fun a b => compareAlias (fst a) (fst b)) manualChunkAliasesWithEntry in
  addPairs sorted JsMap.empty.

(** The groups [generateChunks] iterates over. *)
Definition chunkGroups (manualChunkAliasByEntry : JsMap.t string)
  : list (option string * list RollupModule) :=
  if inlineDynamicImports outputOptions
  then [(None, getIncludedModules (modulesById graph))]
  else if preserveModules outputOptions
  then map (fun module => (None, [module])) (getIncludedModules (modulesById graph))
  else getChunkAssignments co (entryModules graph) manualChunkAliasByEntry.

(** The first loop of [generateChunks]: one [new Chunk] per group, pushed on
    [chunks].  The key of a chunk is its position in [chunks]. *)
Fixpoint constructChunks (groups : list (option string * list RollupModule))
    (chunks : list Chunk) : M (list Chunk) :=
  match groups with
  | [] => ret chunks
  | (alias, modules) :: rest =>
      let chunk :=
        {| chunk_key := length chunks;
           orderedModules := sortByExecutionOrder co modules;
           manualChunkAlias := alias |} in
      emit (EvNewChunk chunk) ;;
      constructChunks rest (chunks ++ [chunk])
  end.

Fixpoint collectFacades (chunks : list Chunk) (facades : list Chunk)
  : M (list Chunk) :=
  match chunks with
  | [] => ret facades
  | chunk :: rest =>
      emit (EvGenerateFacades chunk) ;;
      generated <- lift (chunk_generateFacades co chunk) ;;
      collectFacades rest (facades ++ generated)
  end.

Definition generateChunks : M (list Chunk) :=
  manualChunkAliasByEntry <-
    lift (match manualChunks outputOptions with
          | ManualChunksObject table => addManualChunks table
          | ManualChunksFunction getManualChunk => assignManualChunks getManualChunk
          end) ;;
  chunks <- constructChunks (chunkGroups manualChunkAliasByEntry) [] ;;
  forEach chunks (fun chunk => emit (EvLink chunk) ;; lift (chunk_link co chunk)) ;;
  facades <- collectFacades chunks [] ;;
  ret (chunks ++ facades).

Definition validateOptionsForMultiChunkOutput : M unit :=
  match format outputOptions with
  | umd | iife =>
      error (errInvalidOption "output.format" "outputformat"
               "UMD and IIFE output formats are not supported for code-splitting builds"
               (Some (format_name (format outputOptions))))
  | _ =>
      match file outputOptions with
      | Some _ =>
          error (errInvalidOption "output.file" "outputdir"
                   ("when building multiple chunks, the " +++ quoted "output.dir"
                    +++ " option must be used, not " +++ quoted "output.file"
                    +++ ". To inline dynamic imports, set the "
                    +++ quoted "inlineDynamicImports" +++ " option")
                   None)
      | None =>
          if truthy (sourcemapFile outputOptions)
          then error (errInvalidOption "output.sourcemapFile" "outputsourcemapfile"
                        (quoted "output.sourcemapFile"
                         +++ " is only supported for single-file builds")
                        None)
          else if negb (autoId (amd_options outputOptions))
                  && truthy (amd_id (amd_options outputOptions))
          then onwarn (errInvalidOption "output.amd.id" "outputamd"
                         ("this option is only properly supported for single-file builds. Use "
       +++ quoted "output.amd.autoId" +++ " and "
       +++ quoted "output.amd.basePath" +++ " instead")
                         None)
          else ret tt
      end
  end.

Definition getAbsoluteEntryModulePaths (chunks : list Chunk) : list string :=
  flat_map
    (fun chunk =>
       flat_map
         (fun entryModule =>
            if isAbsolute co (module_id entryModule)
            then [module_id entryModule] else [])
         (chunk_entryModules co chunk))
    chunks.

Definition prerenderChunks (chunks : list Chunk) (inputBase : string) : M unit :=
  forEach chunks
    (fun chunk => emit (EvGenerateExports chunk) ;;
                  lift (chunk_generateExports co chunk)) ;;
  forEach chunks
    (fun chunk => emit (EvPreRender chunk) ;;
                  lift (chunk_preRender co chunk inputBase)).

(** [chunk.facadeModule && chunk.facadeModule.isUserDefinedEntryPoint] *)
Definition isEntryChunk (chunk : Chunk) : bool :=
  isUserDefinedEntry (chunk_facadeModule co chunk).

(** The first loop of [assignChunkIds]: [(entryChunks, otherChunks)]. *)
Definition splitChunks (chunks : list Chunk) : list Chunk * list Chunk :=
  fold_left
    (fun '(entryChunks, otherChunks) chunk =>
       if isEntryChunk chunk
       then (entryChunks ++ [chunk], otherChunks)
       else (entryChunks, otherChunks ++ [chunk]))
    chunks ([], []).

Definition chunksForNaming (chunks : list Chunk) : list Chunk :=
  let '(entryChunks, otherChunks) := splitChunks chunks in
  entryChunks ++ otherChunks.

(** The identity computed for one chunk, given the bundle as it stands:
    [basename(file)] when [outputOptions.file] is a non-empty string. *)
Definition computeChunkId (chunk : Chunk) (inputBase : string) (addons : Addons)
    (b : OutputBundle) : Result string :=
  let generated :=
    if preserveModules outputOptions
    then chunk_generateIdPreserveModules co chunk inputBase b
    else chunk_generateId co chunk addons b in
  match file outputOptions with
  | Some f => if String.eqb f "" then generated else inr (basename co f)
  | None => generated
  end.

(** The body of the second loop of [assignChunkIds]. *)
Definition assignChunkId (inputBase : string) (addons : Addons) (chunk : Chunk)
  : M unit :=
  b <- getBundle ;;
  id <- lift (computeChunkId chunk inputBase addons b) ;;
  setChunkId chunk id ;;
  emit (EvAssignId chunk id) ;;
  setBundle id FILE_PLACEHOLDER.

Definition assignChunkIds (chunks : list Chunk) (inputBase : string)
    (addons : Addons) : M unit :=
  forEach (chunksForNaming chunks) (assignChunkId inputBase addons).

(** [Object.assign(outputChunk, rendered)] *)
Definition assignRendered (outputChunk : OutputFile) (rendered : RenderedChunk)
  : OutputFile :=
  {| file_type := file_type outputChunk;
     file_code := Some (rendered_code rendered);
     file_map := rendered_map rendered;
     file_source := file_source outputChunk |}.

(** One task of the [Promise.all] of [addFinalizedChunksToBundle], up to its
    [await]: the entry [bundle[chunk.id!]] is read and [chunk.render] is
    called.  All tasks get this far, in the order of the chunks, before any
    of them settles. *)
Definition startRender (addons : Addons) (chunk : Chunk)
  : M (string * option OutputFile * Result RenderedChunk) :=
  id <- getChunkId chunk ;;
  b <- getBundle ;;
  let outputChunk := JsMap.get (propertyKey id) b in
  emit (EvRender chunk) ;;
  ret (propertyKey id, outputChunk, chunk_render co chunk addons outputChunk).

Fixpoint startRenders (addons : Addons) (chunks : list Chunk)
  : M (list (string * option OutputFile * Result RenderedChunk)) :=
  match chunks with
  | [] => ret []
  | chunk :: rest =>
      task <- startRender addons chunk ;;
      tasks <- startRenders addons rest ;;
      ret (task :: tasks)
  end.

(** The rest of the task, once [chunk.render] has settled:
    [Object.assign(outputChunk, rendered)], a [TypeError] when [outputChunk]
    is undefined.  Once a task has thrown, [Promise.all] rejects and what the
    other tasks still do is not observed by [generate]. *)
Definition settleRender (task : string * option OutputFile * Result RenderedChunk)
  : M unit :=
  let '(id, outputChunk, outcome) := task in
  match outcome with
  | inl e => throw e
  | inr rendered =>
      match outputChunk with
      | Some outputChunk => setBundle id (assignRendered outputChunk rendered)
      | None => throw (errTypeError "Cannot convert undefined or null to object")
      end
  end.

Definition addFinalizedChunksToBundle (chunks : list Chunk) (inputBase : string)
    (addons : Addons) : M unit :=
  assignChunkIds chunks inputBase addons ;;
  forEach chunks
    (fun chunk =>
       id <- getChunkId chunk ;;
       emit (EvChunkInfo chunk) ;;
       info <- lift (chunk_getChunkInfoWithFileNames co chunk id) ;;
       setBundle (propertyKey id) info) ;;
  tasks <- startRenders addons chunks ;;
  forEach tasks settleRender.

Definition deprecationMessage : string :=
  ("A plugin is directly adding properties to the bundle object in the "
     +++ quoted "generateBundle"
     +++ " hook. This is deprecated and will be removed in a future Rollup version, please use "
     +++ quoted "this.emitFile" +++ " instead.").

(** [(file as OutputAsset).type = 'asset'] *)
Definition coerceToAsset (f : OutputFile) : OutputFile :=
  {| file_type := Some type_asset; file_code := file_code f;
     file_map := file_map f; file_source := file_source f |}.

(** The body of the loop of [finaliseAssets].  The values of the bundle are
    objects, and [file.type = 'asset'] changes the object in place: the loop
    returns the entries as they stand afterwards. *)
Definition finaliseAsset (f : OutputFile) : M OutputFile :=
  f <- match file_type f with
       | None => warnDeprecation deprecationMessage ;; ret (coerceToAsset f)
       | Some _ => ret f
       end ;;
  match validate outputOptions, file_code f with
  | true, Some code =>
      match contextParse co code with
      | inl err => onwarn (errChunkInvalid f err)
      | inr _ => ret tt
      end
  | _, _ => ret tt
  end ;;
  ret f.

Fixpoint finaliseEntries (entries : OutputBundle) : M OutputBundle :=
  match entries with
  | [] => ret []
  | (key, f) :: rest =>
      f' <- finaliseAsset f ;;
      rest' <- finaliseEntries rest ;;
      ret ((key, f') :: rest')
  end.

Definition finaliseAssets : M unit :=
  b <- getBundle ;;
  b' <- finaliseEntries b ;;
  putBundle b' ;;
  emit EvFinaliseAssets ;;
  lift (pluginDriver_finaliseAssets co b').

(** The statements of the [try] block of [generate] that follow
    [generateChunks].  The code snippets ([getGenerateCodeSnippets]) are a
    pure function of the output options and are only handed on to the
    chunks. *)
Definition generateAfterChunks (chunks : list Chunk) : M unit :=
  (if 1 <? length chunks then validateOptionsForMultiChunkOutput else ret tt) ;;
  let inputBase := commondir co (getAbsoluteEntryModulePaths chunks) in
  emit EvCreateAddons ;;
  addons <- lift (createAddons co) ;;
  prerenderChunks chunks inputBase ;;
  addFinalizedChunksToBundle chunks inputBase addons.

(** The body of the [try] block of [generate]. *)
Definition generateSteps : M unit :=
  hookParallel renderStart ;;
  chunks <- generateChunks ;;
  generateAfterChunks chunks.

Definition generate (isWrite : bool) : M OutputBundle :=
  tryCatch generateSteps
    (fun err => hookParallel (renderError err) ;; throw err) ;;
  hookSeq (generateBundle isWrite) ;;
  finaliseAssets ;;
  getBundle.

(** A call of [generate] on a fresh [Bundle]. *)
Definition runGenerate (isWrite : bool) : Result OutputBundle * State :=
  generate isWrite initialState.

End Bundle.

(** ** Vocabulary of the properties *)

(** [alias] is assigned to the module [moduleId] somewhere in [pairs]. *)
Definition assigned (pairs : list (string * RollupModule))
    (moduleId alias : string) : Prop :=
  exists module, In (alias, module) pairs /\ module_id module = moduleId.

(** Some module is assigned to two distinct aliases. *)
Definition conflicting (pairs : list (string * RollupModule)) : Prop :=
  exists moduleId alias1 alias2,
    assigned pairs moduleId alias1 /\ assigned pairs moduleId alias2 /\
    alias1 <> alias2.

(** The map holds exactly the assignments of [pairs]. *)
Definition represents (m : JsMap.t string) (pairs : list (string * RollupModule))
  : Prop :=
  forall moduleId alias,
    JsMap.get moduleId m = Some alias <-> assigned pairs moduleId alias.

Definition flattenEntries (chunkEntries : list (string * list RollupModule))
  : list (string * RollupModule) :=
  flat_map (fun '(alias, entries) => map (pair alias) entries) chunkEntries.

(** The manual-chunk map [generateChunks] starts from. *)
Definition resolvedAliases (outputOptions : NormalizedOutputOptions)
    (graph : Graph) (co : Collaborators) : Result (JsMap.t string) :=
  match manualChunks outputOptions with
  | ManualChunksObject table => addManualChunks co table
  | ManualChunksFunction getManualChunk => assignManualChunks graph getManualChunk
  end.

(** The steps of the pipeline (section 4.5 of the specification) to which an
    observable call belongs. *)
Definition phase (e : Event) : nat :=
  match e with
  | EvHook renderStart => 1
  | EvNewChunk _ | EvLink _ | EvGenerateFacades _ => 2
  | EvWarn (errInvalidOption _ _ _ _) => 2
  | EvCreateAddons => 3
  | EvGenerateExports _ => 4
  | EvPreRender _ => 5
  | EvAssignId _ _ => 6
  | EvChunkInfo _ | EvRender _ => 7
  | EvHook (renderError _) | EvHook (generateBundle _) => 8
  | EvWarn _ | EvWarnDeprecation _ | EvFinaliseAssets => 9
  end.

(** The calls are made in non-decreasing phase order, within [lo..hi]. *)
Fixpoint inPhases (lo hi : nat) (evs : list Event) : Prop :=
  match evs with
  | [] => True
  | e :: rest => lo <= phase e <= hi /\ inPhases (phase e) hi rest
  end.

(** A computation only appends to the trace, calls of phases [lo..hi] in
    phase order. *)
Definition emitsIn (lo hi : nat) {A : Type} (c : M A) : Prop :=
  forall s, exists evs, trace (snd (c s)) = trace s ++ evs /\ inPhases lo hi evs.

(** A computation leaves the trace alone. *)
Definition silent {A : Type} (c : M A) : Prop :=
  forall s, trace (snd (c s)) = trace s.

(** A computation leaves the [id] fields of the chunks alone. *)
Definition keepsIds {A : Type} (c : M A) : Prop :=
  forall s, chunkIds (snd (c s)) = chunkIds s.

(** The chunk built for the group at position [key]. *)
Definition newChunk (co : Collaborators) (key : nat)
    (group : option string * list RollupModule) : Chunk :=
  {| chunk_key := key;
     orderedModules := sortByExecutionOrder co (snd group);
     manualChunkAlias := fst group |}.

(** The chunks built for [groups], the first one at position [start]. *)
Definition primaryChunks (co : Collaborators) (start : nat)
    (groups : list (option string * list RollupModule)) : list Chunk :=
  map (fun '(key, group) => newChunk co key group)
      (combine (seq start (length groups)) groups).

(** What [finaliseAssets] leaves in the bundle for one entry. *)
Definition finalisedFile (f : OutputFile) : OutputFile :=
  match file_type f with
  | None => coerceToAsset f
  | Some _ => f
  end.

(** The notices [finaliseAssets] reports for one entry. *)
Definition finaliseNotices (outputOptions : NormalizedOutputOptions)
    (co : Collaborators) (f : OutputFile) : list Event :=
  (match file_type f with
   | None => [EvWarnDeprecation deprecationMessage]
   | Some _ => []
   end) ++
  (match validate outputOptions, file_code f with
   | true, Some code =>
       match contextParse co code with
       | inl err => [EvWarn (errChunkInvalid (finalisedFile f) err)]
       | inr _ => []
       end
   | _, _ => []
   end).

Definition assignEvent (named : Chunk * string) : Event :=
  EvAssignId (fst named) (snd named).

(** The state [s] after the calls [evs], bundle and chunk ids untouched. *)
Definition withTrace (s : State) (evs : list Event) : State :=
  {| bundle := bundle s; chunkIds := chunkIds s; trace := trace s ++ evs |}.

(** The state after [chunk] has been given the identity [id]. *)
Definition afterAssignment (s : State) (c : Chunk) (id : string) : State :=
  {| bundle := JsMap.set id FILE_PLACEHOLDER (bundle s);
     chunkIds := (chunk_key c, id) :: chunkIds s;
     trace := trace s ++ [EvAssignId c id] |}.

(** The state after the chunks [named] have been given their identities,
    one after the other. *)
Definition afterAssignments (s : State) (named : list (Chunk * string)) : State :=
  fold_left (fun s' named => afterAssignment s' (fst named) (snd named)) named s.

(** The identities [computeChunkId] gives to [chunks], taken in list order
    from the bundle [b]: each is computed against the bundle in which the
    identities given so far are held by placeholders, and the first failure
    ends the list. *)
Fixpoint namedIds (outputOptions : NormalizedOutputOptions) (co : Collaborators)
    (inputBase : string) (addons : Addons) (chunks : list Chunk)
    (b : OutputBundle) : list string * option RollupError :=
  match chunks with
  | [] => ([], None)
  | chunk :: rest =>
      match computeChunkId outputOptions co chunk inputBase addons b with
      | inl e => ([], Some e)
      | inr id =>
          let later :=
            namedIds outputOptions co inputBase addons rest
              (JsMap.set id FILE_PLACEHOLDER b) in
          (id :: fst later, snd later)
      end
  end.

(** What [finaliseAssets] leaves in the bundle. *)
Definition finalisedBundle (b : OutputBundle) : OutputBundle :=
  map (fun entry => (fst entry, finalisedFile (snd entry))) b.

(** ** A small build, for concrete runs *)

Definition moduleA : RollupModule :=
  {| module_id := "/src/a.js"; isIncluded := true; info_isEntry := true;
     isUserDefinedEntryPoint := true; includedDynamicImporters := [] |}.

Definition moduleB : RollupModule :=
  {| module_id := "/src/b.js"; isIncluded := true; info_isEntry := false;
     isUserDefinedEntryPoint := false; includedDynamicImporters := [] |}.

Definition moduleUnused : RollupModule :=
  {| module_id := "/src/unused.js"; isIncluded := false; info_isEntry := false;
     isUserDefinedEntryPoint := false; includedDynamicImporters := [] |}.

Definition demoGraph : Graph :=
  {| modulesById :=
       [("/src/b.js", InternalModule moduleB);
        ("fs", ExternalModule "fs");
        ("/src/unused.js", InternalModule moduleUnused);
        ("/src/a.js", InternalModule moduleA)];
     entryModules := [moduleA] |}.

Definition demoOptions (manual : ManualChunksOption) (preserve : bool)
    (fmt : ModuleFormat) (checked : bool) : NormalizedOutputOptions :=
  {| manualChunks := manual; inlineDynamicImports := false;
     preserveModules := preserve; file := None; format := fmt;
     sourcemapFile := None;
     amd_options := {| autoId := false; amd_id := None |};
     validate := checked |}.

Definition demoResolve (files : list string) : Result (list RollupModule) :=
  inr (flat_map
         (fun f => if String.eqb f "a" then [moduleA]
                   else if String.eqb f "b" then [moduleB] else [])
         files).

(** Names are deconflicted against the bundle by appending a digit. *)
Definition demoGenerateId (c : Chunk) (b : OutputBundle) : Result string :=
  let name := match manualChunkAlias c with
              | Some alias => String.append alias ".js"
              | None => "chunk.js"
              end in
  match JsMap.get name b with
  | None => inr name
  | Some _ => inr (String.append name "2")
  end.

Definition demoFacadeModule (c : Chunk) : option RollupModule :=
  match orderedModules c with
  | [m] => if info_isEntry m then Some m else None
  | _ => None
  end.

Definition demoParse (code : string) : Result unit :=
  if String.eqb code "}" then inl (errThrown "Unexpected token") else inr tt.

Definition quietHook (h : Hook) (b : OutputBundle) : Result OutputBundle := inr b.

Definition demoCollaborators
    (hook : Hook -> OutputBundle -> Result OutputBundle)
    (finalise : OutputBundle -> Result unit)
    (link : Chunk -> Result unit)
    (facades : Chunk -> Result (list Chunk)) : Collaborators :=
  {| runHook := hook;
     pluginDriver_finaliseAssets := finalise;
     addAdditionalModules := demoResolve;
     contextParse := demoParse;
     getChunkAssignments :=
       fun entries aliases => [(None, entries)];
     sortByExecutionOrder := fun modules => modules;
     commondir := fun _ => "/src";
     isAbsolute := fun _ => true;
     basename := fun path => path;
     createAddons := inr {| banner := ""; footer := ""; intro := ""; outro := "" |};
     chunk_entryModules := fun c => filter info_isEntry (orderedModules c);
     chunk_facadeModule := demoFacadeModule;
     chunk_link := link;
     chunk_generateFacades := facades;
     chunk_generateExports := fun _ => inr tt;
     chunk_preRender := fun _ _ => inr tt;
     chunk_generateIdPreserveModules :=
       fun c _ _ => inr (match orderedModules c with
                         | m :: _ => module_id m
                         | [] => "empty.js"
                         end);
     chunk_generateId := fun c _ b => demoGenerateId c b;
     chunk_getChunkInfoWithFileNames :=
       fun _ _ => inr {| file_type := Some type_chunk; file_code := None;
                         file_map := None; file_source := None |};
     chunk_render :=
       fun _ _ _ => inr {| rendered_code := "export {};"; rendered_map := None |} |}.

Definition plainCollaborators : Collaborators :=
  demoCollaborators quietHook (fun _ => inr tt) (fun _ => inr tt) (fun _ => inr []).

(** The chunks of the small build in preserve-modules mode. *)
Definition chunkOfB : Chunk :=
  {| chunk_key := 0; orderedModules := [moduleB]; manualChunkAlias := None |}.

Definition chunkOfA : Chunk :=
  {| chunk_key := 1; orderedModules := [moduleA]; manualChunkAlias := None |}.

(** A facade chunk, as [Chunk.generateFacade] would build one. *)
Definition facadeOfA : Chunk :=
  {| chunk_key := 2; orderedModules := []; manualChunkAlias := None |}.

(** The chunk of the entry module asks for one facade. *)
Definition demoFacades (c : Chunk) : Result (list Chunk) :=
  if Nat.eqb (chunk_key c) 1 then inr [facadeOfA] else inr [].

Definition facadeCollaborators : Collaborators :=
  demoCollaborators quietHook (fun _ => inr tt) (fun _ => inr tt) demoFacades.

(** A plugin whose [renderError] hook throws. *)
Definition failingRenderErrorHook (h : Hook) (b : OutputBundle)
  : Result OutputBundle :=
  match h with
  | renderError _ => inl (errThrown "renderError hook failed")
  | _ => inr b
  end.

(** A plugin whose [renderStart] hook throws. *)
Definition failingRenderStartHook (h : Hook) (b : OutputBundle)
  : Result OutputBundle :=
  match h with
  | renderStart => inl (errThrown "renderStart hook failed")
  | _ => inr b
  end.

(** A plugin whose [generateBundle] hook throws. *)
Definition failingGenerateBundleHook (h : Hook) (b : OutputBundle)
  : Result OutputBundle :=
  match h with
  | generateBundle _ => inl (errThrown "generateBundle hook failed")
  | _ => inr b
  end.

(** A plugin whose [generateBundle] hook writes two entries straight to the
    bundle: one without a type, one chunk whose code does not parse. *)
Definition writingGenerateBundleHook (h : Hook) (b : OutputBundle)
  : Result OutputBundle :=
  match h with
  | generateBundle _ =>
      inr (JsMap.set "broken.js"
             {| file_type := Some type_chunk; file_code := Some "}";
                file_map := None; file_source := None |}
             (JsMap.set "legacy.txt"
                {| file_type := None; file_code := None;
                   file_map := None; file_source := Some "text" |} b))
  | _ => inr b
  end.

(** Preserve-modules builds of the small graph (two chunks). *)
Definition preserveEsOptions : NormalizedOutputOptions :=
  demoOptions (ManualChunksObject []) true es true.

Definition preserveIifeOptions : NormalizedOutputOptions :=
  demoOptions (ManualChunksObject []) true iife false.

(** The default partition of the small graph (one chunk). *)
Definition singleChunkOptions : NormalizedOutputOptions :=
  demoOptions (ManualChunksObject []) false es true.

Definition formatError : RollupError :=
  errInvalidOption "output.format" "outputformat"
    "UMD and IIFE output formats are not supported for code-splitting builds"
    (Some "iife").

(** Linking fails, and the [renderError] hook of a plugin fails as well. *)
Definition brokenLinkCollaborators : Collaborators :=
  demoCollaborators failingRenderErrorHook (fun _ => inr tt)
    (fun _ => inl (errThrown "link failed")) (fun _ => inr []).

(** Linking fails, the plugins are quiet. *)
Definition brokenLinkQuietCollaborators : Collaborators :=
  demoCollaborators quietHook (fun _ => inr tt)
    (fun _ => inl (errThrown "link failed")) (fun _ => inr []).

(** The plugin driver finds an emitted asset whose source was never set. *)
Definition unfinishedAssetCollaborators : Collaborators :=
  demoCollaborators quietHook (fun _ => inl (errThrown "asset source not set"))
    (fun _ => inr tt) (fun _ => inr []).

Definition failingRenderErrorCollaborators : Collaborators :=
  demoCollaborators failingRenderErrorHook (fun _ => inr tt)
    (fun _ => inr tt) (fun _ => inr []).

Definition failingStartCollaborators : Collaborators :=
  demoCollaborators failingRenderStartHook (fun _ => inr tt)
    (fun _ => inr tt) (fun _ => inr []).

Definition failingGenerateBundleCollaborators : Collaborators :=
  demoCollaborators failingGenerateBundleHook (fun _ => inr tt)
    (fun _ => inr tt) (fun _ => inr []).

Definition writingCollaborators : Collaborators :=
  demoCollaborators writingGenerateBundleHook (fun _ => inr tt)
    (fun _ => inr tt) (fun _ => inr []).

(** ** Vocabulary of the further properties *)

(** The warning [validateOptionsForMultiChunkOutput] gives for [output.amd.id]. *)
Definition amdIdWarning : RollupError :=
  errInvalidOption "output.amd.id" "outputamd"
    ("this option is only properly supported for single-file builds. Use "
       +++ quoted "output.amd.autoId" +++ " and "
       +++ quoted "output.amd.basePath" +++ " instead")
    None.

(** The options under which [validateOptionsForMultiChunkOutput] returns. *)
Definition multiChunkCompatible (outputOptions : NormalizedOutputOptions) : Prop :=
  format outputOptions <> umd /\ format outputOptions <> iife /\
  file outputOptions = None /\ truthy (sourcemapFile outputOptions) = false.

(** The test of [getIncludedModules]. *)
Definition includedTest (module : RollupModule) : bool :=
  isIncluded module || info_isEntry module
  || (0 <? length (includedDynamicImporters module)).

(** [a] does not come after [b] in the order of the aliases. *)
Definition aliasLe (a b : string * RollupModule) : Prop :=
  jsLt (fst b) (fst a) = false.

(** The comparison function given to [sort] in [assignManualChunks]. *)
Definition byAlias (a b : string * RollupModule) : Z :=
  compareAlias (fst a) (fst b).

(** A call that is not the run of a plugin hook. *)
Definition notHook (e : Event) : Prop := forall h, e <> EvHook h.



(** The entry has no (truthy) [type]. *)
Definition untyped (entry : string * OutputFile) : bool :=
  match file_type (snd entry) with
  | None => true
  | Some _ => false
  end.

(** The collaborators [co] with [parse] for [graph.contextParse]. *)
Definition withContextParse (co : Collaborators)
    (parse : string -> Result unit) : Collaborators :=
  {| runHook := runHook co;
     pluginDriver_finaliseAssets := pluginDriver_finaliseAssets co;
     addAdditionalModules := addAdditionalModules co;
     contextParse := parse;
     getChunkAssignments := getChunkAssignments co;
     sortByExecutionOrder := sortByExecutionOrder co;
     commondir := commondir co;
     isAbsolute := isAbsolute co;
     basename := basename co;
     createAddons := createAddons co;
     chunk_entryModules := chunk_entryModules co;
     chunk_facadeModule := chunk_facadeModule co;
     chunk_link := chunk_link co;
     chunk_generateFacades := chunk_generateFacades co;
     chunk_generateExports := chunk_generateExports co;
     chunk_preRender := chunk_preRender co;
     chunk_generateIdPreserveModules := chunk_generateIdPreserveModules co;
     chunk_generateId := chunk_generateId co;
     chunk_getChunkInfoWithFileNames := chunk_getChunkInfoWithFileNames co;
     chunk_render := chunk_render co |}.

(** Aliases outside the ASCII range: U+FF5E, three bytes in UTF-8 and one
    code unit, and U+1F600, four bytes in UTF-8 and a surrogate pair. *)
Definition fullwidthTilde : string :=
  String.string_of_list_ascii (map Ascii.ascii_of_nat [239; 189; 158]).

Definition grinningFace : string :=
  String.string_of_list_ascii (map Ascii.ascii_of_nat [240; 159; 152; 128]).

(** * Properties *)

(** ** Insertion-ordered maps *)

Module JsMapFacts.

Lemma get_set {V : Type} (k k' : string) (v : V) (m : JsMap.t V) :
  JsMap.get k' (JsMap.set k v m) =
  if String.eqb k' k then Some v else JsMap.get k' m.
Proof.
  induction m as [|[k0 v0] m IH]; simpl.
  - reflexivity.
  - destruct (String.eqb_spec k k0) as [->|Hk]; simpl.
    + destruct (String.eqb k' k0); reflexivity.
    + rewrite IH.
      destruct (String.eqb_spec k' k0) as [->|Hk'].
      * destruct (String.eqb_spec k0 k); [congruence | reflexivity].
      * reflexivity.
Qed.

Lemma get_set_same {V : Type} (k : string) (v : V) (m : JsMap.t V) :
  JsMap.get k (JsMap.set k v m) = Some v.
Proof. rewrite get_set, String.eqb_refl. reflexivity. Qed.


(** Writing the value a key already has changes nothing. *)
Lemma set_same_value {V : Type} (k : string) (v : V) (m : JsMap.t V) :
  JsMap.get k m = Some v -> JsMap.set k v m = m.
Proof.
  induction m as [|[k0 v0] m IH]; simpl; intros H.
  - discriminate.
  - destruct (String.eqb_spec k k0) as [->|Hk].
    + congruence.
    + rewrite (IH H). reflexivity.
Qed.

End JsMapFacts.

(** ** Manual chunks *)

Section ManualChunks.

Lemma assigned_app (done pairs : list (string * RollupModule)) moduleId alias :
  assigned (done ++ pairs) moduleId alias <->
  assigned done moduleId alias \/ assigned pairs moduleId alias.
Proof.
  unfold assigned. split.
  - intros (m & Hin & Hid). apply in_app_or in Hin.
    destruct Hin; [left | right]; exists m; auto.
  - intros [(m & Hin & Hid) | (m & Hin & Hid)]; exists m; split; auto;
      apply in_or_app; auto.
Qed.

Lemma assigned_perm (pairs pairs' : list (string * RollupModule)) moduleId alias :
  Permutation pairs pairs' ->
  assigned pairs moduleId alias -> assigned pairs' moduleId alias.
Proof.
  intros Hp (m & Hin & Hid). exists m. split; [|exact Hid].
  eapply Permutation_in; eauto.
Qed.

Lemma represents_empty : represents JsMap.empty [].
Proof.
  intros moduleId alias. split.
  - discriminate.
  - intros (m & [] & _).
Qed.

(** One call of [addModuleToManualChunk] on a map that holds the assignments
    made so far: either the assignment is recorded, or the module already has
    another alias and the error names the module and both aliases. *)
Lemma addModuleToManualChunk_step alias module m done :
  represents m done ->
  match addModuleToManualChunk alias module m with
  | inr m' => represents m' (done ++ [(alias, module)])
  | inl err =>
      exists existing,
        err = errCannotAssignModuleToChunk (module_id module) alias existing /\
        assigned done (module_id module) existing /\ alias <> existing
  end.
Proof.
  intros Hrep. unfold addModuleToManualChunk.
  assert (Hset :
            (forall existing,
                JsMap.get (module_id module) m = Some existing -> existing = alias) ->
            represents (JsMap.set (module_id module) alias m)
                       (done ++ [(alias, module)])).
  { intros Hsame moduleId a. rewrite JsMapFacts.get_set, assigned_app.
    destruct (String.eqb_spec moduleId (module_id module)) as [->|Hne].
    - split.
      + intros [= <-]. right. exists module. simpl. auto.
      + intros [Hd | (m0 & [[= <- <-] | []] & _)]; [|reflexivity].
        apply Hrep in Hd. f_equal. symmetry. apply Hsame. exact Hd.
    - split.
      + intros H. left. apply Hrep. exact H.
      + intros [Hd | (m0 & [[= <- <-] | []] & Hid)];
          [apply Hrep; exact Hd | congruence]. }
  destruct (JsMap.get (module_id module) m) as [existing|] eqn:E; simpl.
  - destruct (String.eqb_spec existing alias) as [->|Hne]; simpl.
    + apply Hset. congruence.
    + exists existing. repeat split; [apply Hrep; exact E | congruence].
  - apply Hset. discriminate.
Qed.

(** The loop: from a map that holds the assignments [done], either all of
    [pairs] is recorded as well (and then no two assignments disagree), or
    the error names a module of the input and two distinct aliases of it. *)
Lemma addPairs_spec pairs : forall done m,
  represents m done ->
  match addPairs pairs m with
  | inr m' => represents m' (done ++ pairs)
  | inl err =>
      exists moduleId alias existing,
        err = errCannotAssignModuleToChunk moduleId alias existing /\
        assigned (done ++ pairs) moduleId alias /\
        assigned (done ++ pairs) moduleId existing /\
        alias <> existing
  end.
Proof.
  unfold addPairs.
  induction pairs as [|[alias module] pairs IH]; intros done m Hrep; simpl.
  - rewrite app_nil_r. exact Hrep.
  - pose proof (addModuleToManualChunk_step alias module Hrep) as Hstep.
    destruct (addModuleToManualChunk alias module m) as [err|m'].
    + destruct Hstep as (existing & -> & Hex & Hne).
      exists (module_id module), alias, existing. repeat split; auto.
      * apply assigned_app. right. exists module. simpl. auto.
      * apply assigned_app. left. exact Hex.
    + specialize (IH _ _ Hstep).
      replace (done ++ (alias, module) :: pairs)
        with ((done ++ [(alias, module)]) ++ pairs)
        by (rewrite <- app_assoc; reflexivity).
      exact IH.
Qed.

Lemma represents_functional m pairs moduleId alias1 alias2 :
  represents m pairs ->
  assigned pairs moduleId alias1 -> assigned pairs moduleId alias2 ->
  alias1 = alias2.
Proof.
  intros Hrep H1 H2. apply Hrep in H1, H2. congruence.
Qed.

Lemma addPairs_conflict pairs :
  conflicting pairs ->
  exists moduleId alias existing,
    addPairs pairs JsMap.empty =
      inl (errCannotAssignModuleToChunk moduleId alias existing) /\
    assigned pairs moduleId alias /\ assigned pairs moduleId existing /\
    alias <> existing.
Proof.
  intros (moduleId & a1 & a2 & H1 & H2 & Hne).
  pose proof (addPairs_spec pairs represents_empty) as Hspec. simpl in Hspec.
  destruct (addPairs pairs JsMap.empty) as [err|m'].
  - destruct Hspec as (mid & alias & existing & -> & Ha & He & Hd).
    exists mid, alias, existing. auto.
  - exfalso. apply Hne. eapply represents_functional; eauto.
Qed.

Lemma conflicting_perm pairs pairs' :
  Permutation pairs pairs' -> conflicting pairs -> conflicting pairs'.
Proof.
  intros Hp (moduleId & a1 & a2 & H1 & H2 & Hne).
  exists moduleId, a1, a2. repeat split; eauto using assigned_perm.
Qed.

(** The nested loops of [addManualChunks] are one loop over the pairs. *)
Lemma addEntries_flatten chunkEntries : forall m,
  foldResult
    (fun '(alias, entries) => foldResult (addModuleToManualChunk alias) entries)
    chunkEntries m
  = addPairs (flattenEntries chunkEntries) m.
Proof.
  unfold addPairs.
  induction chunkEntries as [|[alias entries] rest IH]; intros m; simpl.
  - reflexivity.
  - revert m. induction entries as [|entry entries IHe]; intros m; simpl.
    + apply IH.
    + destruct (addModuleToManualChunk alias entry m); [reflexivity | apply IHe].
Qed.

Lemma sortInsert_perm {A : Type} (compare : A -> A -> Z) x l :
  Permutation (sortInsert compare x l) (x :: l).
Proof.
  induction l as [|y l IH]; simpl.
  - reflexivity.
  - destruct (0 <? compare x y)%Z.
    + rewrite IH. apply perm_swap.
    + reflexivity.
Qed.

Lemma arraySort_perm {A : Type} (compare : A -> A -> Z) (l : list A) :
  Permutation (arraySort compare l) l.
Proof.
  unfold arraySort. induction l as [|x l IH]; simpl.
  - reflexivity.
  - rewrite sortInsert_perm. constructor. exact IH.
Qed.

Lemma addPairs_consistent pairs :
  ~ conflicting pairs -> exists m, addPairs pairs JsMap.empty = inr m.
Proof.
  intros Hnot.
  pose proof (addPairs_spec pairs represents_empty) as Hspec. simpl in Hspec.
  destruct (addPairs pairs JsMap.empty) as [err|m]; [|eauto].
  exfalso. apply Hnot.
  destruct Hspec as (mid & alias & existing & _ & Ha & He & Hd).
  exists mid, alias, existing. auto.
Qed.

(** The classifier is asked once for every module of the graph, and what is
    recorded for a module is its answer for the id of that module. *)
Lemma classifier_answers graph getManualChunk moduleId alias :
  assigned (collectManualChunkAliases graph getManualChunk) moduleId alias ->
  getManualChunk moduleId = Some alias.
Proof.
  unfold assigned, collectManualChunkAliases.
  intros (module & Hin & Hid). apply in_flat_map in Hin.
  destruct Hin as ([key [m0|ext]] & _ & Hm); [|destruct Hm].
  destruct (getManualChunk (module_id m0)) as [a|] eqn:E; [|destruct Hm].
  destruct Hm as [[= <- <-] | []]. subst moduleId. exact E.
Qed.

Lemma classifier_pairs_consistent graph getManualChunk :
  ~ conflicting (collectManualChunkAliases graph getManualChunk).
Proof.
  intros (moduleId & a1 & a2 & H1 & H2 & Hne). apply Hne.
  apply classifier_answers in H1, H2. congruence.
Qed.

Lemma assignManualChunks_completes graph getManualChunk :
  exists m, assignManualChunks graph getManualChunk = inr m.
Proof.
  unfold assignManualChunks. apply addPairs_consistent. intros Hconf.
  apply (@classifier_pairs_consistent graph getManualChunk).
  eapply conflicting_perm; [apply arraySort_perm | exact Hconf].
Qed.

End ManualChunks.

(** ** The [try]/[catch] of [generate] *)

Section GenerateOutcome.

Variable outputOptions : NormalizedOutputOptions.
Variable graph : Graph.
Variable co : Collaborators.

(** When the [try] block throws [e]: the [renderError] hook is called with
    [e], and what [generate] throws is [e] unless the hook throws itself. *)
Lemma generate_steps_failed isWrite s e s1 :
  generateSteps outputOptions graph co s = (inl e, s1) ->
  generate outputOptions graph co isWrite s =
    (inl (match runHook co (renderError e) (bundle s1) with
          | inl e' => e'
          | inr _ => e
          end),
     {| bundle := match runHook co (renderError e) (bundle s1) with
                  | inl _ => bundle s1
                  | inr b' => b'
                  end;
        chunkIds := chunkIds s1;
        trace := trace s1 ++ [EvHook (renderError e)] |}).
Proof.
  intros H. unfold generate, bind, tryCatch. rewrite H.
  unfold hookParallel, bind, emit, getBundle, lift, putBundle, throw. simpl.
  destruct (runHook co (renderError e) (bundle s1)); reflexivity.
Qed.

(** When the [try] block completes, [generate] goes on with the
    [generateBundle] hook and the final validation. *)
Lemma generate_steps_ok isWrite s s1 :
  generateSteps outputOptions graph co s = (inr tt, s1) ->
  generate outputOptions graph co isWrite s =
    (hookSeq co (generateBundle isWrite) ;;
     finaliseAssets outputOptions co ;;
     getBundle) s1.
Proof.
  intros H. unfold generate, tryCatch.
  unfold bind at 1. rewrite H. reflexivity.
Qed.

Lemma generateChunks_manual_error s e :
  match manualChunks outputOptions with
  | ManualChunksObject table => addManualChunks co table
  | ManualChunksFunction getManualChunk => assignManualChunks graph getManualChunk
  end = inl e ->
  generateChunks outputOptions graph co s = (inl e, s).
Proof.
  intros H. unfold generateChunks, bind, lift. rewrite H. reflexivity.
Qed.

Lemma generateSteps_chunks_error s e :
  (forall s1, generateChunks outputOptions graph co s1 = (inl e, s1)) ->
  exists err s', generateSteps outputOptions graph co s = (inl err, s').
Proof.
  intros H. unfold generateSteps.
  unfold bind at 1.
  destruct (hookParallel co renderStart s) as [[err|[]] s1].
  - eauto.
  - unfold bind. rewrite H. eauto.
Qed.

End GenerateOutcome.

(** ** Traces and phases *)

Section Phases.

Lemma inPhases_weaken evs : forall lo hi lo' hi',
  lo' <= lo -> hi <= hi' -> inPhases lo hi evs -> inPhases lo' hi' evs.
Proof.
  induction evs as [|e evs IH]; simpl; intros lo hi lo' hi' Hlo Hhi H.
  - exact I.
  - destruct H as [Hb Hrest]. split; [lia|].
    apply (IH (phase e) hi); auto.
Qed.

Lemma inPhases_app l1 : forall lo mid hi l2,
  lo <= mid <= hi ->
  inPhases lo mid l1 -> inPhases mid hi l2 -> inPhases lo hi (l1 ++ l2).
Proof.
  induction l1 as [|e l1 IH]; simpl; intros lo mid hi l2 Hb H1 H2.
  - apply (inPhases_weaken l2 (lo := mid) (hi := hi)); auto; lia.
  - destruct H1 as [He H1]. split; [lia|].
    apply (IH (phase e) mid); auto. lia.
Qed.

(** In a phase-ordered trace, what follows a call is of the same or of a
    later phase. *)
Lemma inPhases_later l1 : forall lo hi e l2,
  inPhases lo hi (l1 ++ e :: l2) -> Forall (fun e' => phase e <= phase e') l2.
Proof.
  assert (Hall : forall evs lo hi, inPhases lo hi evs ->
                   Forall (fun e' => lo <= phase e') evs).
  { induction evs as [|e evs IH]; simpl; intros lo hi H; constructor.
    - lia.
    - destruct H as [Hb H]. apply IH in H.
      eapply Forall_impl; [|exact H]. simpl. intros; lia. }
  induction l1 as [|e1 l1 IH]; simpl; intros lo hi e l2 H.
  - destruct H as [_ H]. eapply Hall; eauto.
  - destruct H as [_ H]. eapply IH; eauto.
Qed.

Lemma inPhases_bounds evs : forall lo hi,
  inPhases lo hi evs -> Forall (fun e => lo <= phase e <= hi) evs.
Proof.
  induction evs as [|e evs IH]; simpl; intros lo hi H; constructor.
  - tauto.
  - destruct H as [Hb H]. apply IH in H.
    eapply Forall_impl; [|exact H]. simpl. intros; lia.
Qed.

Lemma silent_ret {A : Type} (a : A) : silent (ret a).
Proof. intros s. reflexivity. Qed.

Lemma silent_throw {A : Type} (e : RollupError) : silent (throw (A := A) e).
Proof. intros s. reflexivity. Qed.

Lemma silent_lift {A : Type} (r : Result A) : silent (lift r).
Proof. intros s. reflexivity. Qed.

Lemma silent_getBundle : silent getBundle.
Proof. intros s. reflexivity. Qed.

Lemma silent_putBundle b : silent (putBundle b).
Proof. intros s. reflexivity. Qed.

Lemma silent_getChunkId c : silent (getChunkId c).
Proof. intros s. reflexivity. Qed.

Lemma silent_setChunkId c id : silent (setChunkId c id).
Proof. intros s. reflexivity. Qed.

Lemma silent_bind {A B : Type} (c : M A) (k : A -> M B) :
  silent c -> (forall x, silent (k x)) -> silent (bind c k).
Proof.
  intros Hc Hk s. unfold bind. specialize (Hc s).
  destruct (c s) as [[e|a] s1]; simpl in *.
  - exact Hc.
  - rewrite Hk. exact Hc.
Qed.

Lemma silent_setBundle key value : silent (setBundle key value).
Proof.
  unfold setBundle. apply silent_bind;
    [apply silent_getBundle | intros; apply silent_putBundle].
Qed.

Lemma silent_forEach {A : Type} (l : list A) (body : A -> M unit) :
  (forall x, silent (body x)) -> silent (forEach l body).
Proof.
  intros Hb. induction l as [|x l IH]; simpl.
  - apply silent_ret.
  - apply silent_bind; auto.
Qed.

Lemma emitsIn_silent {A : Type} lo hi (c : M A) : silent c -> emitsIn lo hi c.
Proof.
  intros Hc s. exists []. rewrite Hc, app_nil_r. simpl. auto.
Qed.

Lemma emitsIn_emit lo hi e : lo <= phase e <= hi -> emitsIn lo hi (emit e).
Proof.
  intros Hb s. exists [e]. simpl. repeat split; auto; lia.
Qed.

Lemma emitsIn_weaken {A : Type} lo hi lo' hi' (c : M A) :
  lo' <= lo -> hi <= hi' -> emitsIn lo hi c -> emitsIn lo' hi' c.
Proof.
  intros Hlo Hhi Hc s. destruct (Hc s) as (evs & Ht & Hp).
  exists evs. split; [exact Ht|]. eapply inPhases_weaken; eauto.
Qed.

Lemma emitsIn_bind {A B : Type} lo mid hi (c : M A) (k : A -> M B) :
  lo <= mid <= hi ->
  emitsIn lo mid c -> (forall x, emitsIn mid hi (k x)) ->
  emitsIn lo hi (bind c k).
Proof.
  intros Hb Hc Hk s. unfold bind.
  destruct (Hc s) as (e1 & Ht1 & Hp1).
  destruct (c s) as [[e|a] s1]; simpl in *.
  - exists e1. split; [exact Ht1|].
    apply (inPhases_weaken e1 (lo := lo) (hi := mid)); auto; lia.
  - destruct (Hk a s1) as (e2 & Ht2 & Hp2).
    exists (e1 ++ e2). rewrite Ht2, Ht1, app_assoc. split; [reflexivity|].
    eapply inPhases_app; eauto.
Qed.

Lemma emitsIn_bind_silent {A B : Type} lo hi (c : M A) (k : A -> M B) :
  silent c -> (forall x, emitsIn lo hi (k x)) -> emitsIn lo hi (bind c k).
Proof.
  intros Hc Hk s. unfold bind. specialize (Hc s).
  destruct (c s) as [[e|a] s1]; simpl in *.
  - exists []. rewrite app_nil_r. simpl. auto.
  - destruct (Hk a s1) as (e2 & Ht2 & Hp2).
    exists e2. rewrite Ht2, Hc. auto.
Qed.

Lemma emitsIn_tryCatch {A : Type} lo mid hi (body : M A)
    (handler : RollupError -> M A) :
  lo <= mid <= hi ->
  emitsIn lo mid body -> (forall e, emitsIn mid hi (handler e)) ->
  emitsIn lo hi (tryCatch body handler).
Proof.
  intros Hb Hc Hk s. unfold tryCatch.
  destruct (Hc s) as (e1 & Ht1 & Hp1).
  destruct (body s) as [[e|a] s1]; simpl in *.
  - destruct (Hk e s1) as (e2 & Ht2 & Hp2).
    exists (e1 ++ e2). rewrite Ht2, Ht1, app_assoc. split; [reflexivity|].
    eapply inPhases_app; eauto.
  - exists e1. split; [exact Ht1|].
    apply (inPhases_weaken e1 (lo := lo) (hi := mid)); auto; lia.
Qed.

Lemma emitsIn_forEach {A : Type} p (l : list A) (body : A -> M unit) :
  (forall x, emitsIn p p (body x)) -> emitsIn p p (forEach l body).
Proof.
  intros Hb. induction l as [|x l IH]; simpl.
  - apply emitsIn_silent, silent_ret.
  - apply emitsIn_bind with (mid := p); auto.
Qed.

End Phases.

Ltac quiet :=
  repeat first
    [ apply silent_ret | apply silent_throw | apply silent_lift
    | apply silent_getBundle | apply silent_putBundle | apply silent_setBundle
    | apply silent_getChunkId | apply silent_setChunkId
    | apply silent_bind; [|intros] ].

(** One step through a sequence of calls: an emitted event fixes the phase, a
    silent call is skipped. *)
Ltac phases_step :=
  lazymatch goal with
  | |- emitsIn _ _ (bind (emit ?e) _) =>
      let p := eval simpl in (phase e) in
      apply emitsIn_bind with (mid := p);
      [simpl; lia | apply emitsIn_emit; simpl; lia | intros]
  | |- emitsIn _ _ (emit ?e) => apply emitsIn_emit; simpl; lia
  | |- emitsIn _ _ (bind _ _) =>
      apply emitsIn_bind_silent; [solve [quiet] | intros]
  | |- emitsIn _ _ _ => apply emitsIn_silent; solve [quiet]
  end.

Ltac phases := repeat phases_step.

Section PipelinePhases.

Variable outputOptions : NormalizedOutputOptions.
Variable graph : Graph.
Variable co : Collaborators.

Lemma hookParallel_phase h :
  emitsIn (phase (EvHook h)) (phase (EvHook h)) (hookParallel co h).
Proof.
  unfold hookParallel.
  apply emitsIn_bind with (mid := phase (EvHook h)); [lia | |intros].
  - apply emitsIn_emit. lia.
  - apply emitsIn_silent. quiet.
Qed.

Lemma constructChunks_phase groups : forall chunks,
  emitsIn 2 2 (constructChunks co groups chunks).
Proof.
  induction groups as [|[alias modules] groups IH]; intros chunks; simpl.
  - phases.
  - phases_step. apply IH.
Qed.

Lemma collectFacades_phase chunks : forall facades,
  emitsIn 2 2 (collectFacades co chunks facades).
Proof.
  induction chunks as [|c chunks IH]; intros facades; simpl.
  - phases.
  - phases_step. phases_step. apply IH.
Qed.

Lemma generateChunks_phase : emitsIn 2 2 (generateChunks outputOptions graph co).
Proof.
  unfold generateChunks. phases_step.
  apply emitsIn_bind with (mid := 2); [lia | apply constructChunks_phase | intros chunks].
  apply emitsIn_bind with (mid := 2); [lia | | intros _].
  - apply emitsIn_forEach. intros c. phases.
  - apply emitsIn_bind with (mid := 2); [lia | apply collectFacades_phase | intros].
    phases.
Qed.

Lemma validateOptions_phase :
  emitsIn 2 2 (validateOptionsForMultiChunkOutput outputOptions).
Proof.
  unfold validateOptionsForMultiChunkOutput, error, onwarn.
  destruct (format outputOptions);
    try (apply emitsIn_silent; solve [quiet]);
    (destruct (file outputOptions); [apply emitsIn_silent; solve [quiet]|]);
    (destruct (truthy (sourcemapFile outputOptions));
     [apply emitsIn_silent; solve [quiet]|]);
    destruct (negb (autoId (amd_options outputOptions))
              && truthy (amd_id (amd_options outputOptions)));
    phases.
Qed.

Lemma prerenderChunks_phase chunks inputBase :
  emitsIn 4 5 (prerenderChunks co chunks inputBase).
Proof.
  unfold prerenderChunks.
  apply emitsIn_bind with (mid := 4); [lia | | intros _].
  - apply emitsIn_forEach. intros c. phases.
  - apply emitsIn_weaken with (lo := 5) (hi := 5); [lia | lia |].
    apply emitsIn_forEach. intros c. phases.
Qed.

Lemma assignChunkIds_phase chunks inputBase addons :
  emitsIn 6 6 (assignChunkIds outputOptions co chunks inputBase addons).
Proof.
  unfold assignChunkIds. apply emitsIn_forEach. intros c.
  unfold assignChunkId. phases.
Qed.

Lemma startRenders_phase addons chunks :
  emitsIn 7 7 (startRenders co addons chunks).
Proof.
  induction chunks as [|c chunks IH]; simpl.
  - phases.
  - apply emitsIn_bind with (mid := 7); [lia | | intros task].
    + unfold startRender. phases.
    + apply emitsIn_bind with (mid := 7); [lia | exact IH | intros]. phases.
Qed.

Lemma settleRender_silent task : silent (settleRender task).
Proof.
  destruct task as [[id [outputChunk|]] [e|rendered]]; simpl; quiet.
Qed.

Lemma addFinalizedChunksToBundle_phase chunks inputBase addons :
  emitsIn 6 7 (addFinalizedChunksToBundle outputOptions co chunks inputBase addons).
Proof.
  unfold addFinalizedChunksToBundle.
  apply emitsIn_bind with (mid := 6); [lia | apply assignChunkIds_phase | intros _].
  apply emitsIn_weaken with (lo := 7) (hi := 7); [lia | lia |].
  apply emitsIn_bind with (mid := 7); [lia | | intros _].
  - apply emitsIn_forEach. intros c. phases.
  - apply emitsIn_bind with (mid := 7); [lia | apply startRenders_phase | intros tasks].
    apply emitsIn_silent, silent_forEach, settleRender_silent.
Qed.

Lemma generateAfterChunks_phase chunks :
  emitsIn 2 7 (generateAfterChunks outputOptions co chunks).
Proof.
  unfold generateAfterChunks.
  apply emitsIn_bind with (mid := 2); [lia | | intros _].
  - destruct (1 <? length chunks); [apply validateOptions_phase | phases].
  - phases_step. phases_step.
    apply emitsIn_bind with (mid := 5); [lia | | intros _].
    + apply emitsIn_weaken with (lo := 4) (hi := 5); [lia | lia |].
      apply prerenderChunks_phase.
    + apply emitsIn_weaken with (lo := 6) (hi := 7); [lia | lia |].
      apply addFinalizedChunksToBundle_phase.
Qed.

Lemma generateSteps_phase : emitsIn 1 7 (generateSteps outputOptions graph co).
Proof.
  unfold generateSteps.
  apply emitsIn_bind with (mid := 1); [lia | apply (hookParallel_phase renderStart) | intros _].
  apply emitsIn_bind with (mid := 2); [lia | | intros chunks].
  - apply emitsIn_weaken with (lo := 2) (hi := 2); [lia | lia |].
    apply generateChunks_phase.
  - apply generateAfterChunks_phase.
Qed.

Lemma finaliseEntries_phase entries :
  emitsIn 9 9 (finaliseEntries outputOptions co entries).
Proof.
  induction entries as [|[key f] entries IH]; simpl.
  - phases.
  - apply emitsIn_bind with (mid := 9); [lia | | intros f'].
    + unfold finaliseAsset, warnDeprecation, onwarn.
      apply emitsIn_bind with (mid := 9); [lia | | intros f1].
      * destruct (file_type f); phases.
      * apply emitsIn_bind with (mid := 9); [lia | | intros; phases].
        destruct (validate outputOptions); [|phases].
        destruct (file_code f1) as [code|]; [|phases].
        destruct (contextParse co code); phases.
    + apply emitsIn_bind with (mid := 9); [lia | exact IH | intros; phases].
Qed.

Lemma finaliseAssets_phase : emitsIn 9 9 (finaliseAssets outputOptions co).
Proof.
  unfold finaliseAssets. phases_step.
  apply emitsIn_bind with (mid := 9); [lia | apply finaliseEntries_phase | intros b'].
  phases.
Qed.

(** The calls of one [generate] are made in the order of the steps of the
    pipeline. *)
Lemma generate_phase isWrite :
  emitsIn 1 9 (generate outputOptions graph co isWrite).
Proof.
  unfold generate.
  apply emitsIn_bind with (mid := 8); [lia | | intros _].
  - apply emitsIn_tryCatch with (mid := 7); [lia | apply generateSteps_phase |].
    intros e. apply emitsIn_bind with (mid := 8); [lia | | intros; phases].
    apply emitsIn_weaken with (lo := 8) (hi := 8); [lia | lia |].
    apply (hookParallel_phase (renderError e)).
  - apply emitsIn_bind with (mid := 8); [lia | | intros _].
    + apply (hookParallel_phase (generateBundle isWrite)).
    + apply emitsIn_bind with (mid := 9); [lia | | intros; phases].
      apply emitsIn_weaken with (lo := 9) (hi := 9); [lia | lia |].
      apply finaliseAssets_phase.
Qed.

End PipelinePhases.

(** ** The loops of the pipeline, call by call *)

Section Loops.

Lemma withTrace_nil s : withTrace s [] = s.
Proof. destruct s. unfold withTrace. simpl. rewrite app_nil_r. reflexivity. Qed.

Lemma withTrace_app s l1 l2 :
  withTrace (withTrace s l1) l2 = withTrace s (l1 ++ l2).
Proof. unfold withTrace. simpl. rewrite app_assoc. reflexivity. Qed.

(** A loop that calls a collaborator for every element stops at the first
    call that throws: it has made the calls for the first [n] elements, and
    all of them if it completes. *)
Lemma forEach_calls {A : Type} (ev : A -> Event) (call : A -> Result unit)
    (l : list A) : forall s,
  exists n,
    n <= length l /\
    snd (forEach l (fun x => emit (ev x) ;; lift (call x)) s)
      = withTrace s (map ev (firstn n l)) /\
    (fst (forEach l (fun x => emit (ev x) ;; lift (call x)) s) = inr tt ->
     n = length l).
Proof.
  induction l as [|x l IH]; intros s; simpl.
  - exists 0. rewrite withTrace_nil. auto.
  - unfold bind at 1. unfold bind at 1. unfold emit at 1. unfold lift at 1.
    destruct (call x) as [e|[]].
    + exists 1. simpl. repeat split; [lia | discriminate].
    + destruct (IH (withTrace s [ev x])) as (n & Hn & Hs & Hok).
      exists (S n). simpl. fold (withTrace s [ev x]).
      rewrite Hs, withTrace_app. repeat split; [lia | auto].
Qed.

Variable co : Collaborators.

Lemma constructChunks_spec groups : forall chunks s,
  constructChunks co groups chunks s =
    (inr (chunks ++ primaryChunks co (length chunks) groups),
     withTrace s (map EvNewChunk (primaryChunks co (length chunks) groups))).
Proof.
  unfold primaryChunks.
  induction groups as [|[alias modules] groups IH]; intros chunks s; simpl.
  - rewrite app_nil_r, withTrace_nil. reflexivity.
  - unfold bind at 1. unfold emit at 1. simpl.
    rewrite IH, length_app, <- app_assoc. simpl. rewrite Nat.add_1_r.
    unfold withTrace, newChunk. simpl. rewrite <- app_assoc. reflexivity.
Qed.

(** [collectFacades] appends what each chunk's [generateFacades] returns, in
    the order of the chunks. *)
Lemma collectFacades_spec chunks : forall facades s result s',
  collectFacades co chunks facades s = (inr result, s') ->
  exists facadeLists,
    Forall2 (fun c generated => chunk_generateFacades co c = inr generated)
            chunks facadeLists /\
    result = facades ++ concat facadeLists.
Proof.
  induction chunks as [|c chunks IH]; intros facades s result s'; simpl.
  - intros [= <- <-]. exists []. rewrite app_nil_r. auto.
  - unfold bind at 1. unfold emit at 1. unfold bind at 1. unfold lift at 1.
    destruct (chunk_generateFacades co c) as [e|generated] eqn:Hg;
      [discriminate|].
    intros H. apply IH in H. destruct H as (lists & Hall & ->).
    exists (generated :: lists). simpl. rewrite app_assoc. auto.
Qed.

End Loops.

(** ** Chunk generation *)

Section ChunkGeneration.

Variable outputOptions : NormalizedOutputOptions.
Variable graph : Graph.
Variable co : Collaborators.

Lemma generateChunks_spec s result s' :
  generateChunks outputOptions graph co s = (inr result, s') ->
  exists aliases facadeLists,
    resolvedAliases outputOptions graph co = inr aliases /\
    Forall2 (fun c generated => chunk_generateFacades co c = inr generated)
            (primaryChunks co 0 (chunkGroups outputOptions graph co aliases))
            facadeLists /\
    result = primaryChunks co 0 (chunkGroups outputOptions graph co aliases)
             ++ concat facadeLists.
Proof.
  unfold generateChunks. unfold bind at 1. unfold lift at 1.
  fold (resolvedAliases outputOptions graph co).
  destruct (resolvedAliases outputOptions graph co) as [e|aliases]; [discriminate|].
  unfold bind at 1. rewrite constructChunks_spec. simpl.
  unfold bind at 1.
  destruct (forEach _ _ _) as [[e|[]] s2]; [discriminate|].
  unfold bind at 1.
  destruct (collectFacades _ _ _ _) as [[e|facades] s3] eqn:Hf; [discriminate|].
  unfold ret. intros [= <- <-].
  apply collectFacades_spec in Hf. destruct Hf as (lists & Hall & ->).
  exists aliases, lists. auto.
Qed.

End ChunkGeneration.


(** C8.  When chunk generation completes, the list it returns is made of the
    primary chunks (one per group of the partition, in partition order)
    followed by the facade chunks: the lists returned by the
    [generateFacades] of the primary chunks, concatenated in the order of the
    primary chunks. *)
Theorem facades_follow_primary_chunks
    (outputOptions : NormalizedOutputOptions) (graph : Graph)
    (co : Collaborators) (s : State) (result : list Chunk) (s' : State) :
  generateChunks outputOptions graph co s = (inr result, s') ->
  exists aliases facadeLists,
    let primary := primaryChunks co 0 (chunkGroups outputOptions graph co aliases) in
    resolvedAliases outputOptions graph co = inr aliases /\
    Forall2 (fun c generated => chunk_generateFacades co c = inr generated)
            primary facadeLists /\
    result = primary ++ concat facadeLists.
Proof.
  intros H. destruct (generateChunks_spec _ _ _ _ H) as (aliases & lists & Hr).
  exists aliases, lists. exact Hr.
Qed.

(** The small build, one chunk per module, the entry chunk asking for a
    facade: the facade comes last. *)
Lemma facades_follow_primary_chunks_witness :
  let outputOptions := demoOptions (ManualChunksObject []) true es false in
  generateChunks outputOptions demoGraph facadeCollaborators initialState
    = (inr [chunkOfB; chunkOfA; facadeOfA],
       snd (generateChunks outputOptions demoGraph facadeCollaborators initialState))
  /\
  exists aliases facadeLists,
    let primary :=
      primaryChunks facadeCollaborators 0
        (chunkGroups outputOptions demoGraph facadeCollaborators aliases) in
    resolvedAliases outputOptions demoGraph facadeCollaborators = inr aliases /\
    Forall2 (fun c generated =>
               chunk_generateFacades facadeCollaborators c = inr generated)
            primary facadeLists /\
    [chunkOfB; chunkOfA; facadeOfA] = primary ++ concat facadeLists.
Proof.
  intros outputOptions.
  assert (H : generateChunks outputOptions demoGraph facadeCollaborators initialState
              = (inr [chunkOfB; chunkOfA; facadeOfA],
                 snd (generateChunks outputOptions demoGraph facadeCollaborators
                        initialState))) by reflexivity.
  split; [exact H|].
  exact (facades_follow_primary_chunks outputOptions demoGraph
           facadeCollaborators initialState H).
Defined.



(** ** Identity assignment *)

Section IdentityAssignment.

Variable outputOptions : NormalizedOutputOptions.
Variable co : Collaborators.
Variable inputBase : string.
Variable addons : Addons.

Lemma splitChunks_filter chunks :
  splitChunks co chunks =
  (filter (isEntryChunk co) chunks,
   filter (fun c => negb (isEntryChunk co c)) chunks).
Proof.
  unfold splitChunks.
  assert (H : forall entryChunks otherChunks,
             fold_left
               (fun '(entryChunks, otherChunks) chunk =>
                  if isEntryChunk co chunk
                  then (entryChunks ++ [chunk], otherChunks)
                  else (entryChunks, otherChunks ++ [chunk]))
               chunks (entryChunks, otherChunks)
             = (entryChunks ++ filter (isEntryChunk co) chunks,
                otherChunks ++ filter (fun c => negb (isEntryChunk co c)) chunks)).
  { induction chunks as [|c chunks IH]; intros entryChunks otherChunks; simpl.
    - rewrite !app_nil_r. reflexivity.
    - destruct (isEntryChunk co c); simpl; rewrite IH, <- app_assoc; reflexivity. }
  apply (H [] []).
Qed.

Lemma chunksForNaming_filter chunks :
  chunksForNaming co chunks =
  filter (isEntryChunk co) chunks ++
  filter (fun c => negb (isEntryChunk co c)) chunks.
Proof. unfold chunksForNaming. rewrite splitChunks_filter. reflexivity. Qed.

Lemma chunksForNaming_length chunks :
  length (chunksForNaming co chunks) = length chunks.
Proof.
  rewrite chunksForNaming_filter, length_app.
  induction chunks as [|c chunks IH]; simpl; [reflexivity|].
  destruct (isEntryChunk co c); simpl; lia.
Qed.

Lemma chunksForNaming_In chunks c :
  In c chunks -> In c (chunksForNaming co chunks).
Proof.
  intros H. rewrite chunksForNaming_filter. apply in_or_app.
  destruct (isEntryChunk co c) eqn:E; [left | right];
    apply filter_In; split; auto. rewrite E. reflexivity.
Qed.

(** In a list that starts with the entry chunks, nothing that follows a
    non-entry chunk is an entry chunk. *)
Lemma entry_chunks_first chunks before c after :
  chunksForNaming co chunks = before ++ c :: after ->
  isEntryChunk co c = false ->
  Forall (fun c' => isEntryChunk co c' = false) after.
Proof.
  rewrite chunksForNaming_filter.
  assert (Hother : Forall (fun c' => isEntryChunk co c' = false)
                     (filter (fun c => negb (isEntryChunk co c)) chunks)).
  { apply Forall_forall. intros x Hx. apply filter_In in Hx.
    destruct Hx as [_ Hx]. destruct (isEntryChunk co x); [discriminate | reflexivity]. }
  assert (Hentry : Forall (fun c' => isEntryChunk co c' = true)
                     (filter (isEntryChunk co) chunks)).
  { apply Forall_forall. intros x Hx. apply filter_In in Hx. tauto. }
  revert Hother Hentry.
  generalize (filter (fun c => negb (isEntryChunk co c)) chunks) as others.
  generalize (filter (isEntryChunk co) chunks) as entries.
  intros entries. revert before.
  induction entries as [|e entries IH]; intros before others Hother Hentry Heq Hc;
    simpl in Heq.
  - subst others. apply Forall_app in Hother. destruct Hother as [_ Hother].
    inversion Hother; assumption.
  - inversion Hentry as [|? ? He Hentry']; subst.
    destruct before as [|b before]; simpl in Heq; injection Heq as -> Heq.
    + congruence.
    + eapply IH; eauto.
Qed.

Lemma assignChunkId_run c s :
  assignChunkId outputOptions co inputBase addons c s =
  match computeChunkId outputOptions co c inputBase addons (bundle s) with
  | inl e => (inl e, s)
  | inr id => (inr tt, afterAssignment s c id)
  end.
Proof.
  unfold assignChunkId, bind, getBundle, lift.
  destruct (computeChunkId outputOptions co c inputBase addons (bundle s));
    reflexivity.
Qed.

Lemma forEach_app {A : Type} (l1 l2 : list A) (body : A -> M unit) s :
  forEach (l1 ++ l2) body s =
  match forEach l1 body s with
  | (inr _, s1) => forEach l2 body s1
  | (inl e, s1) => (inl e, s1)
  end.
Proof.
  revert s. induction l1 as [|x l1 IH]; intros s; simpl.
  - reflexivity.
  - unfold bind. destruct (body x s) as [[e|[]] s1]; [reflexivity | apply IH].
Qed.

(** The naming loop: the chunks are named in list order up to the first
    failure, every name given is reserved in the bundle when the loop ends,
    and reservations are never lost. *)
Lemma namingLoop_spec chunks : forall s,
  exists ids,
    length ids <= length chunks /\
    trace (snd (forEach chunks (assignChunkId outputOptions co inputBase addons) s))
      = trace s ++ map assignEvent (combine chunks ids) /\
    (fst (forEach chunks (assignChunkId outputOptions co inputBase addons) s)
       = inr tt -> length ids = length chunks) /\
    (forall id, In id ids ->
       JsMap.get id
         (bundle (snd (forEach chunks
                         (assignChunkId outputOptions co inputBase addons) s)))
       = Some FILE_PLACEHOLDER) /\
    (forall key, JsMap.get key (bundle s) = Some FILE_PLACEHOLDER ->
       JsMap.get key
         (bundle (snd (forEach chunks
                         (assignChunkId outputOptions co inputBase addons) s)))
       = Some FILE_PLACEHOLDER).
Proof.
  induction chunks as [|c chunks IH]; intros s; simpl.
  - exists []. simpl. rewrite app_nil_r. repeat split; auto. intros id [].
  - unfold bind. rewrite assignChunkId_run.
    destruct (computeChunkId outputOptions co c inputBase addons (bundle s))
      as [e|id].
    + exists []. simpl. rewrite app_nil_r.
      repeat split; auto; [lia | discriminate | intros id []].
    + destruct (IH (afterAssignment s c id)) as (ids & Hlen & Htr & Hok & Hres & Hkeep).
      exists (id :: ids). simpl. repeat split.
      * lia.
      * rewrite Htr. simpl. rewrite <- app_assoc. reflexivity.
      * intros H. rewrite (Hok H). reflexivity.
      * intros id' [<- | Hin]; [|apply Hres; exact Hin].
        apply Hkeep. simpl. apply JsMapFacts.get_set_same.
      * intros key Hkey. apply Hkeep. simpl. rewrite JsMapFacts.get_set.
        destruct (String.eqb key id); [reflexivity | exact Hkey].
Qed.

(** The naming loop, as a whole. *)
Lemma namingLoop_run chunks : forall s,
  forEach chunks (assignChunkId outputOptions co inputBase addons) s =
    (match snd (namedIds outputOptions co inputBase addons chunks (bundle s)) with
     | None => inr tt
     | Some e => inl e
     end,
     afterAssignments s
       (combine chunks
          (fst (namedIds outputOptions co inputBase addons chunks (bundle s))))).
Proof.
  induction chunks as [|c chunks IH]; intros s; simpl.
  - reflexivity.
  - unfold bind. rewrite assignChunkId_run.
    destruct (computeChunkId outputOptions co c inputBase addons (bundle s))
      as [e|id]; [reflexivity|].
    rewrite IH. reflexivity.
Qed.

Lemma namedIds_length chunks : forall b,
  length (fst (namedIds outputOptions co inputBase addons chunks b))
    <= length chunks /\
  (snd (namedIds outputOptions co inputBase addons chunks b) = None ->
   length (fst (namedIds outputOptions co inputBase addons chunks b))
     = length chunks).
Proof.
  induction chunks as [|c chunks IH]; intros b; simpl.
  - auto.
  - destruct (computeChunkId outputOptions co c inputBase addons b) as [e|id];
      simpl.
    + split; [lia | discriminate].
    + destruct (IH (JsMap.set id FILE_PLACEHOLDER b)) as [Hle Heq].
      split; [lia|]. intros H. rewrite (Heq H). reflexivity.
Qed.

End IdentityAssignment.

Section Assignments.

Lemma afterAssignments_chunkIds named : forall s,
  chunkIds (afterAssignments s named) =
    rev (map (fun n : Chunk * string => (chunk_key (fst n), snd n)) named)
    ++ chunkIds s.
Proof.
  unfold afterAssignments.
  induction named as [|[c id] named IH]; intros s; simpl.
  - reflexivity.
  - rewrite IH. simpl. rewrite <- app_assoc. reflexivity.
Qed.

Lemma afterAssignments_trace named : forall s,
  trace (afterAssignments s named) = trace s ++ map assignEvent named.
Proof.
  unfold afterAssignments.
  induction named as [|[c id] named IH]; intros s; simpl.
  - rewrite app_nil_r. reflexivity.
  - rewrite IH. simpl. rewrite <- app_assoc. reflexivity.
Qed.

Lemma afterAssignments_keeps named : forall s key,
  JsMap.get key (bundle s) = Some FILE_PLACEHOLDER ->
  JsMap.get key (bundle (afterAssignments s named)) = Some FILE_PLACEHOLDER.
Proof.
  unfold afterAssignments.
  induction named as [|[c id] named IH]; intros s key H; simpl.
  - exact H.
  - apply IH. simpl. rewrite JsMapFacts.get_set.
    destruct (String.eqb key id); [reflexivity | exact H].
Qed.

Lemma afterAssignments_reserved named : forall s c id,
  In (c, id) named ->
  JsMap.get id (bundle (afterAssignments s named)) = Some FILE_PLACEHOLDER.
Proof.
  induction named as [|[c0 id0] named IH]; intros s c id Hin; [destruct Hin|].
  destruct Hin as [[= -> ->] | Hin].
  - unfold afterAssignments. simpl.
    apply (afterAssignments_keeps named (afterAssignment s c id)).
    simpl. apply JsMapFacts.get_set_same.
  - unfold afterAssignments. simpl.
    exact (IH (afterAssignment s c0 id0) c id Hin).
Qed.

End Assignments.

(** In the assignments made along [chunksForNaming], whatever the identities,
    no entry chunk is named after a non-entry chunk. *)
Lemma assign_events_entry_first (co : Collaborators) (chunks : list Chunk)
    (ids : list string) before c id after :
  map assignEvent (combine (chunksForNaming co chunks) ids)
    = before ++ EvAssignId c id :: after ->
  isEntryChunk co c = false ->
  forall c' id', In (EvAssignId c' id') after -> isEntryChunk co c' = false.
Proof.
  intros Heq Hc c' id' Hin.
  assert (Hsplit : forall (l : list Chunk) ids0 before0,
             map assignEvent (combine l ids0) = before0 ++ EvAssignId c id :: after ->
             exists lb la, l = lb ++ c :: la /\
                           (forall x y, In (EvAssignId x y) after -> In x la)).
  { induction l as [|x l IH]; intros ids0 before0 H.
    - destruct before0; discriminate.
    - destruct ids0 as [|i ids0]; [destruct before0; discriminate|].
      simpl in H. destruct before0 as [|b before0]; simpl in H.
      + injection H as Hx Hi Hrest. subst x i.
        exists [], l. split; [reflexivity|].
        intros x y Hxy. rewrite <- Hrest in Hxy.
        apply in_map_iff in Hxy. destruct Hxy as ([x' y'] & [= <- <-] & Hxy).
        apply in_combine_l in Hxy. exact Hxy.
      + injection H as _ H. destruct (IH _ _ H) as (lb & la & -> & Hla).
        exists (x :: lb), la. auto. }
  destruct (Hsplit _ _ _ Heq) as (lb & la & Hl & Hla).
  pose proof (@entry_chunks_first co chunks lb c la Hl Hc) as Hall.
  rewrite Forall_forall in Hall. apply Hall. eapply Hla; eauto.
Qed.

(** C7.  While [assignChunkIds] runs: once the chunks [pre] have been named,
    each of their identities is held by a placeholder in the bundle; the
    identity of the next chunk is computed from that very bundle, and as soon
    as it is assigned it is reserved by a placeholder in turn, before the
    loop goes on. *)
Theorem identity_reserved_before_next_assignment
    (outputOptions : NormalizedOutputOptions) (co : Collaborators)
    (chunks : list Chunk) (inputBase : string) (addons : Addons)
    (pre : list Chunk) (c : Chunk) (post : list Chunk) (s s1 : State) :
  chunksForNaming co chunks = pre ++ c :: post ->
  forEach pre (assignChunkId outputOptions co inputBase addons) s = (inr tt, s1) ->
  (exists ids,
      length ids = length pre /\
      trace s1 = trace s ++ map assignEvent (combine pre ids) /\
      forall id, In id ids -> JsMap.get id (bundle s1) = Some FILE_PLACEHOLDER) /\
  assignChunkIds outputOptions co chunks inputBase addons s =
    match computeChunkId outputOptions co c inputBase addons (bundle s1) with
    | inl e => (inl e, s1)
    | inr id =>
        forEach post (assignChunkId outputOptions co inputBase addons)
          (afterAssignment s1 c id)
    end /\
  (forall id,
      bundle (afterAssignment s1 c id) = JsMap.set id FILE_PLACEHOLDER (bundle s1) /\
      JsMap.get id (bundle (afterAssignment s1 c id)) = Some FILE_PLACEHOLDER /\
      forall key, JsMap.get key (bundle s1) = Some FILE_PLACEHOLDER ->
                  JsMap.get key (bundle (afterAssignment s1 c id))
                  = Some FILE_PLACEHOLDER).
Proof.
  intros Hsplit Hpre. repeat split.
  - destruct (namingLoop_spec outputOptions co inputBase addons pre s)
      as (ids & _ & Htr & Hok & Hres & _).
    rewrite Hpre in Htr, Hok, Hres. simpl in *.
    exists ids. repeat split; auto.
  - unfold assignChunkIds. rewrite Hsplit, forEach_app, Hpre. simpl.
    unfold bind. rewrite assignChunkId_run.
    destruct (computeChunkId outputOptions co c inputBase addons (bundle s1));
      reflexivity.
  - simpl. apply JsMapFacts.get_set_same.
  - intros key Hkey. simpl. rewrite JsMapFacts.get_set.
    destruct (String.eqb key id); [reflexivity | exact Hkey].
Qed.

(** ** The trace of a whole [generate] *)

Section GenerateTrace.

Variable outputOptions : NormalizedOutputOptions.
Variable graph : Graph.
Variable co : Collaborators.

Lemma emitsIn_run {A : Type} lo hi (c : M A) s :
  emitsIn lo hi c ->
  exists evs, trace (snd (c s)) = trace s ++ evs /\
              Forall (fun e => lo <= phase e <= hi) evs.
Proof.
  intros H. destruct (H s) as (evs & Ht & Hp).
  exists evs. split; [exact Ht | apply inPhases_bounds; exact Hp].
Qed.

Lemma bind_trace {A B : Type} (c : M A) (k : A -> M B) s :
  trace (snd (bind c k s)) =
  match c s with
  | (inr a, s1) => trace (snd (k a s1))
  | (inl e, s1) => trace s1
  end.
Proof. unfold bind. destruct (c s) as [[e|a] s1]; reflexivity. Qed.

(** After the [try] block, only the [renderError] hook, the [generateBundle]
    hook and the final validation are heard of. *)
Lemma generate_trace_tail isWrite s :
  exists tail,
    trace (snd (generate outputOptions graph co isWrite s)) =
      trace (snd (generateSteps outputOptions graph co s)) ++ tail /\
    Forall (fun e => 8 <= phase e) tail.
Proof.
  destruct (generateSteps outputOptions graph co s) as [[e|[]] s1] eqn:Hsteps.
  - erewrite generate_steps_failed by exact Hsteps. simpl.
    exists [EvHook (renderError e)]. split; [reflexivity|].
    constructor; [simpl; lia | constructor].
  - erewrite generate_steps_ok by exact Hsteps. simpl.
    assert (Hp : emitsIn 8 9 (hookSeq co (generateBundle isWrite) ;;
                              finaliseAssets outputOptions co ;; getBundle)).
    { apply emitsIn_bind with (mid := 8); [lia | | intros _].
      - apply (hookParallel_phase co (generateBundle isWrite)).
      - apply emitsIn_bind with (mid := 9); [lia | | intros; phases].
        apply emitsIn_weaken with (lo := 9) (hi := 9); [lia | lia |].
        apply finaliseAssets_phase. }
    destruct (emitsIn_run s1 Hp) as (evs & Ht & Hb).
    exists evs. split; [exact Ht|].
    eapply Forall_impl; [|exact Hb]. simpl. intros; lia.
Qed.

Lemma prerenderChunks_trace chunks inputBase s :
  exists n m,
    trace (snd (prerenderChunks co chunks inputBase s)) =
      trace s ++ map EvGenerateExports (firstn n chunks)
              ++ map EvPreRender (firstn m chunks) /\
    (m <> 0 -> n = length chunks).
Proof.
  unfold prerenderChunks. rewrite bind_trace.
  destruct (forEach_calls EvGenerateExports (chunk_generateExports co) chunks s)
    as (n & _ & Hs & Hok).
  destruct (forEach chunks _ s) as [[e|[]] s1]; simpl in Hs, Hok.
  - exists n, 0. subst s1. simpl. rewrite app_nil_r. split; [reflexivity | congruence].
  - destruct (forEach_calls EvPreRender (fun c => chunk_preRender co c inputBase)
                chunks s1) as (m & _ & Hs' & _).
    exists n, m. rewrite Hs'. subst s1. simpl. rewrite <- app_assoc.
    split; [reflexivity | auto].
Qed.

Lemma addFinalizedChunksToBundle_trace chunks inputBase addons s :
  exists ids rest,
    trace (snd (addFinalizedChunksToBundle outputOptions co chunks inputBase addons s))
      = trace s ++ map assignEvent (combine (chunksForNaming co chunks) ids) ++ rest /\
    Forall (fun e => phase e = 7) rest /\
    (rest <> [] -> length ids = length chunks).
Proof.
  unfold addFinalizedChunksToBundle. rewrite bind_trace.
  unfold assignChunkIds.
  destruct (namingLoop_spec outputOptions co inputBase addons
              (chunksForNaming co chunks) s) as (ids & _ & Htr & Hok & _).
  rewrite chunksForNaming_length in Hok.
  destruct (forEach (chunksForNaming co chunks) _ s) as [[e|[]] s1];
    simpl in Htr, Hok.
  - exists ids, []. rewrite app_nil_r. repeat split; auto. congruence.
  - match goal with
    | |- context [snd (?c s1)] =>
        assert (Hp : emitsIn 7 7 c)
    end.
    { apply emitsIn_bind with (mid := 7); [lia | | intros _].
      - apply emitsIn_forEach. intros c. phases.
      - apply emitsIn_bind with (mid := 7);
          [lia | apply startRenders_phase | intros tasks].
        apply emitsIn_silent, silent_forEach, settleRender_silent. }
    destruct (emitsIn_run s1 Hp) as (rest & Ht & Hb).
    exists ids, rest. rewrite Ht, Htr, <- app_assoc. repeat split; auto.
    eapply Forall_impl; [|exact Hb]. simpl. intros; lia.
Qed.

Lemma generateAfterChunks_trace chunks s :
  exists early n m ids rest,
    trace (snd (generateAfterChunks outputOptions co chunks s)) =
      trace s ++ early
        ++ map EvGenerateExports (firstn n chunks)
        ++ map EvPreRender (firstn m chunks)
        ++ map assignEvent (combine (chunksForNaming co chunks) ids)
        ++ rest /\
    Forall (fun e => phase e <= 3) early /\
    (m <> 0 -> n = length chunks) /\
    Forall (fun e => phase e = 7) rest /\
    (rest <> [] -> length ids = length chunks).
Proof.
  assert (Hstop : forall early,
             Forall (fun e => phase e <= 3) early ->
             exists early0 n m ids rest,
               trace s ++ early =
                 trace s ++ early0
                   ++ map EvGenerateExports (firstn n chunks)
                   ++ map EvPreRender (firstn m chunks)
                   ++ map assignEvent (combine (chunksForNaming co chunks) ids)
                   ++ rest /\
               Forall (fun e => phase e <= 3) early0 /\
               (m <> 0 -> n = length chunks) /\
               Forall (fun e => phase e = 7) rest /\
               (rest <> [] -> length ids = length chunks)).
  { intros early He. exists early, 0, 0, [], []. simpl.
    rewrite combine_nil. simpl. rewrite app_nil_r.
    repeat split; auto; congruence. }
  unfold generateAfterChunks. rewrite bind_trace.
  assert (Hv : emitsIn 2 2
                 (if 1 <? length chunks
                  then validateOptionsForMultiChunkOutput outputOptions
                  else ret tt)).
  { destruct (1 <? length chunks); [apply validateOptions_phase | phases]. }
  destruct (emitsIn_run s Hv) as (ev0 & Ht0 & Hb0).
  destruct ((if 1 <? length chunks
             then validateOptionsForMultiChunkOutput outputOptions
             else ret tt) s) as [[e|[]] s1]; simpl in Ht0.
  - rewrite Ht0. apply Hstop.
    eapply Forall_impl; [|exact Hb0]. simpl. intros; lia.
  - rewrite bind_trace. unfold emit at 1. rewrite bind_trace. unfold lift at 1.
    destruct (createAddons co) as [e|addons].
    + simpl. rewrite Ht0, <- app_assoc. apply Hstop.
      apply Forall_app. split.
      * eapply Forall_impl; [|exact Hb0]. simpl. intros; lia.
      * constructor; [simpl; lia | constructor].
    + rewrite bind_trace.
      match goal with
      | |- context [prerenderChunks co chunks ?base ?st] =>
          destruct (prerenderChunks_trace chunks base st) as (n & m & Hpre & Hnm);
          destruct (prerenderChunks co chunks base st) as [[e|[]] s2];
          simpl in Hpre
      end.
      * exists (ev0 ++ [EvCreateAddons]), n, m, [], [].
        rewrite Hpre, Ht0, combine_nil. simpl.
        rewrite app_nil_r, <- !app_assoc. simpl.
        repeat split; auto; try congruence.
        apply Forall_app. split.
        -- eapply Forall_impl; [|exact Hb0]. simpl. intros; lia.
        -- constructor; [simpl; lia | constructor].
      * match goal with
        | |- context [addFinalizedChunksToBundle outputOptions co chunks ?base ?ad s2] =>
            destruct (addFinalizedChunksToBundle_trace chunks base ad s2)
              as (ids & rest & Hfin & Hrest & Hall)
        end.
        exists (ev0 ++ [EvCreateAddons]), n, m, ids, rest.
        rewrite Hfin, Hpre, Ht0. simpl. rewrite <- !app_assoc. simpl.
        repeat split; auto.
        apply Forall_app. split.
        -- eapply Forall_impl; [|exact Hb0]. simpl. intros; lia.
        -- constructor; [simpl; lia | constructor].
Qed.

End GenerateTrace.

Section PhaseOrdering.

Variable outputOptions : NormalizedOutputOptions.
Variable graph : Graph.
Variable co : Collaborators.

Lemma split_before {A : Type} (l : list A) : forall r before e after,
  l ++ r = before ++ e :: after ->
  ~ In e l ->
  exists r1, before = l ++ r1 /\ r = r1 ++ e :: after.
Proof.
  induction l as [|a l IH]; intros r before e after Heq Hnot; simpl in *.
  - exists before. auto.
  - destruct before as [|b before]; simpl in Heq; injection Heq as -> Heq.
    + exfalso. apply Hnot. auto.
    + destruct (IH _ _ _ _ Heq) as (r1 & -> & ->); [tauto|].
      exists r1. auto.
Qed.

Lemma combine_In {A B : Type} (l : list A) : forall (ids : list B) x,
  length ids = length l -> In x l -> exists y, In (x, y) (combine l ids).
Proof.
  induction l as [|a l IH]; intros ids x Hlen Hin; [destruct Hin|].
  destruct ids as [|i ids]; [discriminate|]. simpl in *.
  destruct Hin as [-> | Hin].
  - exists i. auto.
  - destruct (IH ids x) as (y & Hy); [lia | assumption|]. exists y. auto.
Qed.

(** Either the [try] block stops before the chunks are handed to the render
    steps, and then no call of the steps 4 to 7 is made; or the chunk list
    exists and the trace is: the early calls, the [generateExports] calls,
    the [preRender] calls, the assignments, the render calls, the tail. *)
Lemma generate_trace_shape isWrite :
  Forall (fun e => phase e <= 3 \/ 8 <= phase e)
         (trace (snd (runGenerate outputOptions graph co isWrite))) \/
  exists s1 chunks s2 early n m ids rest tail,
    hookParallel co renderStart initialState = (inr tt, s1) /\
    generateChunks outputOptions graph co s1 = (inr chunks, s2) /\
    trace (snd (runGenerate outputOptions graph co isWrite)) =
      early
        ++ map EvGenerateExports (firstn n chunks)
        ++ map EvPreRender (firstn m chunks)
        ++ map assignEvent (combine (chunksForNaming co chunks) ids)
        ++ rest ++ tail /\
    Forall (fun e => phase e <= 3) early /\
    (m <> 0 -> n = length chunks) /\
    Forall (fun e => phase e = 7) rest /\
    (rest <> [] -> length ids = length chunks) /\
    Forall (fun e => 8 <= phase e) tail.
Proof.
  unfold runGenerate.
  destruct (generate_trace_tail outputOptions graph co isWrite initialState)
    as (tail & Htail & Hb). rewrite Htail. clear Htail.
  unfold generateSteps. rewrite bind_trace.
  destruct (emitsIn_run initialState (hookParallel_phase co renderStart))
    as (ev1 & Ht1 & Hb1). simpl in Ht1, Hb1.
  destruct (hookParallel co renderStart initialState) as [[e|[]] s1] eqn:Hhook;
    simpl in Ht1.
  - left. rewrite Ht1. apply Forall_app. split.
    + eapply Forall_impl; [|exact Hb1]. simpl. intros; lia.
    + eapply Forall_impl; [|exact Hb]. simpl. intros; lia.
  - rewrite bind_trace.
    destruct (emitsIn_run s1 (generateChunks_phase outputOptions graph co))
      as (ev2 & Ht2 & Hb2).
    destruct (generateChunks outputOptions graph co s1) as [[e|chunks] s2] eqn:Hgen;
      simpl in Ht2.
    + left. rewrite Ht2, Ht1. apply Forall_app. split; [apply Forall_app; split|].
      * eapply Forall_impl; [|exact Hb1]. simpl. intros; lia.
      * eapply Forall_impl; [|exact Hb2]. simpl. intros; lia.
      * eapply Forall_impl; [|exact Hb]. simpl. intros; lia.
    + right.
      destruct (generateAfterChunks_trace outputOptions co chunks s2)
        as (early & n & m & ids & rest & Ht & He & Hnm & Hrest & Hids).
      exists s1, chunks, s2, (ev1 ++ ev2 ++ early), n, m, ids, rest, tail.
      rewrite Ht, Ht2, Ht1. simpl. rewrite <- !app_assoc.
      repeat split; auto.
      apply Forall_app. split; [|apply Forall_app; split; [|exact He]].
      * eapply Forall_impl; [|exact Hb1]. simpl. intros; lia.
      * eapply Forall_impl; [|exact Hb2]. simpl. intros; lia.
Qed.

End PhaseOrdering.

Lemma split_after {A : Type} (l : list A) : forall r before e after,
  l ++ r = before ++ e :: after ->
  ~ In e r ->
  exists l2, l = before ++ e :: l2 /\ after = l2 ++ r.
Proof.
  induction l as [|a l IH]; intros r before e after Heq Hnot; simpl in *.
  - exfalso. apply Hnot. rewrite Heq. apply in_or_app. right. left. reflexivity.
  - destruct before as [|b before]; simpl in Heq; injection Heq as -> Heq.
    + exists l. auto.
    + destruct (IH _ _ _ _ Heq Hnot) as (l2 & -> & ->). exists l2. auto.
Qed.

(** ** Where the identities of the chunks are set *)

Section ChunkIdentities.

Lemma keepsIds_ret {A : Type} (a : A) : keepsIds (ret a).
Proof. intros s. reflexivity. Qed.

Lemma keepsIds_throw {A : Type} (e : RollupError) : keepsIds (throw (A := A) e).
Proof. intros s. reflexivity. Qed.

Lemma keepsIds_lift {A : Type} (r : Result A) : keepsIds (lift r).
Proof. intros s. reflexivity. Qed.

Lemma keepsIds_emit e : keepsIds (emit e).
Proof. intros s. reflexivity. Qed.

Lemma keepsIds_getBundle : keepsIds getBundle.
Proof. intros s. reflexivity. Qed.

Lemma keepsIds_putBundle b : keepsIds (putBundle b).
Proof. intros s. reflexivity. Qed.

Lemma keepsIds_setBundle key value : keepsIds (setBundle key value).
Proof. intros s. reflexivity. Qed.

Lemma keepsIds_getChunkId c : keepsIds (getChunkId c).
Proof. intros s. reflexivity. Qed.

(** After [c ;; k], when [c] sets no chunk id: the chunk ids are as they
    were, or [c] has returned and they are those that [k] leaves. *)
Lemma bind_ids_then {A B : Type} (c : M A) (k : A -> M B) s :
  keepsIds c ->
  chunkIds (snd (bind c k s)) = chunkIds s \/
  exists a s1,
    c s = (inr a, s1) /\ chunkIds s1 = chunkIds s /\
    chunkIds (snd (bind c k s)) = chunkIds (snd (k a s1)).
Proof.
  intros Hc. specialize (Hc s). unfold bind.
  destruct (c s) as [[e|a] s1]; simpl in Hc.
  - left. exact Hc.
  - right. exists a, s1. auto.
Qed.

(** The chunk ids after [c ;; k] are those after [c], when [k] sets none. *)
Lemma bind_ids {A B : Type} (c : M A) (k : A -> M B) s :
  (forall a, keepsIds (k a)) ->
  chunkIds (snd (bind c k s)) = chunkIds (snd (c s)).
Proof.
  intros Hk. unfold bind. destruct (c s) as [[e|a] s1]; [reflexivity|].
  simpl. apply Hk.
Qed.

Lemma keepsIds_bind {A B : Type} (c : M A) (k : A -> M B) :
  keepsIds c -> (forall a, keepsIds (k a)) -> keepsIds (bind c k).
Proof. intros Hc Hk s. rewrite bind_ids by exact Hk. apply Hc. Qed.

Lemma tryCatch_ids {A : Type} (body : M A) (handler : RollupError -> M A) s :
  (forall e, keepsIds (handler e)) ->
  chunkIds (snd (tryCatch body handler s)) = chunkIds (snd (body s)).
Proof.
  intros Hh. unfold tryCatch. destruct (body s) as [[e|a] s1]; [|reflexivity].
  simpl. apply Hh.
Qed.

Lemma keepsIds_forEach {A : Type} (l : list A) (body : A -> M unit) :
  (forall x, keepsIds (body x)) -> keepsIds (forEach l body).
Proof.
  intros Hbody. induction l as [|x l IH]; simpl.
  - apply keepsIds_ret.
  - apply keepsIds_bind; [apply Hbody | intros _; exact IH].
Qed.

End ChunkIdentities.

Ltac keeps :=
  repeat first
    [ apply keepsIds_ret | apply keepsIds_throw | apply keepsIds_lift
    | apply keepsIds_emit | apply keepsIds_getBundle | apply keepsIds_putBundle
    | apply keepsIds_setBundle | apply keepsIds_getChunkId
    | apply keepsIds_forEach; intro
    | apply keepsIds_bind; [| intro] ].

Section PipelineIdentities.

Variable outputOptions : NormalizedOutputOptions.
Variable graph : Graph.
Variable co : Collaborators.

Lemma hookParallel_ids h : keepsIds (hookParallel co h).
Proof. unfold hookParallel. keeps. Qed.

Lemma constructChunks_ids groups : forall chunks,
  keepsIds (constructChunks co groups chunks).
Proof.
  induction groups as [|[alias modules] groups IH]; intros chunks; simpl.
  - keeps.
  - apply keepsIds_bind; [keeps | intros _; apply IH].
Qed.

Lemma collectFacades_ids chunks : forall facades,
  keepsIds (collectFacades co chunks facades).
Proof.
  induction chunks as [|c chunks IH]; intros facades; simpl.
  - keeps.
  - apply keepsIds_bind; [keeps | intros _].
    apply keepsIds_bind; [keeps | intros generated; apply IH].
Qed.

Lemma generateChunks_ids : keepsIds (generateChunks outputOptions graph co).
Proof.
  unfold generateChunks.
  apply keepsIds_bind; [keeps | intros aliases].
  apply keepsIds_bind; [apply constructChunks_ids | intros chunks].
  apply keepsIds_bind; [keeps | intros _].
  apply keepsIds_bind; [apply collectFacades_ids | intros facades; keeps].
Qed.

Lemma validateOptions_ids :
  keepsIds (validateOptionsForMultiChunkOutput outputOptions).
Proof.
  unfold validateOptionsForMultiChunkOutput, error, onwarn.
  destruct (format outputOptions); try (keeps; fail);
    (destruct (file outputOptions); [keeps|]);
    (destruct (truthy (sourcemapFile outputOptions)); [keeps|]);
    (destruct (negb (autoId (amd_options outputOptions))
               && truthy (amd_id (amd_options outputOptions))); keeps).
Qed.

Lemma prerenderChunks_ids chunks inputBase :
  keepsIds (prerenderChunks co chunks inputBase).
Proof. unfold prerenderChunks. keeps. Qed.

Lemma startRenders_ids addons chunks : keepsIds (startRenders co addons chunks).
Proof.
  induction chunks as [|c chunks IH]; simpl.
  - keeps.
  - apply keepsIds_bind; [unfold startRender; keeps | intros task].
    apply keepsIds_bind; [exact IH | intros tasks; keeps].
Qed.

Lemma settleRender_ids task : keepsIds (settleRender task).
Proof.
  destruct task as [[id outputChunk] [e|rendered]]; simpl; [keeps|].
  destruct outputChunk; keeps.
Qed.

(** What [addFinalizedChunksToBundle] does once the chunks are named. *)
Lemma finalizedEntries_ids chunks addons :
  keepsIds
    (forEach chunks
       (fun chunk =>
          id <- getChunkId chunk ;;
          emit (EvChunkInfo chunk) ;;
          info <- lift (chunk_getChunkInfoWithFileNames co chunk id) ;;
          setBundle (propertyKey id) info) ;;
     tasks <- startRenders co addons chunks ;;
     forEach tasks settleRender).
Proof.
  apply keepsIds_bind; [keeps | intros _].
  apply keepsIds_bind; [apply startRenders_ids | intros tasks].
  apply keepsIds_forEach. intros task. apply settleRender_ids.
Qed.

Lemma finaliseAsset_ids f : keepsIds (finaliseAsset outputOptions co f).
Proof.
  unfold finaliseAsset, warnDeprecation, onwarn.
  apply keepsIds_bind; [destruct (file_type f); keeps | intros f'].
  apply keepsIds_bind; [| intros _; keeps].
  destruct (validate outputOptions); [|keeps].
  destruct (file_code f') as [code|]; [|keeps].
  destruct (contextParse co code); keeps.
Qed.

Lemma finaliseEntries_ids entries :
  keepsIds (finaliseEntries outputOptions co entries).
Proof.
  induction entries as [|[key f] entries IH]; simpl.
  - keeps.
  - apply keepsIds_bind; [apply finaliseAsset_ids | intros f'].
    apply keepsIds_bind; [exact IH | intros rest; keeps].
Qed.

Lemma finaliseAssets_ids : keepsIds (finaliseAssets outputOptions co).
Proof.
  unfold finaliseAssets.
  apply keepsIds_bind; [keeps | intros b].
  apply keepsIds_bind; [apply finaliseEntries_ids | intros b'; keeps].
Qed.

(** The chunk ids after the render steps: those the naming loop leaves, when
    it is reached. *)
Lemma generateAfterChunks_ids chunks s :
  chunkIds (snd (generateAfterChunks outputOptions co chunks s)) = chunkIds s \/
  exists addons s3,
    createAddons co = inr addons /\ chunkIds s3 = chunkIds s /\
    chunkIds (snd (generateAfterChunks outputOptions co chunks s)) =
      chunkIds (snd (assignChunkIds outputOptions co chunks
                       (commondir co (getAbsoluteEntryModulePaths co chunks))
                       addons s3)).
Proof.
  unfold generateAfterChunks.
  assert (Hv : keepsIds (if 1 <? length chunks
                         then validateOptionsForMultiChunkOutput outputOptions
                         else ret tt))
    by (destruct (1 <? length chunks); [apply validateOptions_ids | keeps]).
  match goal with
  | |- context [bind ?c ?k s] =>
      destruct (@bind_ids_then _ _ c k s Hv) as [H | (u & s1 & _ & Hs1 & ->)];
        [left; exact H|]
  end.
  match goal with
  | |- context [bind ?c ?k s1] =>
      destruct (@bind_ids_then _ _ c k s1 (keepsIds_emit EvCreateAddons))
        as [H | (u' & s2 & _ & Hs2 & ->)]; [left; congruence|]
  end.
  match goal with
  | |- context [bind ?c ?k s2] =>
      destruct (@bind_ids_then _ _ c k s2 (keepsIds_lift (createAddons co)))
        as [H | (addons & s2' & Haddons & Hs2' & ->)]; [left; congruence|]
  end.
  unfold lift in Haddons. injection Haddons as Haddons _.
  match goal with
  | |- context [bind ?c ?k s2'] =>
      destruct (@bind_ids_then _ _ c k s2'
                  (prerenderChunks_ids chunks
                     (commondir co (getAbsoluteEntryModulePaths co chunks))))
        as [H | (u'' & s3 & _ & Hs3 & ->)]; [left; congruence|]
  end.
  right. exists addons, s3. split; [exact Haddons|]. split; [congruence|].
  unfold addFinalizedChunksToBundle.
  apply bind_ids. intros _. apply finalizedEntries_ids.
Qed.

(** The chunk ids at the end of [generate]: none, or those that the naming
    loop has left, started without any on the chunks of [generateChunks]. *)
Lemma generate_ids isWrite :
  chunkIds (snd (runGenerate outputOptions graph co isWrite)) = [] \/
  exists s1 chunks s2 addons s3,
    hookParallel co renderStart initialState = (inr tt, s1) /\
    generateChunks outputOptions graph co s1 = (inr chunks, s2) /\
    createAddons co = inr addons /\ chunkIds s3 = [] /\
    chunkIds (snd (runGenerate outputOptions graph co isWrite)) =
      chunkIds (snd (assignChunkIds outputOptions co chunks
                       (commondir co (getAbsoluteEntryModulePaths co chunks))
                       addons s3)).
Proof.
  unfold runGenerate, generate.
  rewrite bind_ids.
  2:{ intros _. apply keepsIds_bind; [apply hookParallel_ids | intros _].
      apply keepsIds_bind; [apply finaliseAssets_ids | intros _; keeps]. }
  rewrite tryCatch_ids.
  2:{ intros e. apply keepsIds_bind; [apply hookParallel_ids | intros _; keeps]. }
  unfold generateSteps.
  match goal with
  | |- context [bind ?c ?k initialState] =>
      destruct (@bind_ids_then _ _ c k initialState (hookParallel_ids renderStart))
        as [H | ([] & s1 & Hstart & Hs1 & ->)]; [left; exact H|]
  end.
  simpl in Hs1.
  match goal with
  | |- context [bind ?c ?k s1] =>
      destruct (@bind_ids_then _ _ c k s1 generateChunks_ids)
        as [H | (chunks & s2 & Hgen & Hs2 & ->)]; [left; congruence|]
  end.
  destruct (generateAfterChunks_ids chunks s2)
    as [Hsame | (addons & s3 & Haddons & Hs3 & Hids)].
  - left. simpl in Hs1. congruence.
  - right. exists s1, chunks, s2, addons, s3.
    simpl in Hs1. repeat split; auto. congruence.
Qed.

End PipelineIdentities.

(** C3.  [assignChunkIds] names the chunks in the order [chunksForNaming]:
    the chunks whose facade module is a user-defined entry point, then the
    other chunks, each group in the order of the chunk list.  Going through
    the chunks in that order, it computes each identity from the bundle as it
    stands, stores it in the chunk and reserves it in the bundle, up to the
    first failure (all of them when the call completes): the state it leaves
    is the one these assignments build, so that no entry chunk gets its
    identity after a non-entry chunk.  In any [generate], the identities the
    chunks end up with are those of this loop run on the generated chunks
    (or none, when the loop is not reached), and no entry chunk is named
    after a non-entry chunk. *)
Theorem entry_chunks_named_first
    (outputOptions : NormalizedOutputOptions) (graph : Graph)
    (co : Collaborators) (isWrite : bool) :
  (forall chunks,
      chunksForNaming co chunks =
        filter (isEntryChunk co) chunks ++
        filter (fun c => negb (isEntryChunk co c)) chunks) /\
  (forall chunks inputBase addons s,
      let order := chunksForNaming co chunks in
      let ids :=
        fst (namedIds outputOptions co inputBase addons order (bundle s)) in
      let failure :=
        snd (namedIds outputOptions co inputBase addons order (bundle s)) in
      let s' := afterAssignments s (combine order ids) in
      assignChunkIds outputOptions co chunks inputBase addons s =
        (match failure with None => inr tt | Some e => inl e end, s') /\
      chunkIds s' =
        rev (map (fun n : Chunk * string => (chunk_key (fst n), snd n))
               (combine order ids))
        ++ chunkIds s /\
      trace s' = trace s ++ map assignEvent (combine order ids) /\
      (forall c id, In (c, id) (combine order ids) ->
                    JsMap.get id (bundle s') = Some FILE_PLACEHOLDER) /\
      length ids <= length chunks /\
      (failure = None -> length ids = length chunks) /\
      (forall before c id after,
          combine order ids = before ++ (c, id) :: after ->
          isEntryChunk co c = false ->
          forall c' id', In (c', id') after -> isEntryChunk co c' = false)) /\
  (chunkIds (snd (runGenerate outputOptions graph co isWrite)) = [] \/
   exists s1 chunks s2 addons s3,
     hookParallel co renderStart initialState = (inr tt, s1) /\
     generateChunks outputOptions graph co s1 = (inr chunks, s2) /\
     createAddons co = inr addons /\
     let inputBase := commondir co (getAbsoluteEntryModulePaths co chunks) in
     let order := chunksForNaming co chunks in
     chunkIds (snd (runGenerate outputOptions graph co isWrite)) =
       rev (map (fun n : Chunk * string => (chunk_key (fst n), snd n))
              (combine order
                 (fst (namedIds outputOptions co inputBase addons order
                         (bundle s3)))))) /\
  (forall before c id after,
      trace (snd (runGenerate outputOptions graph co isWrite))
        = before ++ EvAssignId c id :: after ->
      isEntryChunk co c = false ->
      forall c' id', In (EvAssignId c' id') after -> isEntryChunk co c' = false).
Proof.
  split; [apply chunksForNaming_filter | split; [|split]].
  - intros chunks inputBase addons s order ids failure s'.
    pose proof (namedIds_length outputOptions co inputBase addons order (bundle s))
      as [Hle Heq].
    unfold order in Hle, Heq. rewrite chunksForNaming_length in Hle, Heq.
    split; [|split; [|split; [|split; [|split; [|split]]]]].
    + unfold assignChunkIds. apply namingLoop_run.
    + apply afterAssignments_chunkIds.
    + apply afterAssignments_trace.
    + intros c id Hin. exact (afterAssignments_reserved _ s c id Hin).
    + exact Hle.
    + exact Heq.
    + intros before c id after Hsplit Hc c' id' Hin.
      apply (@assign_events_entry_first co chunks ids
               (map assignEvent before) c id (map assignEvent after))
        with (id' := id').
      * fold order. rewrite Hsplit, map_app. reflexivity.
      * exact Hc.
      * apply in_map_iff. exists (c', id'). auto.
  - destruct (generate_ids outputOptions graph co isWrite)
      as [Hnone | (s1 & chunks & s2 & addons & s3 & Hstart & Hgen & Haddons
                   & Hs3 & Hids)]; [left; exact Hnone|].
    right. exists s1, chunks, s2, addons, s3.
    split; [exact Hstart | split; [exact Hgen | split; [exact Haddons|]]].
    intros inputBase order. rewrite Hids. unfold assignChunkIds.
    rewrite namingLoop_run. simpl.
    rewrite afterAssignments_chunkIds, Hs3, app_nil_r. reflexivity.
  - intros before c id after Htr Hc c' id' Hin.
    destruct (generate_trace_shape outputOptions graph co isWrite)
      as [Hnone | (s1 & chunks & s2 & early & n & m & ids & rest & tail &
                   _ & _ & Hshape & He & _ & Hrest & _ & Htail)].
    { rewrite Forall_forall in Hnone.
      assert (H : In (EvAssignId c id)
                    (trace (snd (runGenerate outputOptions graph co isWrite))))
        by (rewrite Htr; apply in_or_app; right; left; reflexivity).
      apply Hnone in H. simpl in H. lia. }
    rewrite Forall_forall in He, Hrest, Htail.
    rewrite Hshape, !app_assoc, <- (app_assoc _ rest tail),
            <- (app_assoc _ _ (rest ++ tail)) in Htr.
    apply split_before in Htr.
    + destruct Htr as (r1 & _ & Hr).
      apply split_after in Hr.
      * destruct Hr as (l2 & Hnamed & ->).
        apply in_app_or in Hin. destruct Hin as [Hin | Hin].
        -- eapply assign_events_entry_first; eauto.
        -- apply in_app_or in Hin. destruct Hin as [Hin | Hin].
           ++ apply Hrest in Hin. simpl in Hin. lia.
           ++ apply Htail in Hin. simpl in Hin. lia.
      * intros Hbad. apply in_app_or in Hbad. destruct Hbad as [Hbad | Hbad].
        -- apply Hrest in Hbad. simpl in Hbad. lia.
        -- apply Htail in Hbad. simpl in Hbad. lia.
    + intros Hbad.
      repeat (apply in_app_or in Hbad; destruct Hbad as [Hbad | Hbad]).
      * apply He in Hbad. simpl in Hbad. lia.
      * apply in_map_iff in Hbad. destruct Hbad as (x & Hx & _). discriminate.
      * apply in_map_iff in Hbad. destruct Hbad as (x & Hx & _). discriminate.
Qed.

(** The chunk of [b] comes first in the chunk list, the chunk of the entry
    module [a] is named first all the same; the name of the chunk of [b] is
    computed from the bundle in which that name is taken.  The same in a
    whole [generate] in preserve-modules mode (the list of chunk ids has the
    latest assignment first). *)
Lemma entry_chunks_named_first_witness :
  let addons := {| banner := ""; footer := ""; intro := ""; outro := "" |} in
  chunksForNaming plainCollaborators [chunkOfB; chunkOfA] = [chunkOfA; chunkOfB] /\
  assignChunkIds singleChunkOptions plainCollaborators [chunkOfB; chunkOfA]
    "/src" addons initialState =
    (inr tt,
     {| bundle := [("chunk.js", FILE_PLACEHOLDER); ("chunk.js2", FILE_PLACEHOLDER)];
        chunkIds := [(chunk_key chunkOfB, "chunk.js2"); (chunk_key chunkOfA, "chunk.js")];
        trace := [EvAssignId chunkOfA "chunk.js"; EvAssignId chunkOfB "chunk.js2"] |}) /\
  fst (generateChunks preserveEsOptions demoGraph plainCollaborators initialState)
    = inr [chunkOfB; chunkOfA] /\
  chunkIds (snd (runGenerate preserveEsOptions demoGraph plainCollaborators false))
    = [(chunk_key chunkOfB, "/src/b.js"); (chunk_key chunkOfA, "/src/a.js")].
Proof.
  intros addons.
  destruct (entry_chunks_named_first singleChunkOptions demoGraph
              plainCollaborators false) as (Horder & Hrun & _ & _).
  split; [|split; [|split]].
  - rewrite Horder. reflexivity.
  - rewrite (proj1 (Hrun [chunkOfB; chunkOfA] "/src" addons initialState)).
    reflexivity.
  - reflexivity.
  - reflexivity.
Defined.

(** C6.  In the trace of any [generate]: when a [preRender] call is made,
    [generateExports] has been called before it for every chunk of the chunk
    list, and is called for none afterwards; when a [render] call is made,
    every chunk of the chunk list has been given its identity before it, and
    none is given one afterwards. *)
Theorem pipeline_phase_ordering
    (outputOptions : NormalizedOutputOptions) (graph : Graph)
    (co : Collaborators) (isWrite : bool)
    (before : list Event) (e : Event) (after : list Event) :
  trace (snd (runGenerate outputOptions graph co isWrite)) = before ++ e :: after ->
  (forall c, e = EvPreRender c ->
     (forall c', ~ In (EvGenerateExports c') after) /\
     exists s1 chunks s2,
       hookParallel co renderStart initialState = (inr tt, s1) /\
       generateChunks outputOptions graph co s1 = (inr chunks, s2) /\
       forall c', In c' chunks -> In (EvGenerateExports c') before) /\
  (forall c, e = EvRender c ->
     (forall c' id, ~ In (EvAssignId c' id) after) /\
     exists s1 chunks s2,
       hookParallel co renderStart initialState = (inr tt, s1) /\
       generateChunks outputOptions graph co s1 = (inr chunks, s2) /\
       forall c', In c' chunks -> exists id, In (EvAssignId c' id) before).
Proof.
  intros Htr.
  assert (Hlater : Forall (fun e' => phase e <= phase e') after).
  { destruct (generate_phase outputOptions graph co isWrite initialState)
      as (evs & Hevs & Hp). simpl in Hevs.
    unfold runGenerate in Htr. rewrite Hevs in Htr. rewrite Htr in Hp.
    eapply inPhases_later; eauto. }
  rewrite Forall_forall in Hlater.
  assert (Hin : In e (trace (snd (runGenerate outputOptions graph co isWrite)))).
  { rewrite Htr. apply in_or_app. right. left. reflexivity. }
  split; intros c ->.
  - split.
    { intros c' Hc'. apply Hlater in Hc'. simpl in Hc'. lia. }
    destruct (generate_trace_shape outputOptions graph co isWrite)
      as [Hnone | (s1 & chunks & s2 & early & n & m & ids & rest & tail &
                   Hhook & Hgen & Hshape & He & Hnm & Hrest & Hids & Htail)].
    { rewrite Forall_forall in Hnone. apply Hnone in Hin. simpl in Hin. lia. }
    exists s1, chunks, s2. repeat split; auto.
    intros c' Hc'.
    rewrite Hshape, app_assoc in Htr.
    apply split_before in Htr.
    + destruct Htr as (r1 & -> & Hr).
      assert (Hm : m <> 0).
      { intros ->. simpl in Hr.
        assert (Hin' : In (EvPreRender c)
                         (map assignEvent (combine (chunksForNaming co chunks) ids)
                          ++ rest ++ tail))
          by (rewrite Hr; apply in_or_app; right; left; reflexivity).
        rewrite Forall_forall in Hrest, Htail.
        repeat (apply in_app_or in Hin'; destruct Hin' as [Hin' | Hin']).
        - apply in_map_iff in Hin'. destruct Hin' as (x & Hx & _). discriminate.
        - apply Hrest in Hin'. simpl in Hin'. lia.
        - apply Htail in Hin'. simpl in Hin'. lia. }
      rewrite (Hnm Hm), firstn_all.
      apply in_or_app. left. apply in_or_app. right.
      apply in_map. exact Hc'.
    + intros Hbad. rewrite Forall_forall in He.
      apply in_app_or in Hbad. destruct Hbad as [Hbad | Hbad].
      * apply He in Hbad. simpl in Hbad. lia.
      * apply in_map_iff in Hbad. destruct Hbad as (x & Hx & _). discriminate.
  - split.
    { intros c' id Hc'. apply Hlater in Hc'. simpl in Hc'. lia. }
    destruct (generate_trace_shape outputOptions graph co isWrite)
      as [Hnone | (s1 & chunks & s2 & early & n & m & ids & rest & tail &
                   Hhook & Hgen & Hshape & He & Hnm & Hrest & Hids & Htail)].
    { rewrite Forall_forall in Hnone. apply Hnone in Hin. simpl in Hin. lia. }
    exists s1, chunks, s2.
    rewrite Hshape, !app_assoc, <- (app_assoc _ rest tail) in Htr.
    apply split_before in Htr.
    + destruct Htr as (r1 & -> & Hr).
      assert (Hinrest : In (EvRender c) rest).
      { assert (Hin' : In (EvRender c) (rest ++ tail))
          by (rewrite Hr; apply in_or_app; right; left; reflexivity).
        apply in_app_or in Hin'. destruct Hin' as [Hin' | Hin']; [exact Hin'|].
        rewrite Forall_forall in Htail. apply Htail in Hin'. simpl in Hin'. lia. }
      assert (Hlen : length ids = length chunks).
      { apply Hids. intros ->. destruct Hinrest. }
      repeat split; auto.
      intros c' Hc'.
      destruct (combine_In (chunksForNaming co chunks) ids c') as (id & Hid).
      * rewrite chunksForNaming_length. exact Hlen.
      * apply chunksForNaming_In. exact Hc'.
      * exists id. apply in_or_app. left. apply in_or_app. right.
        apply (in_map assignEvent) in Hid. exact Hid.
    + intros Hbad. rewrite Forall_forall in He.
      repeat (apply in_app_or in Hbad; destruct Hbad as [Hbad | Hbad]).
      * apply He in Hbad. simpl in Hbad. lia.
      * apply in_map_iff in Hbad. destruct Hbad as (x & Hx & _). discriminate.
      * apply in_map_iff in Hbad. destruct Hbad as (x & Hx & _). discriminate.
      * apply in_map_iff in Hbad. destruct Hbad as (x & Hx & _). discriminate.
Qed.

(** The first part of a concrete run: through [preRender] of one chunk per
    module. *)
Lemma pipeline_phase_ordering_witness :
  trace (snd (runGenerate preserveEsOptions demoGraph plainCollaborators true)) =
    [EvHook renderStart; EvNewChunk chunkOfB; EvNewChunk chunkOfA;
     EvLink chunkOfB; EvLink chunkOfA;
     EvGenerateFacades chunkOfB; EvGenerateFacades chunkOfA;
     EvCreateAddons; EvGenerateExports chunkOfB; EvGenerateExports chunkOfA]
    ++ EvPreRender chunkOfB
    :: [EvPreRender chunkOfA;
        EvAssignId chunkOfA "/src/a.js"; EvAssignId chunkOfB "/src/b.js";
        EvChunkInfo chunkOfB; EvChunkInfo chunkOfA;
        EvRender chunkOfB; EvRender chunkOfA;
        EvHook (generateBundle true); EvFinaliseAssets]
  /\
  forall c, EvPreRender chunkOfB = EvPreRender c ->
    (forall c', ~ In (EvGenerateExports c')
                  [EvPreRender chunkOfA;
                   EvAssignId chunkOfA "/src/a.js"; EvAssignId chunkOfB "/src/b.js";
                   EvChunkInfo chunkOfB; EvChunkInfo chunkOfA;
                   EvRender chunkOfB; EvRender chunkOfA;
                   EvHook (generateBundle true); EvFinaliseAssets]) /\
    exists s1 chunks s2,
      hookParallel plainCollaborators renderStart initialState = (inr tt, s1) /\
      generateChunks preserveEsOptions demoGraph plainCollaborators s1
        = (inr chunks, s2) /\
      forall c', In c' chunks ->
        In (EvGenerateExports c')
           [EvHook renderStart; EvNewChunk chunkOfB; EvNewChunk chunkOfA;
            EvLink chunkOfB; EvLink chunkOfA;
            EvGenerateFacades chunkOfB; EvGenerateFacades chunkOfA;
            EvCreateAddons; EvGenerateExports chunkOfB; EvGenerateExports chunkOfA].
Proof.
  assert (H : trace (snd (runGenerate preserveEsOptions demoGraph
                            plainCollaborators true)) =
    [EvHook renderStart; EvNewChunk chunkOfB; EvNewChunk chunkOfA;
     EvLink chunkOfB; EvLink chunkOfA;
     EvGenerateFacades chunkOfB; EvGenerateFacades chunkOfA;
     EvCreateAddons; EvGenerateExports chunkOfB; EvGenerateExports chunkOfA]
    ++ EvPreRender chunkOfB
    :: [EvPreRender chunkOfA;
        EvAssignId chunkOfA "/src/a.js"; EvAssignId chunkOfB "/src/b.js";
        EvChunkInfo chunkOfB; EvChunkInfo chunkOfA;
        EvRender chunkOfB; EvRender chunkOfA;
        EvHook (generateBundle true); EvFinaliseAssets]) by reflexivity.
  split; [exact H|].
  exact (proj1 (pipeline_phase_ordering preserveEsOptions demoGraph
                  plainCollaborators true _ _ _ H)).
Defined.

(** Automatic naming of the two chunks of the small build: the entry chunk
    takes [chunk.js], which the next assignment finds reserved. *)
Lemma identity_reserved_before_next_assignment_witness :
  let outputOptions := demoOptions (ManualChunksObject []) false es false in
  let addons := {| banner := ""; footer := ""; intro := ""; outro := "" |} in
  let s1 := afterAssignment initialState chunkOfA "chunk.js" in
  chunksForNaming plainCollaborators [chunkOfB; chunkOfA]
    = [chunkOfA] ++ chunkOfB :: [] /\
  forEach [chunkOfA] (assignChunkId outputOptions plainCollaborators "/src" addons)
    initialState = (inr tt, s1) /\
  assignChunkIds outputOptions plainCollaborators [chunkOfB; chunkOfA] "/src" addons
    initialState = (inr tt, afterAssignment s1 chunkOfB "chunk.js2").
Proof.
  intros outputOptions addons s1.
  assert (Hsplit : chunksForNaming plainCollaborators [chunkOfB; chunkOfA]
                   = [chunkOfA] ++ chunkOfB :: []) by reflexivity.
  assert (Hpre : forEach [chunkOfA]
                   (assignChunkId outputOptions plainCollaborators "/src" addons)
                   initialState = (inr tt, s1)) by reflexivity.
  split; [exact Hsplit | split; [exact Hpre|]].
  exact (proj1 (proj2 (identity_reserved_before_next_assignment outputOptions
                         plainCollaborators [chunkOfB; chunkOfA] "/src" addons
                         [chunkOfA] chunkOfB [] initialState Hsplit Hpre))).
Defined.

(** ** Failures and the final validation *)

Section Outcomes.

Variable outputOptions : NormalizedOutputOptions.
Variable graph : Graph.
Variable co : Collaborators.

Lemma hookParallel_run h s :
  hookParallel co h s =
  match runHook co h (bundle s) with
  | inl e => (inl e, withTrace s [EvHook h])
  | inr b => (inr tt, {| bundle := b; chunkIds := chunkIds s;
                         trace := trace s ++ [EvHook h] |})
  end.
Proof.
  unfold hookParallel, bind, emit, getBundle, lift, putBundle. simpl.
  destruct (runHook co h (bundle s)); reflexivity.
Qed.

Lemma validateOptions_conflict s :
  format outputOptions = iife \/ format outputOptions = umd \/
  file outputOptions <> None ->
  exists optionName urlHash explanation value,
    (optionName = "output.format" \/ optionName = "output.file") /\
    validateOptionsForMultiChunkOutput outputOptions s =
      (inl (errInvalidOption optionName urlHash explanation value), s).
Proof.
  intros H. unfold validateOptionsForMultiChunkOutput, error, throw.
  destruct (format outputOptions) eqn:Hf;
    try (do 4 eexists; split; [left; reflexivity | reflexivity]);
    (destruct H as [H | [H | H]]; try discriminate);
    (destruct (file outputOptions); [|congruence]);
    do 4 eexists; (split; [right; reflexivity | reflexivity]).
Qed.

Lemma finaliseAsset_run f s :
  finaliseAsset outputOptions co f s =
    (inr (finalisedFile f), withTrace s (finaliseNotices outputOptions co f)).
Proof.
  unfold finaliseAsset, finaliseNotices, finalisedFile, warnDeprecation, onwarn.
  unfold bind, emit, ret, withTrace.
  destruct (file_type f); simpl;
    destruct (validate outputOptions); simpl;
    try destruct (file_code f) as [code|]; simpl;
    try destruct (contextParse co code); simpl;
    rewrite ?app_nil_r, <- ?app_assoc; destruct s; reflexivity.
Qed.

(** The loop over the entries never throws. *)
Lemma finaliseEntries_run entries : forall s,
  finaliseEntries outputOptions co entries s =
    (inr (finalisedBundle entries),
     withTrace s (flat_map (fun entry => finaliseNotices outputOptions co (snd entry))
                    entries)).
Proof.
  induction entries as [|[key f] entries IH]; intros s; simpl.
  - unfold ret. rewrite withTrace_nil. reflexivity.
  - unfold bind at 1. rewrite finaliseAsset_run.
    unfold bind at 1. rewrite IH, withTrace_app. reflexivity.
Qed.

Lemma finaliseAssets_run s :
  finaliseAssets outputOptions co s =
    (pluginDriver_finaliseAssets co (finalisedBundle (bundle s)),
     {| bundle := finalisedBundle (bundle s);
        chunkIds := chunkIds s;
        trace := trace s
                 ++ flat_map (fun entry => finaliseNotices outputOptions co (snd entry))
                      (bundle s)
                 ++ [EvFinaliseAssets] |}).
Proof.
  unfold finaliseAssets. unfold bind at 1. unfold getBundle at 1.
  unfold bind at 1. rewrite finaliseEntries_run.
  unfold bind, putBundle, emit, lift, withTrace. simpl.
  rewrite <- app_assoc. reflexivity.
Qed.

(** When the [try] block completes, no [renderError] hook is run. *)
Lemma no_renderError_after_success isWrite s1 err :
  generateSteps outputOptions graph co initialState = (inr tt, s1) ->
  ~ In (EvHook (renderError err))
       (trace (snd (runGenerate outputOptions graph co isWrite))).
Proof.
  intros Hsteps Hin. unfold runGenerate in Hin.
  erewrite generate_steps_ok in Hin by exact Hsteps.
  rewrite bind_trace, hookParallel_run in Hin.
  assert (Hearly : ~ In (EvHook (renderError err)) (trace s1)).
  { destruct (emitsIn_run initialState
                (generateSteps_phase outputOptions graph co)) as (evs & Ht & Hb).
    rewrite Hsteps in Ht. simpl in Ht. rewrite Ht. intros H.
    rewrite Forall_forall in Hb. apply Hb in H. simpl in H. lia. }
  destruct (runHook co (generateBundle isWrite) (bundle s1)) as [e|b].
  - simpl in Hin. apply in_app_or in Hin.
    destruct Hin as [Hin | [Hin | []]]; [tauto | discriminate].
  - rewrite bind_trace, finaliseAssets_run in Hin.
    destruct (pluginDriver_finaliseAssets co _) as [e|[]]; simpl in Hin;
      repeat (apply in_app_or in Hin; destruct Hin as [Hin | Hin]);
      try tauto;
      try (destruct Hin as [Hin | []]; discriminate).
    + apply in_flat_map in Hin. destruct Hin as ([key f] & _ & Hin).
      unfold finaliseNotices in Hin. simpl in Hin.
      apply in_app_or in Hin. destruct Hin as [Hin | Hin].
      * destruct (file_type f); [destruct Hin | destruct Hin as [Hin | []]; discriminate].
      * destruct (validate outputOptions); [|destruct Hin].
        destruct (file_code f) as [code|]; [|destruct Hin].
        destruct (contextParse co code); [|destruct Hin].
        destruct Hin as [Hin | []]; discriminate.
    + apply in_flat_map in Hin. destruct Hin as ([key f] & _ & Hin).
      unfold finaliseNotices in Hin. simpl in Hin.
      apply in_app_or in Hin. destruct Hin as [Hin | Hin].
      * destruct (file_type f); [destruct Hin | destruct Hin as [Hin | []]; discriminate].
      * destruct (validate outputOptions); [|destruct Hin].
        destruct (file_code f) as [code|]; [|destruct Hin].
        destruct (contextParse co code); [|destruct Hin].
        destruct Hin as [Hin | []]; discriminate.
Qed.

End Outcomes.

(** ** Manual chunks that disagree *)

Section ManualChunkConflict.

Variable outputOptions : NormalizedOutputOptions.
Variable graph : Graph.
Variable co : Collaborators.

(** The [try] block when the resolution of the manual chunks throws [e]:
    nothing but the [renderStart] hook has run. *)
Lemma generateSteps_manual_error e s :
  (forall s1, generateChunks outputOptions graph co s1 = (inl e, s1)) ->
  generateSteps outputOptions graph co s =
    match runHook co renderStart (bundle s) with
    | inl startFailure => (inl startFailure, withTrace s [EvHook renderStart])
    | inr b => (inl e, {| bundle := b; chunkIds := chunkIds s;
                          trace := trace s ++ [EvHook renderStart] |})
    end.
Proof.
  intros Hchunks. unfold generateSteps. unfold bind at 1.
  rewrite hookParallel_run.
  destruct (runHook co renderStart (bundle s)); [reflexivity|].
  unfold bind. rewrite Hchunks. reflexivity.
Qed.

End ManualChunkConflict.

(** C1, as the specification states it, fails: a table gives the module [a]
    the aliases [x] and [y], and what [generate] throws is not the
    module-conflict error but the failure of the [renderError] hook, which
    was called with the module-conflict error. *)
Lemma manual_chunk_conflict_error_replaced :
  let outputOptions :=
    demoOptions (ManualChunksObject [("x", ["a"]); ("y", ["b"; "a"])]) false es false in
  let conflict := errCannotAssignModuleToChunk "/src/a.js" "y" "x" in
  loadChunkEntries failingRenderErrorCollaborators
    [("x", ["a"]); ("y", ["b"; "a"])]
    = inr [("x", [moduleA]); ("y", [moduleB; moduleA])] /\
  assigned [("x", moduleA); ("y", moduleB); ("y", moduleA)] "/src/a.js" "x" /\
  assigned [("x", moduleA); ("y", moduleB); ("y", moduleA)] "/src/a.js" "y" /\
  runGenerate outputOptions demoGraph failingRenderErrorCollaborators false =
    (inl (errThrown "renderError hook failed"),
     {| bundle := JsMap.empty; chunkIds := [];
        trace := [EvHook renderStart; EvHook (renderError conflict)] |}) /\
  forall moduleId alias existing,
    fst (runGenerate outputOptions demoGraph failingRenderErrorCollaborators false)
    <> inl (errCannotAssignModuleToChunk moduleId alias existing).
Proof.
  intros outputOptions conflict. split; [reflexivity|].
  split; [exists moduleA; simpl; auto|].
  split; [exists moduleA; simpl; auto|].
  split; [reflexivity|].
  intros moduleId alias existing. discriminate.
Qed.

(** C1, amended.  When the table of manual chunks gives some module two
    distinct aliases, chunk generation throws the module-conflict error, which
    names a module of the table and two distinct aliases assigned to it, and
    [generate] fails after the [renderStart] and [renderError] hooks and
    nothing else: with the module-conflict error when the [renderStart] hook
    has completed and the [renderError] hook completes, with the failure of
    the hook that failed last otherwise.  The assignments taken in any other order are
    rejected with such an error as well.  Assigning a module the alias it
    already has is accepted and leaves the map as it is.  With a classifier
    function every module is classified once: no module gets two aliases and
    the resolution (the classifier itself being taken not to throw) raises no
    conflict and completes. *)
Theorem manual_chunk_conflict_is_fatal
    (outputOptions : NormalizedOutputOptions) (graph : Graph)
    (co : Collaborators) (table : list (string * list string))
    (chunkEntries : list (string * list RollupModule)) :
  manualChunks outputOptions = ManualChunksObject table ->
  loadChunkEntries co table = inr chunkEntries ->
  conflicting (flattenEntries chunkEntries) ->
  (exists moduleId alias existing,
      let conflict := errCannotAssignModuleToChunk moduleId alias existing in
      assigned (flattenEntries chunkEntries) moduleId alias /\
      assigned (flattenEntries chunkEntries) moduleId existing /\
      alias <> existing /\
      (forall s, generateChunks outputOptions graph co s = (inl conflict, s)) /\
      (forall isWrite,
          fst (runGenerate outputOptions graph co isWrite) =
            inl (match runHook co renderStart JsMap.empty with
                 | inl startFailure =>
                     match runHook co (renderError startFailure) JsMap.empty with
                     | inl hookFailure => hookFailure
                     | inr _ => startFailure
                     end
                 | inr b1 =>
                     match runHook co (renderError conflict) b1 with
                     | inl hookFailure => hookFailure
                     | inr _ => conflict
                     end
                 end)) /\
      (forall isWrite b1 b2,
          runHook co renderStart JsMap.empty = inr b1 ->
          runHook co (renderError conflict) b1 = inr b2 ->
          runGenerate outputOptions graph co isWrite =
            (inl conflict,
             {| bundle := b2; chunkIds := [];
                trace := [EvHook renderStart; EvHook (renderError conflict)] |}))) /\
  (forall pairs', Permutation (flattenEntries chunkEntries) pairs' ->
      exists moduleId alias existing,
        addPairs pairs' JsMap.empty =
          inl (errCannotAssignModuleToChunk moduleId alias existing) /\
        assigned (flattenEntries chunkEntries) moduleId alias /\
        assigned (flattenEntries chunkEntries) moduleId existing /\
        alias <> existing) /\
  (forall alias module m,
      JsMap.get (module_id module) m = Some alias ->
      addModuleToManualChunk alias module m = inr m) /\
  (forall graph' getManualChunk,
      ~ conflicting (collectManualChunkAliases graph' getManualChunk) /\
      exists m, assignManualChunks graph' getManualChunk = inr m).
Proof.
  intros Hmode Hload Hconf.
  split; [|split; [|split]].
  - destruct (addPairs_conflict Hconf)
      as (mid & alias & existing & Heq & Ha & He & Hne).
    exists mid, alias, existing. intros conflict.
    assert (Hchunks : forall s,
               generateChunks outputOptions graph co s = (inl conflict, s)).
    { intros s. apply generateChunks_manual_error. rewrite Hmode.
      unfold addManualChunks. rewrite Hload, addEntries_flatten. exact Heq. }
    pose proof (generateSteps_manual_error outputOptions graph co initialState
                  Hchunks) as Hsteps.
    simpl in Hsteps.
    split; [exact Ha | split; [exact He | split; [exact Hne |]]].
    split; [exact Hchunks | split].
    + intros isWrite. unfold runGenerate.
      destruct (runHook co renderStart JsMap.empty) as [startFailure|b1];
        erewrite generate_steps_failed by exact Hsteps; reflexivity.
    + intros isWrite b1 b2 Hstart Herror. unfold runGenerate.
      rewrite Hstart in Hsteps.
      erewrite generate_steps_failed by exact Hsteps. simpl.
      rewrite Herror. reflexivity.
  - intros pairs' Hp.
    destruct (addPairs_conflict (conflicting_perm Hp Hconf))
      as (mid & alias & existing & Heq & Ha & He & Hne).
    exists mid, alias, existing. repeat split; auto;
      eapply assigned_perm; try eassumption; apply Permutation_sym; exact Hp.
  - intros alias module m Hget. unfold addModuleToManualChunk. rewrite Hget.
    rewrite String.eqb_refl. simpl.
    rewrite (JsMapFacts.set_same_value _ _ Hget). reflexivity.
  - intros graph' getManualChunk. split.
    + apply classifier_pairs_consistent.
    + apply assignManualChunks_completes.
Qed.

(** A table that puts the module [a] under the aliases [x] and [y], with
    plugins whose hooks complete: [generate] throws the module-conflict
    error. *)
Lemma manual_chunk_conflict_witness :
  let table := [("x", ["a"]); ("y", ["b"; "a"])] in
  let outputOptions := demoOptions (ManualChunksObject table) false es false in
  let chunkEntries := [("x", [moduleA]); ("y", [moduleB; moduleA])] in
  let conflict := errCannotAssignModuleToChunk "/src/a.js" "y" "x" in
  manualChunks outputOptions = ManualChunksObject table /\
  loadChunkEntries plainCollaborators table = inr chunkEntries /\
  conflicting (flattenEntries chunkEntries) /\
  (exists moduleId alias existing,
      fst (runGenerate outputOptions demoGraph plainCollaborators true) =
        inl (errCannotAssignModuleToChunk moduleId alias existing)) /\
  runGenerate outputOptions demoGraph plainCollaborators true =
    (inl conflict,
     {| bundle := JsMap.empty; chunkIds := [];
        trace := [EvHook renderStart; EvHook (renderError conflict)] |}).
Proof.
  intros table outputOptions chunkEntries conflict.
  assert (Hmode : manualChunks outputOptions = ManualChunksObject table)
    by reflexivity.
  assert (Hload : loadChunkEntries plainCollaborators table = inr chunkEntries)
    by reflexivity.
  assert (Hconf : conflicting (flattenEntries chunkEntries)).
  { exists "/src/a.js", "x", "y". repeat split.
    - exists moduleA. simpl. auto.
    - exists moduleA. simpl. auto.
    - discriminate. }
  split; [exact Hmode | split; [exact Hload | split; [exact Hconf |]]].
  split; [|reflexivity].
  destruct (proj1 (manual_chunk_conflict_is_fatal outputOptions demoGraph
                     plainCollaborators Hmode Hload Hconf))
    as (moduleId & alias & existing & _ & _ & _ & _ & Hgenerate & _).
  exists moduleId, alias, existing.
  rewrite (Hgenerate true). reflexivity.
Defined.

(** C2, as the specification states it, fails: in a preserve-modules build of
    two modules with the [iife] format, the chunks have been created, linked
    and asked for their facades when the option error is raised. *)
Lemma multi_chunk_conflict_not_preflight :
  runGenerate preserveIifeOptions demoGraph plainCollaborators true =
    (inl formatError,
     {| bundle := [];
        chunkIds := [];
        trace := [EvHook renderStart;
                  EvNewChunk chunkOfB; EvNewChunk chunkOfA;
                  EvLink chunkOfB; EvLink chunkOfA;
                  EvGenerateFacades chunkOfB; EvGenerateFacades chunkOfA;
                  EvHook (renderError formatError)] |}).
Proof. reflexivity. Qed.

(** C2, amended.  When chunk generation has produced more than one chunk and
    the format is [iife] or [umd], or [output.file] is set, the [try] block
    throws the invalid-option error for [output.format] or [output.file]
    right after chunk generation: [generate] fails (with that error when the
    [renderError] hook completes), and the only calls made are those of
    steps 1 and 2 followed by the [renderError] hook; addons, export
    generation, pre-render, identity assignment and render never start. *)
Theorem multi_chunk_conflict_detected_after_chunk_generation
    (outputOptions : NormalizedOutputOptions) (graph : Graph)
    (co : Collaborators) (isWrite : bool)
    (s1 : State) (chunks : list Chunk) (s2 : State) :
  hookParallel co renderStart initialState = (inr tt, s1) ->
  generateChunks outputOptions graph co s1 = (inr chunks, s2) ->
  1 < length chunks ->
  format outputOptions = iife \/ format outputOptions = umd \/
  file outputOptions <> None ->
  exists optionName urlHash explanation value,
    (optionName = "output.format" \/ optionName = "output.file") /\
    generateSteps outputOptions graph co initialState =
      (inl (errInvalidOption optionName urlHash explanation value), s2) /\
    (exists err, fst (runGenerate outputOptions graph co isWrite) = inl err) /\
    (forall b,
        runHook co (renderError (errInvalidOption optionName urlHash explanation value))
          (bundle s2) = inr b ->
        fst (runGenerate outputOptions graph co isWrite) =
          inl (errInvalidOption optionName urlHash explanation value)) /\
    trace (snd (runGenerate outputOptions graph co isWrite)) =
      trace s2
      ++ [EvHook (renderError (errInvalidOption optionName urlHash explanation value))] /\
    Forall (fun ev => phase ev <= 2) (trace s2).
Proof.
  intros Hhook Hgen Hlen Hconf.
  destruct (validateOptions_conflict outputOptions s2 Hconf)
    as (name & hash & expl & value & Hname & Hval).
  exists name, hash, expl, value.
  assert (Hsteps : generateSteps outputOptions graph co initialState =
                   (inl (errInvalidOption name hash expl value), s2)).
  { unfold generateSteps. unfold bind at 1. rewrite Hhook.
    unfold bind at 1. rewrite Hgen.
    unfold generateAfterChunks. unfold bind at 1.
    apply Nat.ltb_lt in Hlen. rewrite Hlen, Hval. reflexivity. }
  unfold runGenerate. erewrite generate_steps_failed by exact Hsteps. simpl.
  repeat split; auto.
  - eauto.
  - intros b Hb. rewrite Hb. reflexivity.
  - destruct (emitsIn_run initialState (hookParallel_phase co renderStart))
      as (ev1 & Ht1 & Hb1).
    destruct (emitsIn_run s1 (generateChunks_phase outputOptions graph co))
      as (ev2 & Ht2 & Hb2).
    rewrite Hhook in Ht1. rewrite Hgen in Ht2. simpl in Ht1, Ht2, Hb1.
    rewrite Ht2, Ht1. apply Forall_app. split.
    + eapply Forall_impl; [|exact Hb1]. simpl. intros; lia.
    + eapply Forall_impl; [|exact Hb2]. simpl. intros; lia.
Qed.

Lemma multi_chunk_conflict_detected_after_chunk_generation_witness :
  hookParallel plainCollaborators renderStart initialState
    = (inr tt, withTrace initialState [EvHook renderStart]) /\
  generateChunks preserveIifeOptions demoGraph plainCollaborators
    (withTrace initialState [EvHook renderStart])
    = (inr [chunkOfB; chunkOfA],
       snd (generateChunks preserveIifeOptions demoGraph plainCollaborators
              (withTrace initialState [EvHook renderStart]))) /\
  1 < length [chunkOfB; chunkOfA] /\
  (format preserveIifeOptions = iife \/ format preserveIifeOptions = umd \/
   file preserveIifeOptions <> None) /\
  exists optionName urlHash explanation value,
    (optionName = "output.format" \/ optionName = "output.file") /\
    generateSteps preserveIifeOptions demoGraph plainCollaborators initialState =
      (inl (errInvalidOption optionName urlHash explanation value),
       snd (generateChunks preserveIifeOptions demoGraph plainCollaborators
              (withTrace initialState [EvHook renderStart]))).
Proof.
  assert (Hhook : hookParallel plainCollaborators renderStart initialState
                  = (inr tt, withTrace initialState [EvHook renderStart]))
    by reflexivity.
  assert (Hgen : generateChunks preserveIifeOptions demoGraph plainCollaborators
                   (withTrace initialState [EvHook renderStart])
                 = (inr [chunkOfB; chunkOfA],
                    snd (generateChunks preserveIifeOptions demoGraph
                           plainCollaborators
                           (withTrace initialState [EvHook renderStart]))))
    by reflexivity.
  assert (Hlen : 1 < length [chunkOfB; chunkOfA]) by (simpl; lia).
  assert (Hconf : format preserveIifeOptions = iife \/
                  format preserveIifeOptions = umd \/
                  file preserveIifeOptions <> None) by (left; reflexivity).
  repeat (split; [assumption|]).
  destruct (multi_chunk_conflict_detected_after_chunk_generation
              preserveIifeOptions demoGraph plainCollaborators true
              Hhook Hgen Hlen Hconf)
    as (name & hash & expl & value & Hname & Hsteps & _).
  exists name, hash, expl, value. split; assumption.
Defined.

(** C4, as the specification states it, fails: linking throws, the
    [renderError] hook is run with that failure, the hook throws in turn, and
    what [generate] throws is the failure of the hook, not the original
    one. *)
Lemma render_error_hook_failure_replaces_original :
  fst (generateSteps preserveEsOptions demoGraph brokenLinkCollaborators initialState)
    = inl (errThrown "link failed") /\
  runGenerate preserveEsOptions demoGraph brokenLinkCollaborators true =
    (inl (errThrown "renderError hook failed"),
     {| bundle := [];
        chunkIds := [];
        trace := [EvHook renderStart;
                  EvNewChunk chunkOfB; EvNewChunk chunkOfA;
                  EvLink chunkOfB;
                  EvHook (renderError (errThrown "link failed"))] |}).
Proof. split; reflexivity. Qed.

(** C4, amended.  When the [try] block (the steps 1 to 7) throws [e], the next
    and last call of [generate] is the [renderError] hook with [e]; then
    [generate] throws: [e] itself when the hook completes, the failure of the
    hook otherwise.  No bundle is returned. *)
Theorem generation_failure_notifies_then_rethrows
    (outputOptions : NormalizedOutputOptions) (graph : Graph)
    (co : Collaborators) (isWrite : bool) (e : RollupError) (s1 : State) :
  generateSteps outputOptions graph co initialState = (inl e, s1) ->
  trace (snd (runGenerate outputOptions graph co isWrite)) =
    trace s1 ++ [EvHook (renderError e)] /\
  (forall b, runHook co (renderError e) (bundle s1) = inr b ->
             fst (runGenerate outputOptions graph co isWrite) = inl e) /\
  (forall e', runHook co (renderError e) (bundle s1) = inl e' ->
              fst (runGenerate outputOptions graph co isWrite) = inl e') /\
  (exists err, fst (runGenerate outputOptions graph co isWrite) = inl err).
Proof.
  intros Hsteps. unfold runGenerate.
  erewrite generate_steps_failed by exact Hsteps. simpl.
  repeat split.
  - intros b Hb. rewrite Hb. reflexivity.
  - intros e' He'. rewrite He'. reflexivity.
  - eauto.
Qed.

(** Linking throws and the plugins are quiet: the original failure comes
    out. *)
Lemma generation_failure_notifies_then_rethrows_witness :
  generateSteps preserveEsOptions demoGraph brokenLinkQuietCollaborators initialState
    = (inl (errThrown "link failed"),
       snd (generateSteps preserveEsOptions demoGraph brokenLinkQuietCollaborators
              initialState)) /\
  trace (snd (runGenerate preserveEsOptions demoGraph brokenLinkQuietCollaborators true))
    = [EvHook renderStart; EvNewChunk chunkOfB; EvNewChunk chunkOfA; EvLink chunkOfB]
      ++ [EvHook (renderError (errThrown "link failed"))] /\
  fst (runGenerate preserveEsOptions demoGraph brokenLinkQuietCollaborators true)
    = inl (errThrown "link failed").
Proof.
  assert (Hsteps : generateSteps preserveEsOptions demoGraph
                     brokenLinkQuietCollaborators initialState
                   = (inl (errThrown "link failed"),
                      snd (generateSteps preserveEsOptions demoGraph
                             brokenLinkQuietCollaborators initialState)))
    by reflexivity.
  split; [exact Hsteps|].
  destruct (generation_failure_notifies_then_rethrows preserveEsOptions demoGraph
              brokenLinkQuietCollaborators true Hsteps)
    as (Htrace & Hok & _).
  split; [exact Htrace | exact (Hok [] eq_refl)].
Defined.

(** C9, as the specification states it, fails: every step has completed and
    the [generateBundle] hook as well, but the plugin driver rejects the
    bundle at the end of [finaliseAssets], and [generate] throws. *)
Lemma final_validation_can_abort :
  fst (generateSteps preserveEsOptions demoGraph unfinishedAssetCollaborators
         initialState) = inr tt /\
  fst (runGenerate preserveEsOptions demoGraph unfinishedAssetCollaborators true)
    = inl (errThrown "asset source not set").
Proof. split; reflexivity. Qed.

(** C9, amended.  The checks of the entries never throw: once the [try] block
    and the [generateBundle] hook have completed, an entry without a type is
    turned into an asset and reported by a deprecation notice, a chunk whose
    code does not parse (when validation is on) is reported by a warning, and
    nothing else happens to the bundle; [generate] then returns that bundle,
    provided the closing [finaliseAssets] of the plugin driver does not
    throw. *)
Theorem final_validation_only_warns
    (outputOptions : NormalizedOutputOptions) (graph : Graph)
    (co : Collaborators) (isWrite : bool) (s1 s2 : State) :
  generateSteps outputOptions graph co initialState = (inr tt, s1) ->
  hookSeq co (generateBundle isWrite) s1 = (inr tt, s2) ->
  pluginDriver_finaliseAssets co (finalisedBundle (bundle s2)) = inr tt ->
  let notices :=
    flat_map (fun entry => finaliseNotices outputOptions co (snd entry)) (bundle s2) in
  runGenerate outputOptions graph co isWrite =
    (inr (finalisedBundle (bundle s2)),
     {| bundle := finalisedBundle (bundle s2);
        chunkIds := chunkIds s2;
        trace := trace s2 ++ notices ++ [EvFinaliseAssets] |}) /\
  (forall entries s,
      fst (finaliseEntries outputOptions co entries s) = inr (finalisedBundle entries)) /\
  (forall key f,
      In (key, f) (bundle s2) -> file_type f = None ->
      In (key, coerceToAsset f) (finalisedBundle (bundle s2)) /\
      In (EvWarnDeprecation deprecationMessage) notices) /\
  (forall key f,
      In (key, f) (bundle s2) -> file_type f <> None ->
      In (key, f) (finalisedBundle (bundle s2))) /\
  (forall key f code err,
      In (key, f) (bundle s2) -> validate outputOptions = true ->
      file_code f = Some code -> contextParse co code = inl err ->
      In (EvWarn (errChunkInvalid (finalisedFile f) err)) notices).
Proof.
  intros Hsteps Hhook Hfinal notices.
  split; [|split; [|split; [|split]]].
  - unfold runGenerate. erewrite generate_steps_ok by exact Hsteps.
    unfold bind at 1. rewrite Hhook.
    unfold bind at 1. rewrite finaliseAssets_run, Hfinal. reflexivity.
  - intros entries s. rewrite finaliseEntries_run. reflexivity.
  - intros key f Hin Htype. split.
    + unfold finalisedBundle.
      apply (in_map (fun entry => (fst entry, finalisedFile (snd entry)))) in Hin.
      simpl in Hin. unfold finalisedFile in Hin. rewrite Htype in Hin. exact Hin.
    + apply in_flat_map. exists (key, f). split; [assumption|].
      unfold finaliseNotices. simpl. rewrite Htype. simpl. auto.
  - intros key f Hin Htype. unfold finalisedBundle.
    apply (in_map (fun entry => (fst entry, finalisedFile (snd entry)))) in Hin.
    simpl in Hin. unfold finalisedFile in Hin.
    destruct (file_type f); [exact Hin | congruence].
  - intros key f code err Hin Hvalidate Hcode Hparse.
    apply in_flat_map. exists (key, f). split; [assumption|].
    unfold finaliseNotices. simpl. rewrite Hvalidate, Hcode, Hparse.
    apply in_or_app. right. simpl. auto.
Qed.

(** A plugin writes an entry without a type and a chunk that does not parse
    from its [generateBundle] hook: the bundle is returned, the first entry
    as an asset. *)
Lemma final_validation_only_warns_witness :
  let s1 := snd (generateSteps singleChunkOptions demoGraph writingCollaborators
                   initialState) in
  let s2 := snd (hookSeq writingCollaborators (generateBundle true) s1) in
  generateSteps singleChunkOptions demoGraph writingCollaborators initialState
    = (inr tt, s1) /\
  hookSeq writingCollaborators (generateBundle true) s1 = (inr tt, s2) /\
  pluginDriver_finaliseAssets writingCollaborators (finalisedBundle (bundle s2))
    = inr tt /\
  fst (runGenerate singleChunkOptions demoGraph writingCollaborators true) =
    inr [("chunk.js",
          {| file_type := Some type_chunk; file_code := Some "export {};";
             file_map := None; file_source := None |});
         ("legacy.txt",
          {| file_type := Some type_asset; file_code := None;
             file_map := None; file_source := Some "text" |});
         ("broken.js",
          {| file_type := Some type_chunk; file_code := Some "}";
             file_map := None; file_source := None |})].
Proof.
  intros s1 s2.
  assert (Hsteps : generateSteps singleChunkOptions demoGraph writingCollaborators
                     initialState = (inr tt, s1)) by reflexivity.
  assert (Hhook : hookSeq writingCollaborators (generateBundle true) s1
                  = (inr tt, s2)) by reflexivity.
  assert (Hfinal : pluginDriver_finaliseAssets writingCollaborators
                     (finalisedBundle (bundle s2)) = inr tt) by reflexivity.
  repeat (split; [assumption|]).
  rewrite (proj1 (final_validation_only_warns singleChunkOptions demoGraph
                    writingCollaborators true Hsteps Hhook Hfinal)).
  reflexivity.
Defined.

(** C10, as the specification states it, fails: the [renderStart] hook
    (step 1) throws, and the [renderError] hook is run for that failure. *)
Lemma render_error_covers_generation_start :
  runGenerate preserveEsOptions demoGraph failingStartCollaborators true =
    (inl (errThrown "renderStart hook failed"),
     {| bundle := [];
        chunkIds := [];
        trace := [EvHook renderStart;
                  EvHook (renderError (errThrown "renderStart hook failed"))] |}).
Proof. reflexivity. Qed.

(** C10, amended.  When the [try] block has completed, a failure of the
    [generateBundle] hook or of [finaliseAssets] is what [generate] throws,
    and the [renderError] hook is not run.  The [renderError] hook is run
    exactly when the [try] block throws, that is for the failures of the
    steps 1 to 7 ([renderStart] hook included). *)
Theorem render_error_covers_the_try_block
    (outputOptions : NormalizedOutputOptions) (graph : Graph)
    (co : Collaborators) (isWrite : bool) (s1 : State) :
  generateSteps outputOptions graph co initialState = (inr tt, s1) ->
  (forall e s2,
      hookSeq co (generateBundle isWrite) s1 = (inl e, s2) ->
      runGenerate outputOptions graph co isWrite = (inl e, s2)) /\
  (forall s2 e s3,
      hookSeq co (generateBundle isWrite) s1 = (inr tt, s2) ->
      finaliseAssets outputOptions co s2 = (inl e, s3) ->
      runGenerate outputOptions graph co isWrite = (inl e, s3)) /\
  (forall err,
      ~ In (EvHook (renderError err))
           (trace (snd (runGenerate outputOptions graph co isWrite)))) /\
  (forall outputOptions' graph' co' isWrite',
      (exists err,
          In (EvHook (renderError err))
             (trace (snd (runGenerate outputOptions' graph' co' isWrite'))))
      <->
      (exists e,
          fst (generateSteps outputOptions' graph' co' initialState) = inl e)).
Proof.
  intros Hsteps. repeat split.
  - intros e s2 Hhook. unfold runGenerate.
    erewrite generate_steps_ok by exact Hsteps.
    unfold bind at 1. rewrite Hhook. reflexivity.
  - intros s2 e s3 Hhook Hfinal. unfold runGenerate.
    erewrite generate_steps_ok by exact Hsteps.
    unfold bind at 1. rewrite Hhook.
    unfold bind at 1. rewrite Hfinal. reflexivity.
  - intros err. eapply no_renderError_after_success. exact Hsteps.
  - intros (err & Hin).
    destruct (generateSteps outputOptions' graph' co' initialState)
      as [[e|[]] s'] eqn:Hs.
    + exists e. reflexivity.
    + exfalso. eapply no_renderError_after_success; eauto.
  - intros (e & He).
    destruct (generateSteps outputOptions' graph' co' initialState)
      as [[e0|[]] s'] eqn:Hs; simpl in He; [|discriminate].
    exists e0. unfold runGenerate.
    erewrite generate_steps_failed by exact Hs. simpl.
    apply in_or_app. right. left. reflexivity.
Qed.

(** The [generateBundle] hook of a plugin throws. *)
Lemma render_error_covers_the_try_block_witness :
  let s1 := snd (generateSteps preserveEsOptions demoGraph
                   failingGenerateBundleCollaborators initialState) in
  generateSteps preserveEsOptions demoGraph failingGenerateBundleCollaborators
    initialState = (inr tt, s1) /\
  hookSeq failingGenerateBundleCollaborators (generateBundle true) s1
    = (inl (errThrown "generateBundle hook failed"),
       withTrace s1 [EvHook (generateBundle true)]) /\
  runGenerate preserveEsOptions demoGraph failingGenerateBundleCollaborators true
    = (inl (errThrown "generateBundle hook failed"),
       withTrace s1 [EvHook (generateBundle true)]) /\
  forall err,
    ~ In (EvHook (renderError err))
         (trace (snd (runGenerate preserveEsOptions demoGraph
                        failingGenerateBundleCollaborators true))).
Proof.
  intros s1.
  assert (Hsteps : generateSteps preserveEsOptions demoGraph
                     failingGenerateBundleCollaborators initialState
                   = (inr tt, s1)) by reflexivity.
  assert (Hhook : hookSeq failingGenerateBundleCollaborators (generateBundle true) s1
                  = (inl (errThrown "generateBundle hook failed"),
                     withTrace s1 [EvHook (generateBundle true)])) by reflexivity.
  destruct (render_error_covers_the_try_block preserveEsOptions demoGraph
              failingGenerateBundleCollaborators true Hsteps)
    as (Hfail & _ & Hnone & _).
  repeat split; auto.
Defined.

(** * Further properties of [Bundle.ts] *)

(** ** [validateOptionsForMultiChunkOutput] *)

(** X1.  [validateOptionsForMultiChunkOutput] returns exactly when the format
    is neither [umd] nor [iife], [output.file] is not a string and
    [output.sourcemapFile] is falsy; it then leaves the state as it is, but
    for one warning about [output.amd.id] given exactly when [amd.autoId] is
    off and [amd.id] is truthy.  Otherwise it throws an invalid-option error
    and leaves the state untouched: the [amd] options never make it
    throw. *)
Theorem validateOptions_decision
    (outputOptions : NormalizedOutputOptions) (s : State) :
  (fst (validateOptionsForMultiChunkOutput outputOptions s) = inr tt
   <-> multiChunkCompatible outputOptions) /\
  (multiChunkCompatible outputOptions ->
   snd (validateOptionsForMultiChunkOutput outputOptions s) =
     if negb (autoId (amd_options outputOptions))
        && truthy (amd_id (amd_options outputOptions))
     then withTrace s [EvWarn amdIdWarning]
     else s) /\
  (forall e,
      fst (validateOptionsForMultiChunkOutput outputOptions s) = inl e ->
      snd (validateOptionsForMultiChunkOutput outputOptions s) = s /\
      exists optionName urlHash explanation value,
        e = errInvalidOption optionName urlHash explanation value).
Proof.
  unfold multiChunkCompatible, validateOptionsForMultiChunkOutput, error, throw,
         onwarn, emit, ret, withTrace, amdIdWarning.
  destruct (format outputOptions) eqn:Hf;
    destruct (file outputOptions) as [f|] eqn:Hfile;
    destruct (truthy (sourcemapFile outputOptions)) eqn:Hs;
    destruct (negb (autoId (amd_options outputOptions))
              && truthy (amd_id (amd_options outputOptions))) eqn:Ha;
    simpl;
    (split; [split; [intros H; try discriminate H; repeat split; congruence
                    | intros (H1 & H2 & H3 & H4); congruence]
            | split; [intros (H1 & H2 & H3 & H4); try congruence; reflexivity
                     | intros e H;
                       first [ discriminate H
                             | split; [reflexivity | injection H as <-; eauto] ] ] ]).
Qed.

(** X2.  The checks of [validateOptionsForMultiChunkOutput] are made in a
    fixed order: a [umd] or [iife] format is reported as [output.format]
    (with the format as value) whatever the other options; otherwise a string
    [output.file], be it the empty string, is reported as [output.file]; only
    then a truthy [output.sourcemapFile] is reported.  The empty file name
    that is rejected here is nevertheless treated as no file name by the
    naming of the chunks. *)
Theorem validateOptions_precedence
    (outputOptions : NormalizedOutputOptions) (co : Collaborators) (s : State) :
  (format outputOptions = umd \/ format outputOptions = iife ->
   exists explanation,
     validateOptionsForMultiChunkOutput outputOptions s =
       (inl (errInvalidOption "output.format" "outputformat" explanation
               (Some (format_name (format outputOptions)))), s)) /\
  (format outputOptions <> umd -> format outputOptions <> iife ->
   forall f, file outputOptions = Some f ->
   exists explanation,
     validateOptionsForMultiChunkOutput outputOptions s =
       (inl (errInvalidOption "output.file" "outputdir" explanation None), s)) /\
  (format outputOptions <> umd -> format outputOptions <> iife ->
   file outputOptions = None ->
   truthy (sourcemapFile outputOptions) = true ->
   exists explanation,
     validateOptionsForMultiChunkOutput outputOptions s =
       (inl (errInvalidOption "output.sourcemapFile" "outputsourcemapfile"
               explanation None), s)) /\
  (file outputOptions = Some "" ->
   forall chunk inputBase addons b,
     computeChunkId outputOptions co chunk inputBase addons b =
     if preserveModules outputOptions
     then chunk_generateIdPreserveModules co chunk inputBase b
     else chunk_generateId co chunk addons b).
Proof.
  unfold validateOptionsForMultiChunkOutput, error, throw.
  split; [|split; [|split]].
  - intros [H | H]; rewrite H; eexists; reflexivity.
  - intros Hu Hi f Hfile. rewrite Hfile.
    destruct (format outputOptions); try congruence; eexists; reflexivity.
  - intros Hu Hi Hfile Hs. rewrite Hfile, Hs.
    destruct (format outputOptions); try congruence; eexists; reflexivity.
  - intros Hfile chunk inputBase addons b. unfold computeChunkId.
    rewrite Hfile. reflexivity.
Qed.

(** An [es] build whose file name is the empty string. *)
Lemma validateOptions_precedence_witness :
  let outputOptions :=
    {| manualChunks := ManualChunksObject []; inlineDynamicImports := false;
       preserveModules := false; file := Some ""; format := es;
       sourcemapFile := Some "out.js.map";
       amd_options := {| autoId := false; amd_id := None |};
       validate := false |} in
  (exists explanation,
      validateOptionsForMultiChunkOutput outputOptions initialState =
        (inl (errInvalidOption "output.file" "outputdir" explanation None),
         initialState)) /\
  computeChunkId outputOptions plainCollaborators chunkOfA "/src"
    {| banner := ""; footer := ""; intro := ""; outro := "" |} []
  = inr "chunk.js".
Proof.
  intros outputOptions.
  destruct (validateOptions_precedence outputOptions plainCollaborators initialState)
    as (_ & Hfile & _ & Hname).
  split.
  - apply (Hfile ltac:(discriminate) ltac:(discriminate) "" eq_refl).
  - rewrite (Hname eq_refl). reflexivity.
Defined.

(** ** One chunk, or all modules in one chunk *)

(** X3.  When chunk generation returns at most one chunk, the options are not
    validated: whatever the format and the file options, the call that
    follows chunk generation is the creation of the addons. *)
Theorem single_chunk_build_is_not_validated
    (outputOptions : NormalizedOutputOptions) (graph : Graph)
    (co : Collaborators) (isWrite : bool)
    (s1 : State) (chunks : list Chunk) (s2 : State) :
  hookParallel co renderStart initialState = (inr tt, s1) ->
  generateChunks outputOptions graph co s1 = (inr chunks, s2) ->
  length chunks <= 1 ->
  exists rest,
    trace (snd (runGenerate outputOptions graph co isWrite)) =
      trace s2 ++ EvCreateAddons :: rest.
Proof.
  intros Hhook Hgen Hlen. unfold runGenerate.
  destruct (generate_trace_tail outputOptions graph co isWrite initialState)
    as (tail & Htail & _). rewrite Htail. clear Htail.
  unfold generateSteps. rewrite bind_trace, Hhook, bind_trace, Hgen.
  unfold generateAfterChunks. rewrite bind_trace.
  assert (Hskip : (1 <? length chunks) = false) by (apply Nat.ltb_ge; exact Hlen).
  rewrite Hskip. unfold ret at 1.
  rewrite bind_trace. unfold emit at 1.
  match goal with
  | |- context [snd (?c _)] => assert (Hp : emitsIn 3 7 c)
  end.
  { phases_step.
    apply emitsIn_bind with (mid := 5); [lia | | intros _].
    - apply emitsIn_weaken with (lo := 4) (hi := 5); [lia | lia |].
      apply prerenderChunks_phase.
    - apply emitsIn_weaken with (lo := 6) (hi := 7); [lia | lia |].
      apply addFinalizedChunksToBundle_phase. }
  match goal with
  | |- context [snd (_ ?st)] => destruct (emitsIn_run st Hp) as (evs & Ht & _)
  end.
  rewrite Ht. simpl. exists (evs ++ tail).
  rewrite <- !app_assoc. reflexivity.
Qed.

(** The default partition of the small graph has one chunk; with the [iife]
    format the build goes on to the addons. *)
Lemma single_chunk_build_is_not_validated_witness :
  let outputOptions := demoOptions (ManualChunksObject []) false iife false in
  let s1 := withTrace initialState [EvHook renderStart] in
  let s2 := snd (generateChunks outputOptions demoGraph plainCollaborators s1) in
  hookParallel plainCollaborators renderStart initialState = (inr tt, s1) /\
  generateChunks outputOptions demoGraph plainCollaborators s1
    = (inr [{| chunk_key := 0; orderedModules := [moduleA];
               manualChunkAlias := None |}], s2) /\
  exists rest,
    trace (snd (runGenerate outputOptions demoGraph plainCollaborators true)) =
      trace s2 ++ EvCreateAddons :: rest.
Proof.
  intros outputOptions s1 s2.
  assert (Hhook : hookParallel plainCollaborators renderStart initialState
                  = (inr tt, s1)) by reflexivity.
  assert (Hgen : generateChunks outputOptions demoGraph plainCollaborators s1
                 = (inr [{| chunk_key := 0; orderedModules := [moduleA];
                            manualChunkAlias := None |}], s2)) by reflexivity.
  split; [exact Hhook | split; [exact Hgen|]].
  apply (single_chunk_build_is_not_validated outputOptions demoGraph
           plainCollaborators true Hhook Hgen).
  simpl. lia.
Defined.



(** X5.  [getIncludedModules] keeps exactly the internal modules of the graph
    that are included, are entries or have an included dynamic importer; an
    external module is never kept, and the modules come out in graph
    order. *)
Theorem getIncludedModules_spec (modulesById : list (string * GraphNode)) :
  (forall module,
      In module (getIncludedModules modulesById) <->
      (exists key, In (key, InternalModule module) modulesById) /\
      includedTest module = true) /\
  getIncludedModules modulesById =
    filter includedTest
      (flat_map (fun entry => match snd entry with
                              | InternalModule module => [module]
                              | ExternalModule _ => []
                              end) modulesById) /\
  length (getIncludedModules modulesById) <= length modulesById.
Proof.
  unfold getIncludedModules, includedTest.
  split; [|split].
  - intros module. rewrite in_flat_map. split.
    + intros ([key [m|ext]] & Hin & Hm); [|destruct Hm].
      destruct (isIncluded m || info_isEntry m
                || (0 <? length (includedDynamicImporters m))) eqn:E;
        [|destruct Hm].
      destruct Hm as [<- | []]. split; [exists key; exact Hin | exact E].
    + intros ((key & Hin) & Htest). exists (key, InternalModule module).
      split; [exact Hin|]. rewrite Htest. left. reflexivity.
  - induction modulesById as [|[key [m|ext]] rest IH]; simpl.
    + reflexivity.
    + rewrite IH.
      destruct (isIncluded m || info_isEntry m
                || (0 <? length (includedDynamicImporters m))); reflexivity.
    + exact IH.
  - induction modulesById as [|[key [m|ext]] rest IH]; simpl.
    + lia.
    + rewrite length_app.
      destruct (isIncluded m || info_isEntry m
                || (0 <? length (includedDynamicImporters m))); simpl; lia.
    + lia.
Qed.

(** ** Manual chunks without conflict *)

Section ManualChunkMaps.

Lemma get_None_not_key {V : Type} (k : string) (m : JsMap.t V) :
  JsMap.get k m = None -> ~ In k (map fst m).
Proof.
  induction m as [|[k0 v0] m IH]; simpl; intros H.
  - tauto.
  - destruct (String.eqb_spec k k0) as [->|Hk]; [discriminate|].
    intros [Heq | Hin]; [congruence | exact (IH H Hin)].
Qed.

(** [set] keeps the keys where they are, and appends a new key. *)
Lemma keys_set {V : Type} (k : string) (v : V) (m : JsMap.t V) :
  map fst (JsMap.set k v m) =
  match JsMap.get k m with
  | Some _ => map fst m
  | None => map fst m ++ [k]
  end.
Proof.
  induction m as [|[k0 v0] m IH]; simpl.
  - reflexivity.
  - destruct (String.eqb_spec k k0) as [->|Hk]; simpl.
    + reflexivity.
    + rewrite IH. destruct (JsMap.get k m); reflexivity.
Qed.

Lemma NoDup_keys_set {V : Type} (k : string) (v : V) (m : JsMap.t V) :
  NoDup (map fst m) -> NoDup (map fst (JsMap.set k v m)).
Proof.
  intros H. rewrite keys_set.
  destruct (JsMap.get k m) eqn:E; [exact H|].
  apply NoDup_app; [exact H | repeat constructor; simpl; tauto |].
  intros x Hx [<- | []]. exact (get_None_not_key _ _ E Hx).
Qed.

Lemma addModuleToManualChunk_keys alias module m m' :
  addModuleToManualChunk alias module m = inr m' ->
  NoDup (map fst m) -> NoDup (map fst m').
Proof.
  unfold addModuleToManualChunk.
  destruct (JsMap.get (module_id module) m) as [existing|].
  - destruct (negb (String.eqb existing alias)); [discriminate|].
    intros [= <-]. apply NoDup_keys_set.
  - intros [= <-]. apply NoDup_keys_set.
Qed.

Lemma addPairs_keys pairs : forall m m',
  addPairs pairs m = inr m' -> NoDup (map fst m) -> NoDup (map fst m').
Proof.
  unfold addPairs.
  induction pairs as [|[alias module] pairs IH]; simpl; intros m m' H Hm.
  - injection H as <-. exact Hm.
  - destruct (addModuleToManualChunk alias module m) as [e|m1] eqn:E;
      [discriminate|].
    eapply IH; [exact H|]. eapply addModuleToManualChunk_keys; eauto.
Qed.

Lemma addPairs_result pairs m :
  addPairs pairs JsMap.empty = inr m ->
  represents m pairs /\ NoDup (map fst m).
Proof.
  intros H. split.
  - pose proof (addPairs_spec pairs represents_empty) as Hspec.
    rewrite H in Hspec. exact Hspec.
  - eapply addPairs_keys; [exact H | constructor].
Qed.

End ManualChunkMaps.

(** X6.  The loop over the manual-chunk assignments completes exactly when no
    module is given two distinct aliases; the map it returns then holds each
    module once, and looking a module up gives an alias exactly when that
    alias was assigned to it. *)
Theorem manual_chunks_resolve_iff_consistent
    (pairs : list (string * RollupModule)) :
  ((exists m, addPairs pairs JsMap.empty = inr m) <-> ~ conflicting pairs) /\
  (forall m,
      addPairs pairs JsMap.empty = inr m ->
      represents m pairs /\ NoDup (map fst m)).
Proof.
  split; [split|].
  - intros (m & H) (moduleId & a1 & a2 & H1 & H2 & Hne).
    apply Hne. eapply represents_functional; eauto.
    apply (addPairs_result pairs). exact H.
  - apply addPairs_consistent.
  - intros m H. apply addPairs_result. exact H.
Qed.

(** X7.  With a classifier function, manual chunk resolution never fails: the
    map it returns gives a module id an alias exactly when the graph holds an
    internal module of that id and the classifier returned that alias for
    it. *)
Theorem classifier_mode_never_conflicts
    (graph : Graph) (getManualChunk : string -> option string) :
  exists m,
    assignManualChunks graph getManualChunk = inr m /\
    NoDup (map fst m) /\
    forall moduleId alias,
      JsMap.get moduleId m = Some alias <->
      (exists key module,
          In (key, InternalModule module) (modulesById graph) /\
          module_id module = moduleId) /\
      getManualChunk moduleId = Some alias.
Proof.
  assert (Hcollected : forall moduleId alias,
             assigned (collectManualChunkAliases graph getManualChunk) moduleId alias
             <->
             (exists key module,
                 In (key, InternalModule module) (modulesById graph) /\
                 module_id module = moduleId) /\
             getManualChunk moduleId = Some alias).
  { intros moduleId alias. unfold assigned, collectManualChunkAliases. split.
    - intros (module & Hin & Hid). apply in_flat_map in Hin.
      destruct Hin as ([key [m0|ext]] & Hin & Hm); [|destruct Hm].
      destruct (getManualChunk (module_id m0)) as [a|] eqn:E; [|destruct Hm].
      destruct Hm as [[= <- <-] | []]. subst moduleId.
      split; [exists key, m0; auto | exact E].
    - intros ((key & module & Hin & Hid) & Halias). exists module.
      split; [|exact Hid]. apply in_flat_map.
      exists (key, InternalModule module). split; [exact Hin|].
      rewrite Hid, Halias. left. reflexivity. }
  pose (sorted := arraySort (fun a b => compareAlias (fst a) (fst b))
                    (collectManualChunkAliases graph getManualChunk)).
  assert (Hperm : Permutation sorted
                    (collectManualChunkAliases graph getManualChunk))
    by apply arraySort_perm.
  assert (Hnot : ~ conflicting sorted).
  { intros (moduleId & a1 & a2 & H1 & H2 & Hne). apply Hne.
    apply (assigned_perm Hperm), Hcollected in H1.
    apply (assigned_perm Hperm), Hcollected in H2.
    destruct H1 as [_ H1]. destruct H2 as [_ H2]. congruence. }
  destruct (addPairs_consistent Hnot) as (m & Hm).
  destruct (addPairs_result sorted Hm) as [Hrep Hkeys].
  exists m. split; [exact Hm | split; [exact Hkeys|]].
  intros moduleId alias. rewrite <- Hcollected. split.
  - intros H. apply Hrep in H. exact (assigned_perm Hperm H).
  - intros H. apply Hrep. exact (assigned_perm (Permutation_sym Hperm) H).
Qed.

(** ** The order in which the classifier's answers are recorded *)

Section AliasOrder.

Lemma N_compare_trans (x y z : N) (c : comparison) :
  N.compare x y = c -> N.compare y z = c -> N.compare x z = c.
Proof.
  destruct c; intros H1 H2.
  - apply N.compare_eq_iff in H1, H2. apply N.compare_eq_iff. congruence.
  - apply N.compare_lt_iff in H1, H2. apply N.compare_lt_iff.
    exact (N.lt_trans _ _ _ H1 H2).
  - apply N.compare_gt_iff in H1, H2. apply N.compare_gt_iff.
    exact (N.lt_trans _ _ _ H2 H1).
Qed.

Lemma units_compare_antisym (xs ys : list N) :
  list_compare N.compare ys xs = CompOpp (list_compare N.compare xs ys).
Proof.
  apply list_compare_antisym; [apply N.compare_eq_iff|].
  intros x y. apply N.compare_antisym.
Qed.

(** [u1 <= u2 <= u3] gives [u1 <= u3], where [u <= u'] is "not [u' < u]". *)
Lemma units_not_lt_trans (u1 u2 u3 : list N) :
  list_compare N.compare u2 u1 <> Lt -> list_compare N.compare u3 u2 <> Lt ->
  list_compare N.compare u3 u1 <> Lt.
Proof.
  intros H12 H23 H31.
  destruct (list_compare N.compare u2 u1) eqn:H21; [| congruence |].
  - apply (list_compare_refl N.compare N.compare_eq_iff) in H21. subst u2.
    congruence.
  - destruct (list_compare N.compare u3 u2) eqn:H32; [| congruence |].
    + apply (list_compare_refl N.compare N.compare_eq_iff) in H32. subst u3.
      congruence.
    + assert (list_compare N.compare u3 u1 = Gt) as C.
      { apply (list_compare_trans N.compare N.compare_eq_iff) with (ys := u2).
        - apply N_compare_trans.
        - intros x y. apply N.compare_antisym.
        - exact H32.
        - exact H21. }
      congruence.
Qed.

Lemma jsLt_false (a b : string) :
  jsLt a b = false <-> list_compare N.compare (codeUnits a) (codeUnits b) <> Lt.
Proof.
  unfold jsLt.
  destruct (list_compare N.compare (codeUnits a) (codeUnits b));
    split; congruence.
Qed.

Lemma jsLt_irrefl (s : string) : jsLt s s = false.
Proof.
  apply jsLt_false.
  assert (list_compare N.compare (codeUnits s) (codeUnits s) = Eq) as E
    by (apply (list_compare_refl N.compare N.compare_eq_iff); reflexivity).
  congruence.
Qed.

Lemma jsLt_asym (s1 s2 : string) : jsLt s1 s2 = true -> jsLt s2 s1 = false.
Proof.
  unfold jsLt. rewrite (units_compare_antisym (codeUnits s1) (codeUnits s2)).
  destruct (list_compare N.compare (codeUnits s1) (codeUnits s2));
    simpl; congruence.
Qed.

Lemma not_jsLt_trans (s1 s2 s3 : string) :
  jsLt s2 s1 = false -> jsLt s3 s2 = false -> jsLt s3 s1 = false.
Proof. rewrite !jsLt_false. apply units_not_lt_trans. Qed.

Lemma compareAlias_positive (a b : string) :
  (0 <? compareAlias a b)%Z = jsLt b a.
Proof.
  unfold compareAlias. destruct (jsLt b a); [reflexivity|].
  destruct (jsLt a b); reflexivity.
Qed.

Lemma sortInsert_sorted x l :
  StronglySorted aliasLe l -> StronglySorted aliasLe (sortInsert byAlias x l).
Proof.
  induction l as [|y l IH]; simpl; intros Hl.
  - repeat constructor.
  - inversion Hl as [|? ? Hl' Hy]; subst.
    unfold byAlias at 1. rewrite compareAlias_positive.
    destruct (jsLt (fst y) (fst x)) eqn:E.
    + constructor; [apply IH; exact Hl'|].
      eapply Permutation_Forall;
        [apply Permutation_sym, sortInsert_perm|].
      constructor; [|exact Hy]. unfold aliasLe. apply jsLt_asym. exact E.
    + constructor; [exact Hl|]. constructor; [exact E|].
      eapply Forall_impl; [|exact Hy]. unfold aliasLe. intros z Hz.
      eapply not_jsLt_trans; eauto.
Qed.

Lemma sortInsert_stable alias x l :
  filter (fun p => String.eqb (fst p) alias) (sortInsert byAlias x l) =
  filter (fun p => String.eqb (fst p) alias) (x :: l).
Proof.
  induction l as [|y l IH]; [reflexivity|]. simpl sortInsert.
  unfold byAlias at 1. rewrite compareAlias_positive.
  destruct (jsLt (fst y) (fst x)) eqn:E; [|reflexivity].
  simpl. rewrite IH. simpl.
  destruct (String.eqb_spec (fst y) alias) as [Hy|Hy];
    destruct (String.eqb_spec (fst x) alias) as [Hx|Hx]; try reflexivity.
  rewrite Hy, Hx, jsLt_irrefl in E. discriminate.
Qed.

End AliasOrder.

(** X8.  The sort of [assignManualChunks] puts the classifier's answers in
    non-decreasing order of alias, the order being that of JavaScript strings
    (UTF-16 code units): no pair is followed by a pair of a smaller alias.
    It keeps all the pairs, and leaves the pairs that share an alias in the
    order the graph gave them. *)
Theorem classifier_pairs_sorted_by_alias
    (pairs : list (string * RollupModule)) :
  let sorted := arraySort (fun a b => compareAlias (fst a) (fst b)) pairs in
  StronglySorted aliasLe sorted /\
  Permutation sorted pairs /\
  forall alias,
    filter (fun p => String.eqb (fst p) alias) sorted =
    filter (fun p => String.eqb (fst p) alias) pairs.
Proof.
  intros sorted. subst sorted. fold byAlias. unfold arraySort.
  split; [|split].
  - induction pairs as [|x l IH]; simpl.
    + constructor.
    + apply sortInsert_sorted. exact IH.
  - apply (arraySort_perm byAlias).
  - intros alias. induction pairs as [|x l IH]; simpl; [reflexivity|].
    rewrite sortInsert_stable. simpl. rewrite IH. reflexivity.
Qed.

(** The alias U+1F600 sorts before the alias U+FF5E, as its first code unit
    is the smaller one, although its first byte in UTF-8 is the larger one;
    equal aliases keep their order. *)
Lemma classifier_pairs_sorted_by_alias_witness :
  let pairs := [(fullwidthTilde, moduleA); ("b", moduleB);
                (grinningFace, moduleB); ("b", moduleA)] in
  let sorted := [("b", moduleB); ("b", moduleA);
                 (grinningFace, moduleB); (fullwidthTilde, moduleA)] in
  arraySort (fun a b => compareAlias (fst a) (fst b)) pairs = sorted /\
  StronglySorted aliasLe sorted /\
  String.ltb fullwidthTilde grinningFace = true.
Proof.
  intros pairs sorted.
  assert (E : arraySort (fun a b => compareAlias (fst a) (fst b)) pairs = sorted)
    by (vm_compute; reflexivity).
  split; [exact E | split; [|vm_compute; reflexivity]].
  rewrite <- E. exact (proj1 (classifier_pairs_sorted_by_alias pairs)).
Defined.

(** ** More on identity assignment *)

Section NamingLoop.

Variable outputOptions : NormalizedOutputOptions.
Variable co : Collaborators.
Variable inputBase : string.
Variable addons : Addons.

Lemma chunksForNaming_perm chunks :
  Permutation (chunksForNaming co chunks) chunks.
Proof.
  rewrite chunksForNaming_filter.
  induction chunks as [|c chunks IH]; simpl; [constructor|].
  destruct (isEntryChunk co c); simpl.
  - constructor. exact IH.
  - apply Permutation_sym, Permutation_cons_app, Permutation_sym. exact IH.
Qed.

(** An identity that is held by a chunk and reserved stays so, or is replaced
    by another reserved identity. *)
Lemma namingLoop_keeps_ids chunks : forall s s' key id,
  forEach chunks (assignChunkId outputOptions co inputBase addons) s = (inr tt, s') ->
  lookupId key (chunkIds s) = Some id ->
  JsMap.get id (bundle s) = Some FILE_PLACEHOLDER ->
  exists id', lookupId key (chunkIds s') = Some id' /\
              JsMap.get id' (bundle s') = Some FILE_PLACEHOLDER.
Proof.
  induction chunks as [|c chunks IH]; intros s s' key id; simpl.
  - intros [= <-] Hl Hg. eauto.
  - unfold bind. rewrite assignChunkId_run.
    destruct (computeChunkId outputOptions co c inputBase addons (bundle s))
      as [e|id0]; [discriminate|].
    intros Hloop Hl Hg.
    destruct (Nat.eqb key (chunk_key c)) eqn:E.
    + eapply IH; [exact Hloop | simpl; rewrite E; reflexivity |].
      simpl. apply JsMapFacts.get_set_same.
    + eapply IH; [exact Hloop | simpl; rewrite E; exact Hl |].
      simpl. rewrite JsMapFacts.get_set.
      destruct (String.eqb id id0); [reflexivity | exact Hg].
Qed.

Lemma namingLoop_names_all chunks : forall s s',
  forEach chunks (assignChunkId outputOptions co inputBase addons) s = (inr tt, s') ->
  forall c, In c chunks ->
    exists id, lookupId (chunk_key c) (chunkIds s') = Some id /\
               JsMap.get id (bundle s') = Some FILE_PLACEHOLDER.
Proof.
  induction chunks as [|c0 chunks IH]; intros s s'; simpl.
  - intros _ c [].
  - unfold bind. rewrite assignChunkId_run.
    destruct (computeChunkId outputOptions co c0 inputBase addons (bundle s))
      as [e|id0]; [discriminate|].
    intros Hloop c [<- | Hin].
    + eapply namingLoop_keeps_ids; [exact Hloop | |].
      * simpl. rewrite Nat.eqb_refl. reflexivity.
      * simpl. apply JsMapFacts.get_set_same.
    + eapply IH; eauto.
Qed.

(** What the naming loop does to the bundle: the identities given are turned
    into placeholders, everything else is left as it was. *)
Lemma namingLoop_bundle chunks : forall s,
  exists ids,
    trace (snd (forEach chunks (assignChunkId outputOptions co inputBase addons) s))
      = trace s ++ map assignEvent (combine chunks ids) /\
    forall key,
      JsMap.get key
        (bundle (snd (forEach chunks
                        (assignChunkId outputOptions co inputBase addons) s)))
      = if existsb (String.eqb key) ids then Some FILE_PLACEHOLDER
        else JsMap.get key (bundle s).
Proof.
  induction chunks as [|c chunks IH]; intros s; simpl.
  - exists []. simpl. rewrite app_nil_r. auto.
  - unfold bind. rewrite assignChunkId_run.
    destruct (computeChunkId outputOptions co c inputBase addons (bundle s))
      as [e|id].
    + exists []. simpl. rewrite app_nil_r. auto.
    + destruct (IH (afterAssignment s c id)) as (ids & Htr & Hb).
      exists (id :: ids). split.
      * rewrite Htr. simpl. rewrite <- app_assoc. reflexivity.
      * intros key. rewrite Hb. simpl. rewrite JsMapFacts.get_set.
        destruct (String.eqb key id); simpl;
          destruct (existsb (String.eqb key) ids); reflexivity.
Qed.


Lemma set_twice {V : Type} (k : string) (v : V) (m : JsMap.t V) :
  JsMap.set k v (JsMap.set k v m) = JsMap.set k v m.
Proof. apply JsMapFacts.set_same_value, JsMapFacts.get_set_same. Qed.

Lemma namingLoop_fixed_file f chunks : forall s,
  file outputOptions = Some f -> f <> "" ->
  forEach chunks (assignChunkId outputOptions co inputBase addons) s =
    (inr tt,
     {| bundle := match chunks with
                  | [] => bundle s
                  | _ :: _ => JsMap.set (basename co f) FILE_PLACEHOLDER (bundle s)
                  end;
        chunkIds := rev (map (fun c => (chunk_key c, basename co f)) chunks)
                    ++ chunkIds s;
        trace := trace s ++ map (fun c => EvAssignId c (basename co f)) chunks |}).
Proof.
  intros s Hfile Hf. revert s.
  assert (Hid : forall c b,
             computeChunkId outputOptions co c inputBase addons b
             = inr (basename co f)).
  { intros c b. unfold computeChunkId. rewrite Hfile.
    destruct (String.eqb_spec f ""); [contradiction | reflexivity]. }
  induction chunks as [|c chunks IH]; intros s; simpl.
  - unfold ret. destruct s. simpl. rewrite app_nil_r. reflexivity.
  - unfold bind. rewrite assignChunkId_run, Hid, IH. simpl.
    f_equal. f_equal.
    + destruct chunks; [reflexivity | apply set_twice].
    + rewrite <- app_assoc. reflexivity.
    + rewrite <- app_assoc. reflexivity.
Qed.

End NamingLoop.

(** X9.  [assignChunkIds] goes through every chunk exactly once (the list it
    names is a permutation of the chunk list); when it completes, every chunk
    has an identity, and that identity is held by a placeholder in the
    bundle. *)
Theorem every_chunk_is_named_once
    (outputOptions : NormalizedOutputOptions) (co : Collaborators)
    (chunks : list Chunk) (inputBase : string) (addons : Addons) (s s' : State) :
  assignChunkIds outputOptions co chunks inputBase addons s = (inr tt, s') ->
  Permutation (chunksForNaming co chunks) chunks /\
  forall c, In c chunks ->
    exists id, lookupId (chunk_key c) (chunkIds s') = Some id /\
               JsMap.get id (bundle s') = Some FILE_PLACEHOLDER.
Proof.
  intros H. split; [apply chunksForNaming_perm|].
  intros c Hin. unfold assignChunkIds in H.
  eapply namingLoop_names_all; [exact H|].
  apply chunksForNaming_In. exact Hin.
Qed.

Lemma every_chunk_is_named_once_witness :
  let outputOptions := demoOptions (ManualChunksObject []) false es false in
  let addons := {| banner := ""; footer := ""; intro := ""; outro := "" |} in
  let s' := afterAssignment (afterAssignment initialState chunkOfA "chunk.js")
              chunkOfB "chunk.js2" in
  assignChunkIds outputOptions plainCollaborators [chunkOfB; chunkOfA] "/src" addons
    initialState = (inr tt, s') /\
  Permutation (chunksForNaming plainCollaborators [chunkOfB; chunkOfA])
              [chunkOfB; chunkOfA].
Proof.
  intros outputOptions addons s'.
  assert (H : assignChunkIds outputOptions plainCollaborators [chunkOfB; chunkOfA]
                "/src" addons initialState = (inr tt, s')) by reflexivity.
  split; [exact H|].
  exact (proj1 (every_chunk_is_named_once outputOptions plainCollaborators
                  [chunkOfB; chunkOfA] "/src" addons initialState H)).
Defined.

(** X10.  When [output.file] is a non-empty string, [assignChunkIds] never
    fails and never asks a chunk for a name: every chunk gets
    [basename(file)], and the only thing that happens to the bundle is that
    this one key is turned into a placeholder (when there is a chunk at
    all). *)
Theorem fixed_file_names_every_chunk
    (outputOptions : NormalizedOutputOptions) (co : Collaborators)
    (f : string) (chunks : list Chunk) (inputBase : string) (addons : Addons)
    (s : State) :
  file outputOptions = Some f -> f <> "" ->
  fst (assignChunkIds outputOptions co chunks inputBase addons s) = inr tt /\
  trace (snd (assignChunkIds outputOptions co chunks inputBase addons s)) =
    trace s ++ map (fun c => EvAssignId c (basename co f)) (chunksForNaming co chunks) /\
  bundle (snd (assignChunkIds outputOptions co chunks inputBase addons s)) =
    match chunks with
    | [] => bundle s
    | _ :: _ => JsMap.set (basename co f) FILE_PLACEHOLDER (bundle s)
    end.
Proof.
  intros Hfile Hf. unfold assignChunkIds.
  rewrite (namingLoop_fixed_file outputOptions co inputBase addons
             (chunksForNaming co chunks) s Hfile Hf). simpl.
  repeat split.
  pose proof (chunksForNaming_length co chunks) as Hlen.
  destruct (chunksForNaming co chunks); destruct chunks;
    try reflexivity; discriminate.
Qed.

Lemma fixed_file_names_every_chunk_witness :
  let outputOptions :=
    {| manualChunks := ManualChunksObject []; inlineDynamicImports := false;
       preserveModules := false; file := Some "bundle.js"; format := es;
       sourcemapFile := None;
       amd_options := {| autoId := false; amd_id := None |};
       validate := false |} in
  let addons := {| banner := ""; footer := ""; intro := ""; outro := "" |} in
  file outputOptions = Some "bundle.js" /\ "bundle.js" <> "" /\
  bundle (snd (assignChunkIds outputOptions plainCollaborators [chunkOfA] "/src"
                 addons initialState))
  = [("bundle.js", FILE_PLACEHOLDER)].
Proof.
  intros outputOptions addons.
  assert (Hfile : file outputOptions = Some "bundle.js") by reflexivity.
  assert (Hf : "bundle.js" <> "") by discriminate.
  split; [exact Hfile | split; [exact Hf|]].
  rewrite (proj2 (proj2 (fixed_file_names_every_chunk outputOptions
                           plainCollaborators [chunkOfA] "/src" addons
                           initialState Hfile Hf))).
  reflexivity.
Defined.

(** X11.  Whether it completes or not, [assignChunkIds] touches the bundle
    only at the identities it has given: each of them is set to the
    placeholder, overwriting whatever entry was there under that key, and
    every other key keeps the entry it had. *)
Theorem naming_only_reserves
    (outputOptions : NormalizedOutputOptions) (co : Collaborators)
    (chunks : list Chunk) (inputBase : string) (addons : Addons) (s : State) :
  exists ids,
    trace (snd (assignChunkIds outputOptions co chunks inputBase addons s)) =
      trace s ++ map assignEvent (combine (chunksForNaming co chunks) ids) /\
    forall key,
      JsMap.get key
        (bundle (snd (assignChunkIds outputOptions co chunks inputBase addons s)))
      = if existsb (String.eqb key) ids then Some FILE_PLACEHOLDER
        else JsMap.get key (bundle s).
Proof.
  unfold assignChunkIds.
  destruct (namingLoop_bundle outputOptions co inputBase addons
              (chunksForNaming co chunks) s) as (ids & Htr & Hb).
  exists ids. split; [exact Htr | exact Hb].
Qed.

(** ** The hooks of one [generate] *)

Section HookProtocol.

Variable outputOptions : NormalizedOutputOptions.
Variable graph : Graph.
Variable co : Collaborators.

Lemma phase_notHook e : 2 <= phase e <= 7 \/ phase e = 9 -> notHook e.
Proof.
  intros H h ->. destruct h; simpl in H; lia.
Qed.

Lemma chunkSteps_phase :
  emitsIn 2 7 (chunks <- generateChunks outputOptions graph co ;;
               generateAfterChunks outputOptions co chunks).
Proof.
  apply emitsIn_bind with (mid := 2); [lia | | intros chunks].
  - apply generateChunks_phase.
  - apply generateAfterChunks_phase.
Qed.

(** The [try] block starts with the [renderStart] hook and runs no other
    hook. *)
Lemma generateSteps_trace s :
  exists middle,
    trace (snd (generateSteps outputOptions graph co s)) =
      trace s ++ EvHook renderStart :: middle /\
    Forall notHook middle.
Proof.
  unfold generateSteps. rewrite bind_trace, hookParallel_run.
  destruct (runHook co renderStart (bundle s)) as [e|b].
  - exists []. simpl. auto.
  - match goal with
    | |- context [snd (_ ?st)] =>
        destruct (emitsIn_run st chunkSteps_phase) as (evs & Ht & Hb)
    end.
    exists evs. rewrite Ht. simpl. rewrite <- app_assoc. split; [reflexivity|].
    eapply Forall_impl; [|exact Hb]. intros e He. apply phase_notHook. auto.
Qed.

End HookProtocol.

(** X12.  Every [generate] runs exactly two hooks: the [renderStart] hook,
    which is its first call, and later either the [renderError] hook, as its
    last call and with the failure of the [try] block, or the
    [generateBundle] hook, when the [try] block has completed; never both,
    and no hook is run twice. *)
Theorem generate_runs_two_hooks
    (outputOptions : NormalizedOutputOptions) (graph : Graph)
    (co : Collaborators) (isWrite : bool) :
  exists middle h tail,
    trace (snd (runGenerate outputOptions graph co isWrite)) =
      EvHook renderStart :: middle ++ EvHook h :: tail /\
    Forall notHook middle /\ Forall notHook tail /\
    ((exists e, h = renderError e /\ tail = [] /\
                fst (generateSteps outputOptions graph co initialState) = inl e) \/
     (h = generateBundle isWrite /\
      fst (generateSteps outputOptions graph co initialState) = inr tt)).
Proof.
  destruct (generateSteps_trace outputOptions graph co initialState)
    as (middle & Hsteps & Hmiddle). simpl in Hsteps.
  unfold runGenerate.
  destruct (generateSteps outputOptions graph co initialState)
    as [[e|[]] s1] eqn:Hs; simpl in Hsteps.
  - exists middle, (renderError e), [].
    erewrite generate_steps_failed by exact Hs. simpl. rewrite Hsteps.
    repeat split; auto. left. exists e. auto.
  - exists middle, (generateBundle isWrite).
    erewrite generate_steps_ok by exact Hs.
    rewrite bind_trace, hookParallel_run.
    destruct (runHook co (generateBundle isWrite) (bundle s1)) as [e|b].
    + exists []. simpl. rewrite Hsteps. repeat split; auto.
    + rewrite bind_trace, finaliseAssets_run.
      assert (Hnotices : forall b0 : OutputBundle,
                 Forall notHook
                   (flat_map (fun entry => finaliseNotices outputOptions co (snd entry))
                      b0 ++ [EvFinaliseAssets])).
      { intros b0. apply Forall_app. split.
        - apply Forall_forall. intros ev Hin. apply in_flat_map in Hin.
          destruct Hin as ([key f] & _ & Hin). unfold finaliseNotices in Hin.
          simpl in Hin. apply phase_notHook. right.
          apply in_app_or in Hin. destruct Hin as [Hin | Hin].
          + destruct (file_type f); [destruct Hin|].
            destruct Hin as [<- | []]. reflexivity.
          + destruct (validate outputOptions); [|destruct Hin].
            destruct (file_code f) as [code|]; [|destruct Hin].
            destruct (contextParse co code); [|destruct Hin].
            destruct Hin as [<- | []]. reflexivity.
        - repeat constructor. apply phase_notHook. right. reflexivity. }
      eexists.
      destruct (pluginDriver_finaliseAssets co _) as [e|[]]; simpl;
        rewrite Hsteps; simpl; rewrite <- app_assoc; simpl;
        (split; [reflexivity | repeat split; auto]).
Qed.

(** ** The entries of the chunks *)

Section FinalizedChunks.

Variable co : Collaborators.
Variable addons : Addons.




End FinalizedChunks.


(** ** The bundle after the final validation *)

Section FinalisedBundle.

Lemma finalisedFile_typed f : file_type (finalisedFile f) <> None.
Proof.
  unfold finalisedFile. destruct (file_type f) eqn:E; simpl; congruence.
Qed.

Lemma finalisedFile_twice f : finalisedFile (finalisedFile f) = finalisedFile f.
Proof.
  unfold finalisedFile at 1.
  destruct (file_type (finalisedFile f)) eqn:E; [reflexivity|].
  exfalso. exact (finalisedFile_typed f E).
Qed.

Lemma finalisedFile_payload f :
  file_code (finalisedFile f) = file_code f /\
  file_map (finalisedFile f) = file_map f /\
  file_source (finalisedFile f) = file_source f.
Proof. unfold finalisedFile. destruct (file_type f); simpl; auto. Qed.

Lemma get_finalisedBundle key (b : OutputBundle) :
  JsMap.get key (finalisedBundle b) = option_map finalisedFile (JsMap.get key b).
Proof.
  unfold finalisedBundle. induction b as [|[k f] b IH]; simpl; [reflexivity|].
  destruct (String.eqb key k); [reflexivity | exact IH].
Qed.

End FinalisedBundle.

(** X14.  Whether the plugin driver accepts the bundle or not,
    [finaliseAssets] leaves a bundle with the same keys in the same order, in
    which every entry has a type: an entry that had one is unchanged, an
    entry that had none is the same entry typed as an asset (code, map and
    source are kept).  Validating that bundle again would change nothing. *)
Theorem finaliseAssets_types_every_entry
    (outputOptions : NormalizedOutputOptions) (co : Collaborators) (s : State) :
  let b' := bundle (snd (finaliseAssets outputOptions co s)) in
  map fst b' = map fst (bundle s) /\
  Forall (fun entry => file_type (snd entry) <> None) b' /\
  (forall key,
      JsMap.get key b' = option_map finalisedFile (JsMap.get key (bundle s))) /\
  (forall f, file_type f <> None -> finalisedFile f = f) /\
  (forall f, file_type f = None ->
             file_type (finalisedFile f) = Some type_asset /\
             file_code (finalisedFile f) = file_code f /\
             file_map (finalisedFile f) = file_map f /\
             file_source (finalisedFile f) = file_source f) /\
  finalisedBundle b' = b' /\
  chunkIds (snd (finaliseAssets outputOptions co s)) = chunkIds s.
Proof.
  intros b'. subst b'. rewrite finaliseAssets_run. simpl.
  unfold finalisedBundle.
  split; [|split; [|split; [|split; [|split; [|split]]]]].
  - rewrite map_map. simpl. reflexivity.
  - apply Forall_forall. intros entry Hin. apply in_map_iff in Hin.
    destruct Hin as (e0 & <- & _). simpl. apply finalisedFile_typed.
  - intros key. apply get_finalisedBundle.
  - intros f Hf. unfold finalisedFile. destruct (file_type f); congruence.
  - intros f Hf. unfold finalisedFile. rewrite Hf. simpl. auto.
  - rewrite map_map. simpl. apply map_ext. intros [k f]. simpl.
    rewrite finalisedFile_twice. reflexivity.
  - reflexivity.
Qed.

(** X15.  When [output.validate] is off, [finaliseAssets] does not depend on
    the parser: the code of the entries is never parsed.  All it reports
    before it calls the plugin driver are deprecation notices: none when
    every entry has a type, at least one otherwise, and never more than the
    number of entries without a type. *)
Theorem unvalidated_bundle_is_not_parsed
    (outputOptions : NormalizedOutputOptions) (co : Collaborators) (s : State) :
  validate outputOptions = false ->
  (forall parse,
      finaliseAssets outputOptions (withContextParse co parse) s =
      finaliseAssets outputOptions co s) /\
  exists notices,
    trace (snd (finaliseAssets outputOptions co s)) =
      trace s ++ notices ++ [EvFinaliseAssets] /\
    Forall (fun e => e = EvWarnDeprecation deprecationMessage) notices /\
    length notices <= length (filter untyped (bundle s)) /\
    (notices = [] <->
     Forall (fun entry => file_type (snd entry) <> None) (bundle s)).
Proof.
  intros Hvalidate.
  assert (Hnotices : forall co0 f,
             finaliseNotices outputOptions co0 f =
             match file_type f with
             | None => [EvWarnDeprecation deprecationMessage]
             | Some _ => []
             end).
  { intros co0 f. unfold finaliseNotices. rewrite Hvalidate.
    destruct (file_type f); simpl; reflexivity. }
  split.
  - intros parse. rewrite !finaliseAssets_run. simpl. f_equal. f_equal.
    f_equal. f_equal. apply flat_map_ext. intros [key f]. simpl.
    rewrite !Hnotices. reflexivity.
  - rewrite finaliseAssets_run. simpl.
    exists (flat_map (fun entry => finaliseNotices outputOptions co (snd entry))
              (bundle s)).
    split; [reflexivity|].
    induction (bundle s) as [|[key f] b (IHall & IHlen & IHnil)]; simpl.
    + repeat split; auto.
    + rewrite Hnotices. unfold untyped at 1. simpl.
      destruct (file_type f) as [ty|] eqn:Hty; simpl.
      * split; [exact IHall | split; [exact IHlen|]]. split.
        -- intros H. constructor; [simpl; congruence | apply IHnil; exact H].
        -- intros H. inversion H; subst. apply IHnil. assumption.
      * split; [constructor; [reflexivity | exact IHall] | split; [lia|]].
        split; [discriminate|].
        intros H. inversion H as [|? ? Htyped]; subst. simpl in Htyped.
        congruence.
Qed.

(** A plugin has written an entry without a type and a chunk that does not
    parse; validation is off, and the only notice is the deprecation
    notice. *)
Lemma unvalidated_bundle_is_not_parsed_witness :
  let outputOptions := demoOptions (ManualChunksObject []) false es false in
  let s :=
    {| bundle :=
         [("legacy.txt", {| file_type := None; file_code := None;
                            file_map := None; file_source := Some "text" |});
          ("broken.js", {| file_type := Some type_chunk; file_code := Some "}";
                           file_map := None; file_source := None |})];
       chunkIds := []; trace := [] |} in
  validate outputOptions = false /\
  (forall parse,
      finaliseAssets outputOptions (withContextParse plainCollaborators parse) s =
      finaliseAssets outputOptions plainCollaborators s) /\
  trace (snd (finaliseAssets outputOptions plainCollaborators s)) =
    [EvWarnDeprecation deprecationMessage; EvFinaliseAssets].
Proof.
  intros outputOptions s. split; [reflexivity|].
  split; [|reflexivity].
  exact (proj1 (unvalidated_bundle_is_not_parsed outputOptions plainCollaborators
                  s eq_refl)).
Defined.

(** X16.  A bundle returned by [generate] is the bundle of the final state,
    and every entry in it has a type. *)
Theorem returned_bundle_is_typed
    (outputOptions : NormalizedOutputOptions) (graph : Graph)
    (co : Collaborators) (isWrite : bool) (b : OutputBundle) :
  fst (runGenerate outputOptions graph co isWrite) = inr b ->
  bundle (snd (runGenerate outputOptions graph co isWrite)) = b /\
  Forall (fun entry => file_type (snd entry) <> None) b /\
  fst (generateSteps outputOptions graph co initialState) = inr tt.
Proof.
  unfold runGenerate. intros H.
  destruct (generateSteps outputOptions graph co initialState)
    as [[e|[]] s1] eqn:Hsteps.
  - erewrite generate_steps_failed in H by exact Hsteps. discriminate.
  - erewrite generate_steps_ok in * by exact Hsteps.
    unfold bind at 1 in H. unfold bind at 1.
    destruct (hookSeq co (generateBundle isWrite) s1) as [[e|[]] s2];
      [discriminate|].
    unfold bind at 1 in H. unfold bind at 1.
    rewrite finaliseAssets_run in *.
    destruct (pluginDriver_finaliseAssets co (finalisedBundle (bundle s2)))
      as [e|[]]; [discriminate|].
    unfold getBundle in *. simpl in *. injection H as <-.
    repeat split.
    apply Forall_forall. intros entry Hin. apply in_map_iff in Hin.
    destruct Hin as (e0 & <- & _). simpl. apply finalisedFile_typed.
Qed.

Lemma returned_bundle_is_typed_witness :
  fst (runGenerate singleChunkOptions demoGraph writingCollaborators true) =
    inr (bundle (snd (runGenerate singleChunkOptions demoGraph
                        writingCollaborators true))) /\
  Forall (fun entry => file_type (snd entry) <> None)
    (bundle (snd (runGenerate singleChunkOptions demoGraph
                    writingCollaborators true))).
Proof.
  assert (H : fst (runGenerate singleChunkOptions demoGraph writingCollaborators true)
              = inr (bundle (snd (runGenerate singleChunkOptions demoGraph
                                    writingCollaborators true))))
    by reflexivity.
  split; [exact H|].
  exact (proj1 (proj2 (returned_bundle_is_typed singleChunkOptions demoGraph
                         writingCollaborators true H))).
Defined.

(** ** Passes over the chunks *)

Section Passes.

Lemma forEach_calls_ok {A : Type} (ev : A -> Event) (call : A -> Result unit)
    (l : list A) : forall s,
  Forall (fun x => call x = inr tt) l ->
  forEach l (fun x => emit (ev x) ;; lift (call x)) s
    = (inr tt, withTrace s (map ev l)).
Proof.
  induction l as [|x l IH]; intros s Hall; simpl.
  - unfold ret. rewrite withTrace_nil. reflexivity.
  - inversion Hall as [|? ? Hx Hl]; subst.
    unfold bind at 1. unfold bind at 1. unfold emit at 1. unfold lift at 1.
    rewrite Hx. fold (withTrace s [ev x]). rewrite (IH _ Hl), withTrace_app.
    reflexivity.
Qed.

Lemma forEach_calls_failure {A : Type} (ev : A -> Event) (call : A -> Result unit)
    (pre : list A) x post e s :
  Forall (fun x => call x = inr tt) pre ->
  call x = inl e ->
  forEach (pre ++ x :: post) (fun x => emit (ev x) ;; lift (call x)) s
    = (inl e, withTrace s (map ev (pre ++ [x]))).
Proof.
  intros Hpre Hx. rewrite forEach_app, (@forEach_calls_ok A ev call pre s Hpre).
  simpl.
  unfold bind at 1. unfold bind at 1. unfold emit at 1. unfold lift at 1.
  rewrite Hx. unfold withTrace. simpl. rewrite map_app, app_assoc. reflexivity.
Qed.

Variable co : Collaborators.

Lemma collectFacades_trace chunks : forall facades s,
  exists m,
    m <= length chunks /\
    trace (snd (collectFacades co chunks facades s)) =
      trace s ++ map EvGenerateFacades (firstn m chunks) /\
    (forall result, fst (collectFacades co chunks facades s) = inr result ->
                    m = length chunks).
Proof.
  induction chunks as [|c chunks IH]; intros facades s; simpl.
  - exists 0. simpl. rewrite app_nil_r. auto.
  - unfold bind at 1. unfold emit at 1. unfold bind at 1. unfold lift at 1.
    destruct (chunk_generateFacades co c) as [e|generated].
    + exists 1. simpl. repeat split; [lia | discriminate].
    + match goal with
      | |- context [collectFacades co chunks ?fs ?st] =>
          destruct (IH fs st) as (m & Hm & Htr & Hok)
      end.
      exists (S m). simpl. rewrite Htr. simpl. rewrite <- app_assoc.
      repeat split; [lia|]. intros result H. rewrite (Hok result H). reflexivity.
Qed.

Lemma generateChunks_passes outputOptions graph aliases s :
  resolvedAliases outputOptions graph co = inr aliases ->
  generateChunks outputOptions graph co s =
    match forEach (primaryChunks co 0 (chunkGroups outputOptions graph co aliases))
            (fun chunk => emit (EvLink chunk) ;; lift (chunk_link co chunk))
            (withTrace s
               (map EvNewChunk
                  (primaryChunks co 0 (chunkGroups outputOptions graph co aliases))))
    with
    | (inl e, s1) => (inl e, s1)
    | (inr _, s1) =>
        match collectFacades co
                (primaryChunks co 0 (chunkGroups outputOptions graph co aliases))
                [] s1
        with
        | (inl e, s2) => (inl e, s2)
        | (inr facades, s2) =>
            (inr (primaryChunks co 0 (chunkGroups outputOptions graph co aliases)
                  ++ facades), s2)
        end
    end.
Proof.
  intros Hres. unfold generateChunks.
  unfold bind at 1. unfold lift at 1.
  fold (resolvedAliases outputOptions graph co). rewrite Hres.
  unfold bind at 1. rewrite constructChunks_spec. simpl.
  unfold bind at 1.
  destruct (forEach _ _ _) as [[e|[]] s1]; [reflexivity|].
  unfold bind at 1.
  destruct (collectFacades _ _ _ _) as [[e|facades] s2]; reflexivity.
Qed.

End Passes.

(** X17.  Chunk generation works in passes.  Once the manual chunks are
    resolved, all primary chunks are constructed; then the chunks are linked,
    in order, up to the first failure; and a chunk is asked for its facades
    only when every chunk has been linked.  When chunk generation completes,
    every primary chunk has been constructed, linked and asked for its
    facades, in that order. *)
Theorem chunk_generation_passes
    (outputOptions : NormalizedOutputOptions) (graph : Graph)
    (co : Collaborators) (aliases : JsMap.t string) (s : State) :
  resolvedAliases outputOptions graph co = inr aliases ->
  let primary := primaryChunks co 0 (chunkGroups outputOptions graph co aliases) in
  exists n m,
    n <= length primary /\ m <= length primary /\
    trace (snd (generateChunks outputOptions graph co s)) =
      trace s ++ map EvNewChunk primary
              ++ map EvLink (firstn n primary)
              ++ map EvGenerateFacades (firstn m primary) /\
    (m <> 0 -> n = length primary) /\
    (forall result,
        fst (generateChunks outputOptions graph co s) = inr result ->
        n = length primary /\ m = length primary).
Proof.
  intros Hres primary.
  rewrite (generateChunks_passes co outputOptions graph s Hres). fold primary.
  destruct (forEach_calls EvLink (chunk_link co) primary
              (withTrace s (map EvNewChunk primary))) as (n & Hn & Hs & Hok).
  destruct (forEach primary _ (withTrace s (map EvNewChunk primary)))
    as [[e|[]] s1]; simpl in Hs, Hok.
  - exists n, 0. subst s1. simpl. rewrite app_nil_r, <- app_assoc.
    repeat split; auto; try lia; try congruence; discriminate.
  - destruct (collectFacades_trace co primary [] s1) as (m & Hm & Htr & Hall).
    exists n, m.
    destruct (collectFacades co primary [] s1) as [[e|facades] s2];
      simpl in Htr, Hall; simpl; rewrite Htr; subst s1; simpl;
      rewrite <- !app_assoc; repeat split; auto; try discriminate.
    eapply Hall. reflexivity.
Qed.

(** The small build, one chunk per module. *)
Lemma chunk_generation_passes_witness :
  resolvedAliases preserveEsOptions demoGraph plainCollaborators = inr [] /\
  exists n m,
    n <= 2 /\ m <= 2 /\
    trace (snd (generateChunks preserveEsOptions demoGraph plainCollaborators
                  initialState)) =
      [] ++ map EvNewChunk [chunkOfB; chunkOfA]
         ++ map EvLink (firstn n [chunkOfB; chunkOfA])
         ++ map EvGenerateFacades (firstn m [chunkOfB; chunkOfA]) /\
    (m <> 0 -> n = 2) /\
    (forall result,
        fst (generateChunks preserveEsOptions demoGraph plainCollaborators
               initialState) = inr result ->
        n = 2 /\ m = 2).
Proof.
  assert (H : resolvedAliases preserveEsOptions demoGraph plainCollaborators
              = inr []) by reflexivity.
  split; [exact H|].
  exact (chunk_generation_passes preserveEsOptions demoGraph plainCollaborators
           initialState H).
Defined.

(** X18.  When the link of a chunk throws, the chunks before it having been
    linked, chunk generation throws that failure: no later chunk is linked,
    no chunk is asked for facades, and the bundle and the chunk identities
    are as before. *)
Theorem link_failure_stops_chunk_generation
    (outputOptions : NormalizedOutputOptions) (graph : Graph)
    (co : Collaborators) (aliases : JsMap.t string)
    (pre : list Chunk) (c : Chunk) (post : list Chunk) (e : RollupError)
    (s : State) :
  resolvedAliases outputOptions graph co = inr aliases ->
  primaryChunks co 0 (chunkGroups outputOptions graph co aliases)
    = pre ++ c :: post ->
  Forall (fun x => chunk_link co x = inr tt) pre ->
  chunk_link co c = inl e ->
  generateChunks outputOptions graph co s =
    (inl e,
     withTrace s (map EvNewChunk (pre ++ c :: post) ++ map EvLink (pre ++ [c]))).
Proof.
  intros Hres Hprimary Hpre Hc.
  rewrite (generateChunks_passes co outputOptions graph s Hres), Hprimary.
  rewrite (@forEach_calls_failure Chunk EvLink (chunk_link co) pre c post e _
             Hpre Hc).
  rewrite withTrace_app. reflexivity.
Qed.

Lemma link_failure_stops_chunk_generation_witness :
  resolvedAliases preserveEsOptions demoGraph brokenLinkQuietCollaborators = inr [] /\
  primaryChunks brokenLinkQuietCollaborators 0
    (chunkGroups preserveEsOptions demoGraph brokenLinkQuietCollaborators [])
    = [] ++ chunkOfB :: [chunkOfA] /\
  chunk_link brokenLinkQuietCollaborators chunkOfB = inl (errThrown "link failed") /\
  generateChunks preserveEsOptions demoGraph brokenLinkQuietCollaborators
    initialState =
    (inl (errThrown "link failed"),
     withTrace initialState
       [EvNewChunk chunkOfB; EvNewChunk chunkOfA; EvLink chunkOfB]).
Proof.
  assert (Hres : resolvedAliases preserveEsOptions demoGraph
                   brokenLinkQuietCollaborators = inr []) by reflexivity.
  assert (Hp : primaryChunks brokenLinkQuietCollaborators 0
                 (chunkGroups preserveEsOptions demoGraph
                    brokenLinkQuietCollaborators [])
               = [] ++ chunkOfB :: [chunkOfA]) by reflexivity.
  assert (Hc : chunk_link brokenLinkQuietCollaborators chunkOfB
               = inl (errThrown "link failed")) by reflexivity.
  repeat (split; [assumption|]).
  exact (@link_failure_stops_chunk_generation preserveEsOptions demoGraph
           brokenLinkQuietCollaborators [] [] chunkOfB [chunkOfA]
           (errThrown "link failed") initialState Hres Hp (Forall_nil _) Hc).
Defined.

(** X19.  [prerenderChunks] only makes calls; it leaves the bundle and the
    identities alone.  If [generateExports] throws for a chunk, that failure
    is thrown and no chunk is pre-rendered; if every [generateExports]
    completes and [preRender] throws for a chunk, that failure is thrown and
    no later chunk is pre-rendered; otherwise both passes run over all
    chunks. *)
Theorem prerender_passes
    (co : Collaborators) (chunks : list Chunk) (inputBase : string) (s : State) :
  (forall pre c post e,
      chunks = pre ++ c :: post ->
      Forall (fun x => chunk_generateExports co x = inr tt) pre ->
      chunk_generateExports co c = inl e ->
      prerenderChunks co chunks inputBase s =
        (inl e, withTrace s (map EvGenerateExports (pre ++ [c])))) /\
  (forall pre c post e,
      chunks = pre ++ c :: post ->
      Forall (fun x => chunk_generateExports co x = inr tt) chunks ->
      Forall (fun x => chunk_preRender co x inputBase = inr tt) pre ->
      chunk_preRender co c inputBase = inl e ->
      prerenderChunks co chunks inputBase s =
        (inl e, withTrace s (map EvGenerateExports chunks
                             ++ map EvPreRender (pre ++ [c])))) /\
  (Forall (fun x => chunk_generateExports co x = inr tt) chunks ->
   Forall (fun x => chunk_preRender co x inputBase = inr tt) chunks ->
   prerenderChunks co chunks inputBase s =
     (inr tt, withTrace s (map EvGenerateExports chunks ++ map EvPreRender chunks))).
Proof.
  unfold prerenderChunks. split; [|split].
  - intros pre c post e -> Hpre Hc. unfold bind at 1.
    rewrite (@forEach_calls_failure Chunk EvGenerateExports
               (chunk_generateExports co) pre c post e s Hpre Hc).
    reflexivity.
  - intros pre c post e -> Hexports Hpre Hc. unfold bind at 1.
    rewrite (@forEach_calls_ok Chunk EvGenerateExports
               (chunk_generateExports co) _ s Hexports).
    rewrite (@forEach_calls_failure Chunk EvPreRender
               (fun x => chunk_preRender co x inputBase) pre c post e _ Hpre Hc).
    rewrite withTrace_app. reflexivity.
  - intros Hexports Hpre. unfold bind at 1.
    rewrite (@forEach_calls_ok Chunk EvGenerateExports
               (chunk_generateExports co) _ s Hexports).
    rewrite (@forEach_calls_ok Chunk EvPreRender
               (fun x => chunk_preRender co x inputBase) _ _ Hpre).
    rewrite withTrace_app. reflexivity.
Qed.

Lemma prerender_passes_witness :
  Forall (fun x => chunk_generateExports plainCollaborators x = inr tt)
         [chunkOfB; chunkOfA] /\
  Forall (fun x => chunk_preRender plainCollaborators x "/src" = inr tt)
         [chunkOfB; chunkOfA] /\
  prerenderChunks plainCollaborators [chunkOfB; chunkOfA] "/src" initialState =
    (inr tt,
     withTrace initialState
       [EvGenerateExports chunkOfB; EvGenerateExports chunkOfA;
        EvPreRender chunkOfB; EvPreRender chunkOfA]).
Proof.
  assert (H1 : Forall (fun x => chunk_generateExports plainCollaborators x = inr tt)
                 [chunkOfB; chunkOfA]) by (repeat constructor).
  assert (H2 : Forall (fun x => chunk_preRender plainCollaborators x "/src" = inr tt)
                 [chunkOfB; chunkOfA]) by (repeat constructor).
  repeat (split; [assumption|]).
  exact (proj2 (proj2 (prerender_passes plainCollaborators [chunkOfB; chunkOfA]
                         "/src" initialState)) H1 H2).
Defined.

(** X20.  [getAbsoluteEntryModulePaths] returns the ids of the entry modules
    of the chunks that are absolute paths, and nothing else; the paths come
    chunk after chunk, and there is none when there is no chunk. *)
Theorem absolute_entry_paths
    (co : Collaborators) (chunks more : list Chunk) :
  (forall path,
      In path (getAbsoluteEntryModulePaths co chunks) <->
      exists chunk entryModule,
        In chunk chunks /\ In entryModule (chunk_entryModules co chunk) /\
        module_id entryModule = path /\ isAbsolute co path = true) /\
  getAbsoluteEntryModulePaths co (chunks ++ more) =
    getAbsoluteEntryModulePaths co chunks ++ getAbsoluteEntryModulePaths co more /\
  getAbsoluteEntryModulePaths co [] = [] /\
  length (getAbsoluteEntryModulePaths co chunks) <=
    list_sum (map (fun chunk => length (chunk_entryModules co chunk)) chunks).
Proof.
  unfold getAbsoluteEntryModulePaths. split; [|split; [|split]].
  - intros path. rewrite in_flat_map. split.
    + intros (chunk & Hin & Hpath). apply in_flat_map in Hpath.
      destruct Hpath as (m & Hm & Hpath).
      destruct (isAbsolute co (module_id m)) eqn:E; [|destruct Hpath].
      destruct Hpath as [<- | []]. exists chunk, m. auto.
    + intros (chunk & m & Hin & Hm & <- & Habs). exists chunk.
      split; [exact Hin|]. apply in_flat_map. exists m. split; [exact Hm|].
      rewrite Habs. left. reflexivity.
  - apply flat_map_app.
  - reflexivity.
  - induction chunks as [|c chunks IH]; simpl; [lia|].
    rewrite length_app.
    assert (H : length (flat_map
                          (fun entryModule =>
                             if isAbsolute co (module_id entryModule)
                             then [module_id entryModule] else [])
                          (chunk_entryModules co c))
                <= length (chunk_entryModules co c)).
    { induction (chunk_entryModules co c) as [|m l IHl]; simpl; [lia|].
      rewrite length_app. destruct (isAbsolute co (module_id m)); simpl; lia. }
    lia.
Qed.

(** ** A failing [renderStart] hook *)

(** X21.  When the [renderStart] hook throws, nothing of the build is
    started: no chunk is created and the bundle stays empty; the only other
    call is the [renderError] hook, with that failure, and [generate] throws
    it (or the failure of the [renderError] hook, if it throws too). *)
Theorem renderStart_failure_stops_everything
    (outputOptions : NormalizedOutputOptions) (graph : Graph)
    (co : Collaborators) (isWrite : bool) (e : RollupError) :
  runHook co renderStart JsMap.empty = inl e ->
  trace (snd (runGenerate outputOptions graph co isWrite)) =
    [EvHook renderStart; EvHook (renderError e)] /\
  fst (runGenerate outputOptions graph co isWrite) =
    inl (match runHook co (renderError e) JsMap.empty with
         | inl e' => e'
         | inr _ => e
         end) /\
  chunkIds (snd (runGenerate outputOptions graph co isWrite)) = [].
Proof.
  intros Hhook.
  assert (Hsteps : generateSteps outputOptions graph co initialState =
                   (inl e, withTrace initialState [EvHook renderStart])).
  { unfold generateSteps. unfold bind at 1.
    rewrite hookParallel_run. simpl. rewrite Hhook. reflexivity. }
  unfold runGenerate. erewrite generate_steps_failed by exact Hsteps.
  simpl. auto.
Qed.

Lemma renderStart_failure_stops_everything_witness :
  runHook failingStartCollaborators renderStart JsMap.empty
    = inl (errThrown "renderStart hook failed") /\
  fst (runGenerate preserveEsOptions demoGraph failingStartCollaborators true)
    = inl (errThrown "renderStart hook failed").
Proof.
  assert (H : runHook failingStartCollaborators renderStart JsMap.empty
              = inl (errThrown "renderStart hook failed")) by reflexivity.
  split; [exact H|].
  exact (proj1 (proj2 (renderStart_failure_stops_everything preserveEsOptions
                         demoGraph failingStartCollaborators true H))).
Defined.
